(** * scripts/refactor_types.py: the type-alias rewriter of cforge

    A shallow embedding of the line-oriented analyser and rewriter of
    [scripts/refactor_types.py], and the properties of its rewrite engine,
    context filter and declaration scanner.

    Text.  A Python [str] is modelled as a list of characters, [str], and a
    character as an [ascii], read as one of the code points U+0000..U+00FF.
    The classes [\w], [\s] and [str.strip] follow Python's Unicode tables on
    that range.  Text with code points above U+00FF is outside the model. *)

From Stdlib Require Import List Arith Lia Bool Ascii String ZArith.
From Stdlib Require Import Permutation Sorted DecimalString.
Import ListNotations.

Local Open Scope char_scope.
Local Open Scope nat_scope.
Local Open Scope list_scope.

(** ** Python strings *)

Module PyStr.

Definition str := list ascii.

(** The line separator and the lines that hold none. *)
Definition nl : ascii := "010".

Definition no_nl (l : str) : Prop := ~ In nl l.

(** A string literal of the script. *)
Definition lit (s : string) : str := list_ascii_of_string s.

Definition code (c : ascii) : nat := nat_of_ascii c.

Definition between (lo n hi : nat) : bool := (lo <=? n) && (n <=? hi).

(** [Py_UNICODE_ISALNUM(c) or c == '_'], the class [\w] of a [str] pattern. *)
Definition is_word (c : ascii) : bool :=
  let n := code c in
  between 48 n 57 || between 65 n 90 || (n =? 95) || between 97 n 122
  || (n =? 170) || between 178 n 179 || (n =? 181) || between 185 n 186
  || between 188 n 190 || between 192 n 214 || between 216 n 246
  || between 248 n 255.

(** [Py_UNICODE_ISSPACE], the class [\s] and the characters [strip] removes. *)
Definition is_space (c : ascii) : bool :=
  let n := code c in
  between 9 n 13 || between 28 n 32 || (n =? 133) || (n =? 160).

Definition str_eqb (a b : str) : bool :=
  if list_eq_dec ascii_dec a b then true else false.

(** [s.startswith(p)] *)
Fixpoint startswith (p s : str) : bool :=
  match p, s with
  | [], _ => true
  | _ :: _, [] => false
  | a :: p', b :: s' => Ascii.eqb a b && startswith p' s'
  end.

(** [p in s] *)
Fixpoint contains (p s : str) : bool :=
  startswith p s ||
  match s with
  | [] => false
  | _ :: s' => contains p s'
  end.

(** [s[a:b]] for [0 <= a], [0 <= b] *)
Definition slice (s : str) (a b : nat) : str := firstn (b - a) (skipn a s).

(** [s[-n:]] for [n > 0] *)
Definition last_n (n : nat) (s : str) : str := skipn (List.length s - n) s.

(** [s.split('\n')], accumulating the current line in reverse. *)
Fixpoint split_acc (cur : str) (s : str) : list str :=
  match s with
  | [] => [rev cur]
  | c :: s' =>
      if Ascii.eqb c "010" then rev cur :: split_acc [] s'
      else split_acc (c :: cur) s'
  end.

Definition split_lines (s : str) : list str := split_acc [] s.

(** ['\n'.join(ls)] *)
Fixpoint join_lines (ls : list str) : str :=
  match ls with
  | [] => []
  | [l] => l
  | l :: ls' => l ++ "010" :: join_lines ls'
  end.

Fixpoint lstrip (s : str) : str :=
  match s with
  | c :: s' => if is_space c then lstrip s' else s
  | [] => []
  end.

(** [s.strip()] *)
Definition strip (s : str) : str := rev (lstrip (rev (lstrip s))).

(** [enumerate(ls, start)] *)
Fixpoint enumerate {A} (start : nat) (ls : list A) : list (nat * A) :=
  match ls with
  | [] => []
  | x :: ls' => (start, x) :: enumerate (S start) ls'
  end.

(** [str(n)] for a non-negative [int] *)
Definition str_of_nat (n : nat) : str :=
  lit (NilEmpty.string_of_uint (Nat.to_uint n)).

End PyStr.
Export PyStr.

(** ** The fragment of Python's [re] that the script uses *)

Module Re.

Inductive regex : Type :=
| Empty                                  (* the empty pattern *)
| Char (c : ascii)                        (* a literal character *)
| Class (neg : bool) (cs : list ascii)    (* [...] and [^...] *)
| WordC                                   (* \w *)
| SpaceC                                  (* \s *)
| Boundary                                (* \b *)
| Start                                   (* ^ *)
| Seq (a b : regex)
| Or (a b : regex)
| Star (a : regex)
| Plus (a : regex)
| Opt (a : regex)
| Never.                                  (* matches nothing *)

(** *** Parsing a pattern

    The parser covers what the patterns of the script are written in:
    literals, the escapes [\b \s \w] and escaped punctuation, [^], groups,
    [|], bracket classes without ranges and the greedy [* + ?].  Anything
    else is refused with [None]. *)

Definition is_quant (c : ascii) : bool :=
  Ascii.eqb c "*" || Ascii.eqb c "+" || Ascii.eqb c "?".

Definition is_digit (c : ascii) : bool := between 48 (code c) 57.

Fixpoint parse_class (acc : list ascii) (s : str) : option (list ascii * str) :=
  match s with
  | [] => None
  | c :: s' =>
      if Ascii.eqb c "]" then
        match acc with [] => None | _ => Some (rev acc, s') end
      else if Ascii.eqb c "\" || Ascii.eqb c "-" || Ascii.eqb c "[" then None
      else parse_class (c :: acc) s'
  end.

Definition parse_escape (c : ascii) : option regex :=
  if Ascii.eqb c "b" then Some Boundary
  else if Ascii.eqb c "s" then Some SpaceC
  else if Ascii.eqb c "w" then Some WordC
  else if is_word c then None
  else Some (Char c).

(** One greedy quantifier after an atom; a second one (lazy, possessive or
    a repeated repeat) is refused. *)
Definition parse_quant (a : regex) (s : str) : option (regex * str) :=
  match s with
  | q :: s' =>
      if is_quant q then
        match s' with
        | q' :: _ => if is_quant q' then None else
            Some ((if Ascii.eqb q "*" then Star a
                   else if Ascii.eqb q "+" then Plus a else Opt a), s')
        | [] =>
            Some ((if Ascii.eqb q "*" then Star a
                   else if Ascii.eqb q "+" then Plus a else Opt a), s')
        end
      else Some (a, s)
  | [] => Some (a, s)
  end.

Fixpoint parse_alt (fuel : nat) (s : str) {struct fuel} : option (regex * str) :=
  match fuel with
  | 0 => None
  | S f =>
      match parse_seq f s with
      | Some (a, c :: s1) =>
          if Ascii.eqb c "|" then
            match parse_alt f s1 with
            | Some (b, s2) => Some (Or a b, s2)
            | None => None
            end
          else Some (a, c :: s1)
      | r => r
      end
  end

with parse_seq (fuel : nat) (s : str) {struct fuel} : option (regex * str) :=
  match fuel with
  | 0 => None
  | S f =>
      match s with
      | [] => Some (Empty, [])
      | c :: s' =>
          if Ascii.eqb c ")" || Ascii.eqb c "|" then Some (Empty, s)
          else
            match parse_atom f c s' with
            | Some (a, s1) =>
                match parse_quant a s1 with
                | Some (a', s2) =>
                    match parse_seq f s2 with
                    | Some (b, s3) => Some (Seq a' b, s3)
                    | None => None
                    end
                | None => None
                end
            | None => None
            end
      end
  end

with parse_atom (fuel : nat) (c : ascii) (s : str) {struct fuel}
  : option (regex * str) :=
  match fuel with
  | 0 => None
  | S f =>
      if Ascii.eqb c "(" then
        match s with
        | q :: _ =>
            if Ascii.eqb q "?" then None else
            match parse_alt f s with
            | Some (a, d :: s1) =>
                if Ascii.eqb d ")" then Some (a, s1) else None
            | _ => None
            end
        | [] => None
        end
      else if Ascii.eqb c "[" then
        match s with
        | d :: s' =>
            if Ascii.eqb d "^" then
              match parse_class [] s' with
              | Some (cs, s1) => Some (Class true cs, s1)
              | None => None
              end
            else
              match parse_class [] s with
              | Some (cs, s1) => Some (Class false cs, s1)
              | None => None
              end
        | [] => None
        end
      else if Ascii.eqb c "\" then
        match s with
        | e :: s' =>
            match parse_escape e with
            | Some a => Some (a, s')
            | None => None
            end
        | [] => None
        end
      else if Ascii.eqb c "^" then Some (Start, s)
      else if Ascii.eqb c "{" then
        match s with
        | d :: _ => if is_digit d || Ascii.eqb d "," then None
                    else Some (Char c, s)
        | [] => Some (Char c, s)
        end
      else if is_quant c || Ascii.eqb c "." || Ascii.eqb c "$" then None
      else Some (Char c, s)
  end.

(** [re.compile(pattern)]; [None] stands for a pattern outside the fragment. *)
Definition compile (pattern : string) : option regex :=
  let p := lit pattern in
  match parse_alt (3 * List.length p + 3) p with
  | Some (r, []) => Some r
  | _ => None
  end.

(** The compiled pattern; every pattern of the script compiles (see
    [ReFacts.patterns_compile]), so the [Never] case is not reached. *)
Definition re (pattern : string) : regex :=
  match compile pattern with
  | Some r => r
  | None => Never
  end.

(** *** Matching

    [ends r s i] lists, in the order in which a backtracking matcher tries
    them, the positions [j] such that [s[i:j]] matches [r] at position [i]
    of [s]. *)

Definition char_at (s : str) (i : nat) : option ascii := nth_error s i.

Definition word_at (s : str) (i : nat) : bool :=
  match char_at s i with
  | Some c => is_word c
  | None => false
  end.

Definition word_before (s : str) (i : nat) : bool :=
  match i with
  | 0 => false
  | S k => word_at s k
  end.

Definition step_if (p : ascii -> bool) (s : str) (i : nat) : list nat :=
  match char_at s i with
  | Some c => if p c then [S i] else []
  | None => []
  end.

Definition in_class (cs : list ascii) (c : ascii) : bool :=
  existsb (Ascii.eqb c) cs.

Fixpoint star_ends (step : nat -> list nat) (fuel : nat) (i : nat) : list nat :=
  match fuel with
  | 0 => [i]
  | S f =>
      flat_map (fun j => if i <? j then star_ends step f j else []) (step i)
      ++ [i]
  end.

Fixpoint ends (r : regex) (s : str) (i : nat) {struct r} : list nat :=
  match r with
  | Empty => [i]
  | Char c => step_if (Ascii.eqb c) s i
  | Class neg cs => step_if (fun c => xorb neg (in_class cs c)) s i
  | WordC => step_if is_word s i
  | SpaceC => step_if is_space s i
  | Boundary => if xorb (word_before s i) (word_at s i) then [i] else []
  | Start => if i =? 0 then [i] else []
  | Seq a b => flat_map (ends b s) (ends a s i)
  | Or a b => ends a s i ++ ends b s i
  | Star a => star_ends (ends a s) (List.length s) i
  | Plus a => flat_map (star_ends (ends a s) (List.length s)) (ends a s i)
  | Opt a => ends a s i ++ [i]
  | Never => []
  end.

(** A match as [(start, end)]. *)
Definition span := (nat * nat)%type.

(** The first end that is allowed: after an empty match at [pos] the next
    match may not be empty at [pos] again. *)
Fixpoint first_end (avoid : option nat) (es : list nat) : option nat :=
  match es with
  | [] => None
  | e :: es' =>
      match avoid with
      | Some p => if e =? p then first_end avoid es' else Some e
      | None => Some e
      end
  end.

(** Scan for the leftmost match starting at [pos], [pos+1], ... *)
Fixpoint scan (r : regex) (s : str) (avoid : option nat) (n : nat) (pos : nat)
  : option span :=
  match first_end avoid (ends r s pos) with
  | Some e => Some (pos, e)
  | None =>
      match n with
      | 0 => None
      | S n' => scan r s None n' (S pos)
      end
  end.

Definition search_from (r : regex) (s : str) (avoid : option nat) (pos : nat)
  : option span :=
  if pos <=? List.length s then scan r s avoid (List.length s - pos) pos
  else None.

(** [re.search(pattern, s)] *)
Definition search (pattern : string) (s : str) : option span :=
  search_from (re pattern) s None 0.

(** [re.match(pattern, s)] *)
Definition match_ (pattern : string) (s : str) : option span :=
  match ends (re pattern) s 0 with
  | e :: _ => Some (0, e)
  | [] => None
  end.

Definition is_some {A} (o : option A) : bool :=
  match o with Some _ => true | None => false end.

Fixpoint finditer_from (r : regex) (s : str) (fuel : nat) (avoid : option nat)
  (pos : nat) : list span :=
  match fuel with
  | 0 => []
  | S f =>
      match search_from r s avoid pos with
      | Some (st, en) =>
          (st, en) :: finditer_from r s f (if st =? en then Some en else None) en
      | None => []
      end
  end.

(** [list(re.finditer(pattern, s))] *)
Definition finditer (pattern : string) (s : str) : list span :=
  finditer_from (re pattern) s (2 * List.length s + 2) None 0.

(** The text between and after the matches, with [repl] in place of each. *)
Fixpoint splice (s repl : str) (pos : nat) (ms : list span) : str :=
  match ms with
  | [] => skipn pos s
  | (st, en) :: ms' => slice s pos st ++ repl ++ splice s repl en ms'
  end.

(** [re.sub(pattern, repl, s)] for a replacement without backslashes. *)
Definition sub (pattern : string) (repl : str) (s : str) : str :=
  splice s repl 0 (finditer pattern s).

(** The regex that [compile] builds for the literal [w] followed by [t]. *)
Definition lit_seq (w : str) (t : regex) : regex :=
  fold_right (fun c r => Seq (Char c) r) t w.

(** Some match of [r] starts at position [i] of [s]. *)
Definition matches_at (r : regex) (s : str) (i : nat) : bool :=
  match ends r s i with [] => false | _ :: _ => true end.

(** The ends that [step] yields lie between the start and the end of [s]. *)
Definition in_range (s : str) (step : nat -> list nat) : Prop :=
  forall i j, In j (step i) -> i <= j <= Nat.max i (List.length s).

(** A bound on the number of matches that [finditer_from] still yields
    from [pos]. *)
Definition to_come (s : str) (avoid : option nat) (pos : nat) : nat :=
  2 * (S (List.length s) - pos) - (match avoid with Some _ => 1 | None => 0 end).

End Re.

(** ** The script *)

Module RefactorTypes.

Local Open Scope string_scope.
Local Open Scope nat_scope.
Local Open Scope list_scope.

(** [TYPE_MAPPINGS], in the insertion order of the dict; the keys are
    distinct, so the dict holds exactly these items. *)
Definition TYPE_MAPPINGS : list (string * string) :=
  [ ("\bint\b", "cforge_int_t");
    ("\bunsigned int\b", "cforge_uint_t");
    ("\bsigned int\b", "cforge_int_t");
    ("\bunsigned char\b", "cforge_byte_t");
    ("\bsigned char\b", "cforge_sbyte_t");
    ("\bunsigned short\b", "cforge_ushort_t");
    ("\bsigned short\b", "cforge_short_t");
    ("\bunsigned long long\b", "cforge_ulong_t");
    ("\bsigned long long\b", "cforge_long_t");
    ("\blong long\b", "cforge_long_t");
    ("\bfloat\b", "cforge_float_t");
    ("\bdouble\b", "cforge_double_t");
    ("\blong double\b", "cforge_ldouble_t");
    ("\bsize_t\b", "cforge_size_t") ].

Definition SKIP_PATTERNS : list string :=
  [ "#include";
    "#define";
    "typedef";
    "using\s+";
    "static_cast<";
    "dynamic_cast<";
    "reinterpret_cast<";
    "const_cast<";
    "std::";
    "fmt::";
    "toml::";
    "cforge_" ].

Definition SKIP_DIRS : list string :=
  [ "vendor"; "build"; "deps"; ".git"; "__pycache__" ].

Definition SKIP_FILES : list string := [ "types.h"; "constants.h" ].

(** A [Path] as its [parts]. *)
Definition Path := list string.

Definition name (filepath : Path) : string := last filepath "".

Definition mem (x : string) (l : list string) : bool :=
  existsb (String.eqb x) l.

Definition should_skip_file (filepath : Path) : bool :=
  existsb (fun part => mem part SKIP_DIRS) filepath
  || mem (name filepath) SKIP_FILES.

Definition should_skip_line (line : str) : bool :=
  existsb (fun pattern => Re.is_some (Re.search pattern line)) SKIP_PATTERNS.

(** The markers of [SKIP_PATTERNS] as plain text: a line holds a marker
    when one of the eleven literal markers is a substring of it, or when
    [using] followed by a whitespace character is. *)
Definition literal_markers : list string :=
  [ "#include"; "#define"; "typedef"; "static_cast<"; "dynamic_cast<";
    "reinterpret_cast<"; "const_cast<"; "std::"; "fmt::"; "toml::";
    "cforge_" ].

Definition has_skip_marker (line : str) : Prop :=
  (exists m, In m literal_markers /\ contains (lit m) line = true)
  \/ (exists c, is_space c = true /\ contains (lit "using" ++ [c]) line = true).

(** *** The occurrence locator and the context filter: [find_bare_types] *)

(** [before = line[:match.start()]] *)
Definition text_before (line : str) (m : Re.span) : str := firstn (fst m) line.

(** [match.group()] *)
Definition group (line : str) (m : Re.span) : str := slice line (fst m) (snd m).

(** ['<' in before and '>' not in before] *)
Definition template_guard (before : str) : bool :=
  contains (lit "<") before && negb (contains (lit ">") before).

(** The prefix of every alias token. *)
Definition alias_prefix : str := lit "cforge_".

(** ['cforge_' in before[-20:]] *)
Definition aliased_guard (before : str) : bool :=
  contains alias_prefix (last_n 20 before).

(** The body of [for match in matches]: [true] when the match reaches
    [results.append]. *)
Definition context_accepts (before : str) : bool :=
  if template_guard before then false
  else if aliased_guard before then false
  else true.

Definition occurrence := (nat * str * string)%type.

(** What one match adds to [results]. *)
Definition filter_match (line_num : nat) (line : str) (replacement : string)
  (m : Re.span) : list occurrence :=
  if context_accepts (text_before line m)
  then [(line_num, group line m, replacement)]
  else [].

Definition line_occurrences (line_num : nat) (line : str) : list occurrence :=
  if should_skip_line line then []
  else
    flat_map
      (fun '(pattern, replacement) =>
         flat_map (filter_match line_num line replacement)
                  (Re.finditer pattern line))
      TYPE_MAPPINGS.

Definition find_bare_types (content : str) : list occurrence :=
  flat_map (fun '(line_num, line) => line_occurrences line_num line)
           (enumerate 1 (split_lines content)).

(** The guard as the specification words it: the text holds a [<] with no
    [>] after it.  Reading left to right, the last of the two brackets seen
    is a [<]. *)
Definition unclosed_angle (before : str) : bool :=
  fold_left
    (fun open c =>
       if Ascii.eqb c "<" then true
       else if Ascii.eqb c ">" then false
       else open)
    before false.

(** *** The declaration scanner: [find_declarations_in_source] *)

Definition declaration_patterns : list string :=
  [ "^class\s+\w+\s*[{;]";
    "^struct\s+\w+\s*;";
    "^enum\s+(class\s+)?\w+\s*[{;]";
    "^(static\s+)?(inline\s+)?(const\s+)?(\w+::)?(\w+)\s+(\w+)\s*\([^)]*\)\s*;";
    "^using\s+\w+\s*=";
    "^typedef\s+" ].

(** ['{' in stripped and '}' not in stripped] *)
Definition opens_body (stripped : str) : bool :=
  contains (lit "{") stripped && negb (contains (lit "}") stripped).

(** [for pattern in declaration_patterns]: the entry appended for the line,
    if any.  [continue] goes on with the next pattern, [break] stops. *)
Fixpoint check_declaration (patterns : list string) (line_num : nat)
  (stripped : str) : option (nat * str) :=
  match patterns with
  | [] => None
  | pattern :: rest =>
      if Re.is_some (Re.match_ pattern stripped) then
        if opens_body stripped then check_declaration rest line_num stripped
        else Some (line_num, firstn 80 stripped)
      else check_declaration rest line_num stripped
  end.

(** What a numbered line adds to [results]. *)
Definition entries_of (numbered : nat * str) : list (nat * str) :=
  match check_declaration declaration_patterns (fst numbered)
          (strip (snd numbered)) with
  | Some entry => [entry]
  | None => []
  end.

Record scan_state := {
  results : list (nat * str);
  in_namespace : bool;
  namespace_depth : Z
}.

(** The namespace bookkeeping at the head of the loop body. *)
Definition track_namespace (stripped : str) (st : scan_state) : scan_state :=
  let st1 :=
    if Re.is_some (Re.match_ "^namespace\s+\w+\s*{" stripped)
    then {| results := results st; in_namespace := true;
            namespace_depth := (namespace_depth st + 1)%Z |}
    else st in
  if str_eqb stripped (lit "}") && in_namespace st1 then
    let depth := (namespace_depth st1 - 1)%Z in
    {| results := results st1;
       in_namespace := if (depth =? 0)%Z then false else in_namespace st1;
       namespace_depth := depth |}
  else st1.

Definition scan_line (st : scan_state) (numbered : nat * str) : scan_state :=
  let '(line_num, line) := numbered in
  let stripped := strip line in
  let st1 := track_namespace stripped st in
  match check_declaration declaration_patterns line_num stripped with
  | Some entry =>
      {| results := results st1 ++ [entry];
         in_namespace := in_namespace st1;
         namespace_depth := namespace_depth st1 |}
  | None => st1
  end.

Definition find_declarations_in_source (content : str) : list (nat * str) :=
  results
    (fold_left scan_line (enumerate 1 (split_lines content))
       {| results := []; in_namespace := false; namespace_depth := 0%Z |}).

(** *** The rewrite engine: [replace_types_in_file] *)

(** [sorted(l, key=key, reverse=True)]: a stable sort, largest key first. *)
Section Sorted.
Context {A : Type} (key : A -> nat).

Fixpoint insert_desc (x : A) (l : list A) : list A :=
  match l with
  | [] => [x]
  | y :: l' => if key x <? key y then y :: insert_desc x l' else x :: l
  end.

Definition sorted_desc (l : list A) : list A := fold_right insert_desc [] l.

End Sorted.

(** [a] may stand before [b] in a list sorted with the largest key first. *)
Definition desc {A : Type} (key : A -> nat) (a b : A) : Prop := key b <= key a.

(** The items of [l] whose key is [k], in the order of [l]. *)
Definition with_key {A : Type} (key : A -> nat) (k : nat) (l : list A) : list A :=
  filter (fun a => key a =? k) l.

(** [len(x[0])] *)
Definition pattern_len (x : string * string) : nat := String.length (fst x).

Definition sorted_mappings : list (string * string) :=
  sorted_desc pattern_len TYPE_MAPPINGS.

(** The body of [for pattern, replacement in sorted_mappings], on the pair
    [(new_line, changes)]. *)
Definition apply_mapping (st : str * nat) (m : string * string) : str * nat :=
  let '(new_line, changes) := st in
  let '(pattern, replacement) := m in
  if Re.is_some (Re.search pattern new_line) then
    if contains (lit "std::") new_line then st
    else
      let old_line := new_line in
      let new_line := Re.sub pattern (lit replacement) new_line in
      if str_eqb old_line new_line then (new_line, changes)
      else (new_line, S changes)
  else st.

(** The body of [for line in lines]: the new line and the counter after it. *)
Definition replace_line (line : str) (changes : nat) : str * nat :=
  if should_skip_line line then (line, changes)
  else fold_left apply_mapping sorted_mappings (line, changes).

(** The successive values of [new_line] while the mappings [ms] are applied
    to [cur], and the number of steps of such a trace that altered the line. *)
Fixpoint line_trace (ms : list (string * string)) (cur : str) : list str :=
  match ms with
  | [] => []
  | m :: ms' =>
      let next := fst (apply_mapping (cur, 0) m) in
      next :: line_trace ms' next
  end.

Fixpoint count_altered (cur : str) (trace : list str) : nat :=
  match trace with
  | [] => 0
  | next :: trace' =>
      (if str_eqb cur next then 0 else 1) + count_altered next trace'
  end.

(** The state of the inner loop on a line [line0] entered with the counter
    at [c0]: either nothing was counted and the line is the original one, or
    something was counted and the line holds an alias. *)
Definition line_state (line0 : str) (c0 : nat) (st : str * nat) : Prop :=
  (snd st = c0 /\ fst st = line0)
  \/ (c0 < snd st /\ contains alias_prefix (fst st) = true).

(** The new line and the count of one line, from a counter at zero. *)
Definition new_line_of (line : str) : str := fst (replace_line line 0).
Definition changes_of (line : str) : nat := snd (replace_line line 0).

Definition replace_step (st : list str * nat) (line : str) : list str * nat :=
  let '(new_lines, changes) := st in
  let '(new_line, changes') := replace_line line changes in
  (new_lines ++ [new_line], changes').

(** The loop over the lines of a file: [(new_lines, changes)]. *)
Definition replace_lines (lines : list str) : list str * nat :=
  fold_left replace_step lines ([], 0).

(** [new_content] and [changes] for a content that was read. *)
Definition replace_types (content : str) : str * nat :=
  let '(new_lines, changes) := replace_lines (split_lines content) in
  (join_lines new_lines, changes).

(** *** Files and output

    The disk maps a path to a text or to the cause for which reading it
    fails; every [print] and every [write_text] is logged in order.  A
    [write_text] is taken to succeed. *)

Inductive file : Type :=
| Text (content : str)
| Unreadable (cause : str).

Inductive event : Type :=
| Print (text : str)
| WriteText (filepath : Path) (content : str).

Record World := {
  disk : Path -> file;
  log : list event
}.

(** The [write_text] calls of a log, in order. *)
Definition writes (l : list event) : list (Path * str) :=
  flat_map (fun e => match e with
                     | WriteText p c => [(p, c)]
                     | Print _ => []
                     end) l.

Definition path_eqb (p q : Path) : bool :=
  if list_eq_dec string_dec p q then true else false.

(** [str(filepath)] *)
Definition path_str (filepath : Path) : str :=
  match filepath with
  | "/" :: rest => lit "/" ++ lit (String.concat "/" rest)
  | _ => lit (String.concat "/" filepath)
  end.

Definition print (text : str) (w : World) : World :=
  {| disk := disk w; log := log w ++ [Print text] |}.

Definition write_text (filepath : Path) (content : str) (w : World) : World :=
  {| disk := fun q => if path_eqb q filepath then Text content else disk w q;
     log := log w ++ [WriteText filepath content] |}.

Definition replace_types_in_file (filepath : Path) (dry_run : bool) (w : World)
  : nat * World :=
  match disk w filepath with
  | Unreadable e =>
      (0, print (lit "Error reading " ++ path_str filepath ++ lit ": " ++ e) w)
  | Text content =>
      let '(new_content, changes) := replace_types content in
      if 0 <? changes then
        let w1 := if dry_run then w else write_text filepath new_content w in
        (changes,
         print (lit (if dry_run then "Would modify" else "Modified")
                ++ lit " " ++ path_str filepath ++ lit ": "
                ++ str_of_nat changes ++ lit " replacements") w1)
      else (changes, w)
  end.

(** The [--replace-types] branch of [main], over the files that
    [root.rglob] yields for ['*.cpp'] and then ['*.c']. *)
Definition process_file (dry_run : bool) (st : nat * World) (filepath : Path)
  : nat * World :=
  let '(total_changes, w) := st in
  if should_skip_file filepath then st
  else
    let '(changes, w') := replace_types_in_file filepath dry_run w in
    (total_changes + changes, w').

Definition main_replace_types (files : list Path) (dry_run : bool) (w : World)
  : World :=
  let '(total_changes, w') := fold_left (process_file dry_run) files (0, w) in
  print ("010"%char :: lit "Total changes: " ++ str_of_nat total_changes) w'.

(** *** The analysis of one file and the report

    [analyze_file] is given what the script takes from its libraries: the
    text of the path, its [suffix], and what reading the file with
    [errors='ignore'] gives, a text or the cause of a failure.  An analysis
    is one of the two dicts that [analyze_file] builds. *)

Definition dquote : ascii := ascii_of_nat 34.

Definition find_missing_namespace (content : str) (suffix : string)
  : list str :=
  if negb (contains (lit "namespace cforge") content) then
    if mem suffix [".cpp"; ".hpp"] then
      if contains (lit "#include " ++ dquote :: lit "cforge/") content
         || contains (lit "#include " ++ dquote :: lit "core/") content
      then [lit "File may need cforge namespace"]
      else []
    else []
  else [].

Inductive analysis : Type :=
| Failed (error : str)
| Analysed (filepath : str) (bare_types : list occurrence)
    (declarations_in_source : list (nat * str)) (namespace_issues : list str).

Definition analyze_file (filepath : str) (suffix : string) (read : file)
  : analysis :=
  match read with
  | Unreadable e => Failed e
  | Text content =>
      let checked := mem suffix [".cpp"; ".c"] in
      Analysed filepath
        (if checked then find_bare_types content else [])
        (if checked then find_declarations_in_source content else [])
        (find_missing_namespace content suffix)
  end.

(** [analysis['bare_types']] *)
Definition bare_types_of (a : analysis) : list occurrence :=
  match a with
  | Analysed _ bare_types _ _ => bare_types
  | Failed _ => []
  end.

(** An item of [files_with_issues]. *)
Record issue_entry := {
  path : string;
  bare_count : nat;
  declarations_count : nat;
  namespace_count : nat;
  details : analysis
}.

(** The counters and the list that the first loop of [print_report]
    builds. *)
Record tally := {
  total_bare_types : nat;
  total_declarations : nat;
  total_namespace : nat;
  files_with_issues : list issue_entry
}.

Definition tally_step (t : tally) (item : string * analysis) : tally :=
  let '(filepath, a) := item in
  match a with
  | Failed _ => t
  | Analysed _ bare_types declarations namespace =>
      let bare_types_n := List.length bare_types in
      let declarations_n := List.length declarations in
      let namespace_n := List.length namespace in
      {| total_bare_types := total_bare_types t + bare_types_n;
         total_declarations := total_declarations t + declarations_n;
         total_namespace := total_namespace t + namespace_n;
         files_with_issues :=
           if (0 <? bare_types_n) || (0 <? declarations_n) || (0 <? namespace_n)
           then files_with_issues t
                  ++ [{| path := filepath; bare_count := bare_types_n;
                         declarations_count := declarations_n;
                         namespace_count := namespace_n; details := a |}]
           else files_with_issues t |}
  end.

Definition tally_of (results : list (string * analysis)) : tally :=
  fold_left tally_step results
    {| total_bare_types := 0; total_declarations := 0; total_namespace := 0;
       files_with_issues := [] |}.

(** [sorted_files[:20]] *)
Definition top_files (t : tally) : list issue_entry :=
  firstn 20 (sorted_desc bare_count (files_with_issues t)).

(** What the last loop prints for one file. *)
Definition file_block (f : issue_entry) : list str :=
  if 0 <? bare_count f then
    (nl :: lit (path f) ++ lit " (" ++ str_of_nat (bare_count f)
        ++ lit " bare types)")
    :: map (fun '(line_num, old, new) =>
              lit "  Line " ++ str_of_nat line_num ++ lit ": " ++ old
              ++ lit " -> " ++ lit new)
           (firstn 5 (bare_types_of (details f)))
    ++ (if 5 <? List.length (bare_types_of (details f))
        then [lit "  ... and "
              ++ str_of_nat (List.length (bare_types_of (details f)) - 5)
              ++ lit " more"]
        else [])
  else [].

(** The texts that [print_report] prints, in order; [results] holds the
    items of the dict in insertion order. *)
Definition report_texts (results : list (string * analysis)) : list str :=
  let t := tally_of results in
  [ repeat "="%char 80;
    lit "CFORGE CODEBASE ANALYSIS REPORT";
    repeat "="%char 80;
    nl :: lit "Summary:";
    lit "  - Files analyzed: " ++ str_of_nat (List.length results);
    lit "  - Files with issues: "
      ++ str_of_nat (List.length (files_with_issues t));
    lit "  - Bare types to replace: " ++ str_of_nat (total_bare_types t);
    lit "  - Declarations in sources: " ++ str_of_nat (total_declarations t);
    lit "  - Namespace issues: " ++ str_of_nat (total_namespace t);
    nl :: repeat "-"%char 80;
    lit "FILES WITH BARE TYPES (top 20):";
    repeat "-"%char 80 ]
  ++ flat_map file_block (top_files t).

Definition print_report (results : list (string * analysis)) (w : World)
  : World :=
  fold_left (fun w text => print text w) (report_texts results) w.

(** *** Notions used to state further properties *)

(** The primitive spelling that a key of [TYPE_MAPPINGS] stands for: the
    pattern text without the [\b] at either end. *)
Definition spelling (pattern : string) : str :=
  slice (lit pattern) 2 (List.length (lit pattern) - 2).

(** [text] stands in [line] at [start] as a whole word: no word character
    stands before it and none after it. *)
Definition whole_word_at (text line : str) (start : nat) : Prop :=
  slice line start (start + List.length text) = text /\
  start + List.length text <= List.length line /\
  Re.word_before line start = false /\
  Re.word_at line (start + List.length text) = false.

(** The namespace bookkeeping is consistent: the depth is not negative, and
    the flag is set exactly when the depth is positive. *)
Definition namespace_ok (st : scan_state) : Prop :=
  (0 <= namespace_depth st)%Z /\
  (in_namespace st = true <-> (0 < namespace_depth st)%Z).

(** [s.endswith(p)] *)
Definition endswith (p s : str) : bool := startswith (rev p) (rev s).

(** A replacement that cannot complete a [std::]: it begins with [c], holds
    no [std::], and ends with none of [s], [st], [std] and [std:]. *)
Definition std_safe (repl : str) : bool :=
  startswith (lit "c") repl
  && negb (contains (lit "std::") repl)
  && forallb (fun k => negb (endswith (firstn k (lit "std::")) repl))
             [1; 2; 3; 4].

(** A text begins, or ends, with a word character. *)
Definition starts_word (t : str) : bool :=
  match t with
  | c :: _ => is_word c
  | [] => false
  end.

Definition ends_word (t : str) : bool := starts_word (rev t).

(** No word character stands before the end of [a]; where [a] is empty,
    [prev] tells whether one stands before it. *)
Definition left_ok (prev : bool) (a : str) : bool :=
  match a with
  | [] => negb prev
  | _ :: _ => negb (ends_word a)
  end.

(** [w] stands in [t] as a whole word, [t] being preceded by a word
    character or not as [prev] tells. *)
Definition stands (prev : bool) (w t : str) : Prop :=
  exists a b, t = a ++ w ++ b /\ left_ok prev a = true /\ starts_word b = false.

(** The regex of a whole-word pattern. *)
Definition word_pattern (w : str) : Re.regex :=
  Re.Seq Re.Boundary (Re.lit_seq w (Re.Seq Re.Boundary Re.Empty)).

(** [replaced w repl prev t n]: [n] is [t] with the whole-word occurrences
    of [w], taken from the left and not overlapping, replaced by [repl]. *)
Inductive replaced (w repl : str) : bool -> str -> str -> Prop :=
| replaced_none (prev : bool) (t : str) :
    ~ stands prev w t -> replaced w repl prev t t
| replaced_one (prev : bool) (a t' n' : str) :
    left_ok prev a = true ->
    starts_word t' = false ->
    (forall a2 b2, a ++ w ++ t' = a2 ++ w ++ b2 ->
                   left_ok prev a2 = true -> starts_word b2 = false ->
                   List.length a <= List.length a2) ->
    replaced w repl true t' n' ->
    replaced w repl prev (a ++ w ++ t') (a ++ repl ++ n').

(** The scanner's state before the first line. *)
Definition scan_start : scan_state :=
  {| results := []; in_namespace := false; namespace_depth := 0%Z |}.

(** An occurrence and a declaration with the line number moved down by [k]
    lines. *)
Definition shift_occurrence (k : nat) (o : occurrence) : occurrence :=
  let '(line_num, text, replacement) := o in (k + line_num, text, replacement).

Definition shift_entry (k : nat) (e : nat * str) : nat * str :=
  (k + fst e, snd e).

(** The total that the loop of [main] reaches over [files]. *)
Definition total_changes (files : list Path) (dry_run : bool) (w : World) : nat :=
  fst (fold_left (process_file dry_run) files (0, w)).



(** A tally whose totals are the sums over its entries, each entry holding
    the length of its own list of bare types and at least one issue. *)
Definition consistent (t : tally) : Prop :=
  total_bare_types t = list_sum (map bare_count (files_with_issues t))
  /\ total_declarations t
     = list_sum (map declarations_count (files_with_issues t))
  /\ total_namespace t = list_sum (map namespace_count (files_with_issues t))
  /\ Forall (fun f =>
               bare_count f = List.length (bare_types_of (details f))
               /\ 0 < bare_count f + declarations_count f + namespace_count f)
            (files_with_issues t).

(** [a] stands before [b] in [l]: when a loop runs through [l], it comes to
    [a] first. *)
Definition applied_before {A : Type} (a b : A) (l : list A) : Prop :=
  exists l1 l2 l3, l = l1 ++ a :: l2 ++ b :: l3.

End RefactorTypes.

(** * Properties *)

(** ** Facts about the string operations *)

Module PyStrFacts.

Lemma eqb_nl (c : ascii) : Ascii.eqb c nl = true <-> c = nl.
Proof. apply Ascii.eqb_eq. Qed.

Lemma str_eqb_eq (a b : str) : str_eqb a b = true <-> a = b.
Proof.
  unfold str_eqb. destruct (list_eq_dec ascii_dec a b); split; congruence.
Qed.

Lemma str_eqb_refl (a : str) : str_eqb a a = true.
Proof. now apply str_eqb_eq. Qed.

Lemma startswith_spec (p s : str) :
  startswith p s = true <-> exists b, s = p ++ b.
Proof.
  revert s. induction p as [|a p IH]; intros s; simpl.
  - split; [eauto | reflexivity].
  - destruct s as [|c s].
    + split; [discriminate | intros [b H]; discriminate].
    + rewrite andb_true_iff, Ascii.eqb_eq, IH. split.
      * intros [-> [b ->]]. now exists b.
      * intros [b H]. injection H as -> ->. eauto.
Qed.

Lemma contains_spec (p s : str) :
  contains p s = true <-> exists a b, s = a ++ p ++ b.
Proof.
  induction s as [|c s IH]; simpl.
  - rewrite orb_false_r, startswith_spec. split.
    + intros [b H]. now exists [], b.
    + intros [a [b H]]. destruct a; [now exists b | discriminate].
  - rewrite orb_true_iff, startswith_spec, IH. split.
    + intros [[b H] | [a [b H]]].
      * now exists [], b.
      * exists (c :: a), b. now rewrite H.
    + intros [a [b H]]. destruct a as [|d a].
      * left. now exists b.
      * right. injection H as _ H. eauto.
Qed.

Lemma contains_app (p a s b : str) :
  contains p s = true -> contains p (a ++ s ++ b) = true.
Proof.
  rewrite !contains_spec. intros [x [y ->]].
  exists (a ++ x), (y ++ b). now rewrite <- !app_assoc.
Qed.

Lemma contains_self_app (p a b : str) : contains p (a ++ p ++ b) = true.
Proof. apply contains_spec. eauto. Qed.

Lemma contains_skipn (p s : str) (n : nat) :
  contains p (skipn n s) = true -> contains p s = true.
Proof.
  intros H. rewrite <- (firstn_skipn n s), <- (app_nil_r (skipn n s)).
  now apply contains_app.
Qed.

Lemma contains_firstn (p s : str) (n : nat) :
  contains p (firstn n s) = true -> contains p s = true.
Proof.
  intros H. rewrite <- (firstn_skipn n s).
  now apply (contains_app p [] (firstn n s) (skipn n s)) in H.
Qed.

Lemma contains_false_firstn (p s : str) (n : nat) :
  contains p s = false -> contains p (firstn n s) = false.
Proof.
  intros H. destruct (contains p (firstn n s)) eqn:E; [|reflexivity].
  apply contains_firstn in E. congruence.
Qed.

Lemma contains_false_last_n (p s : str) (n : nat) :
  contains p s = false -> contains p (last_n n s) = false.
Proof.
  intros H. unfold last_n.
  destruct (contains p (skipn _ s)) eqn:E; [|reflexivity].
  apply contains_skipn in E. congruence.
Qed.

(** [split] and [join] *)

Lemma split_acc_nonempty (cur s : str) : split_acc cur s <> [].
Proof.
  revert cur. induction s as [|c s IH]; intros cur; simpl; [discriminate|].
  destruct (Ascii.eqb c "010"); [discriminate | apply IH].
Qed.

Lemma join_cons (l : str) (ls : list str) :
  ls <> [] -> join_lines (l :: ls) = l ++ nl :: join_lines ls.
Proof. destruct ls; [congruence | reflexivity]. Qed.

Lemma join_split_acc (cur s : str) :
  join_lines (split_acc cur s) = rev cur ++ s.
Proof.
  revert cur. induction s as [|c s IH]; intros cur; simpl.
  - now rewrite app_nil_r.
  - destruct (Ascii.eqb c "010") eqn:E.
    + apply Ascii.eqb_eq in E. subst c.
      rewrite join_cons by apply split_acc_nonempty. now rewrite IH.
    + rewrite IH. simpl. now rewrite <- app_assoc.
Qed.

Lemma join_split (s : str) : join_lines (split_lines s) = s.
Proof. apply join_split_acc. Qed.

Lemma split_acc_no_nl (cur l rest : str) :
  no_nl l -> split_acc cur (l ++ rest) = split_acc (rev l ++ cur) rest.
Proof.
  revert cur. induction l as [|c l IH]; intros cur H; simpl; [reflexivity|].
  destruct (Ascii.eqb c "010") eqn:E.
  - apply Ascii.eqb_eq in E. subst c. exfalso. apply H. now left.
  - rewrite IH by (intros F; apply H; now right).
    now rewrite <- app_assoc.
Qed.

Lemma split_join (ls : list str) :
  ls <> [] -> Forall no_nl ls -> split_lines (join_lines ls) = ls.
Proof.
  unfold split_lines. induction ls as [|l ls IH]; intros Hne Hall; [congruence|].
  inversion Hall as [|? ? Hl Hls]; subst.
  destruct ls as [|l' ls].
  - simpl. rewrite <- (app_nil_r l) at 1. rewrite split_acc_no_nl by assumption.
    simpl. now rewrite app_nil_r, rev_involutive.
  - rewrite join_cons by discriminate.
    rewrite split_acc_no_nl by assumption. simpl.
    rewrite app_nil_r, rev_involutive. f_equal.
    apply IH; [discriminate | assumption].
Qed.

Lemma split_acc_lines_no_nl (cur s : str) :
  no_nl cur -> Forall no_nl (split_acc cur s).
Proof.
  revert cur. induction s as [|c s IH]; intros cur H; simpl.
  - constructor; [|constructor]. intros F. apply H. now apply in_rev.
  - destruct (Ascii.eqb c "010") eqn:E.
    + constructor.
      * intros F. apply H. now apply in_rev.
      * apply IH. intros [].
    + apply IH. intros [F|F]; [|now apply H].
      subst c. now rewrite Ascii.eqb_refl in E.
Qed.

Lemma split_lines_no_nl (s : str) : Forall no_nl (split_lines s).
Proof. apply split_acc_lines_no_nl. intros []. Qed.

Lemma split_lines_nonempty (s : str) : split_lines s <> [].
Proof. apply split_acc_nonempty. Qed.

Lemma in_firstn {A} (x : A) (n : nat) (l : list A) : In x (firstn n l) -> In x l.
Proof.
  intros H. rewrite <- (firstn_skipn n l). apply in_or_app. now left.
Qed.

Lemma in_skipn {A} (x : A) (n : nat) (l : list A) : In x (skipn n l) -> In x l.
Proof.
  intros H. rewrite <- (firstn_skipn n l). apply in_or_app. now right.
Qed.

End PyStrFacts.

(** ** Facts about matching, searching and substituting *)

Module ReFacts.
Import PyStrFacts.

(** Every pattern of the script is in the fragment that [Re.compile] parses. *)
Lemma patterns_compile :
  Forall (fun p => Re.compile p <> None)
    (map fst RefactorTypes.TYPE_MAPPINGS ++ RefactorTypes.SKIP_PATTERNS
     ++ RefactorTypes.declaration_patterns
     ++ ["^namespace\s+\w+\s*{"%string]).
Proof. repeat constructor; discriminate. Qed.

(** *** Substitution *)

Lemma splice_contains (s repl : str) (pos : nat) (ms : list Re.span) :
  ms <> [] -> contains repl (Re.splice s repl pos ms) = true.
Proof.
  destruct ms as [|[st en] ms]; [congruence|]. intros _. simpl.
  apply contains_self_app.
Qed.

(** A substitution returns its argument or a text that holds the
    replacement. *)
Lemma sub_same_or_contains (pattern : string) (repl s : str) :
  Re.sub pattern repl s = s \/ contains repl (Re.sub pattern repl s) = true.
Proof.
  unfold Re.sub. destruct (Re.finditer pattern s) as [|m ms] eqn:E.
  - left. reflexivity.
  - right. apply splice_contains. discriminate.
Qed.

Lemma splice_chars (s repl : str) (c : ascii) (ms : list Re.span) (pos : nat) :
  In c (Re.splice s repl pos ms) -> In c s \/ In c repl.
Proof.
  revert pos. induction ms as [|[st en] ms IH]; intros pos; simpl.
  - intros H. left. now apply in_skipn in H.
  - intros H. apply in_app_or in H. destruct H as [H|H].
    + left. unfold slice in H. apply in_firstn in H. now apply in_skipn in H.
    + apply in_app_or in H. destruct H as [H|H]; [now right | eauto].
Qed.

(** A substitution brings in no character from outside the text and the
    replacement. *)
Lemma sub_chars (pattern : string) (repl s : str) (c : ascii) :
  In c (Re.sub pattern repl s) -> In c s \/ In c repl.
Proof. apply splice_chars. Qed.

(** *** Literal patterns *)

Lemma flat_map_single {A B} (f : A -> list B) (x : A) :
  flat_map f [x] = f x.
Proof. simpl. apply app_nil_r. Qed.

Lemma ends_lit_seq (w : str) (t : Re.regex) (s : str) (i : nat) :
  Re.ends (Re.lit_seq w t) s i =
  if startswith w (skipn i s) then Re.ends t s (i + List.length w) else [].
Proof.
  revert i. induction w as [|c w IH]; intros i; simpl.
  - now rewrite Nat.add_0_r.
  - unfold Re.step_if, Re.char_at.
    destruct (skipn i s) as [|d r] eqn:E.
    + assert (nth_error s i = None) as ->; [|reflexivity].
      apply nth_error_None. apply (f_equal (@List.length ascii)) in E.
      rewrite length_skipn in E. simpl in E. lia.
    + assert (nth_error s i = Some d) as ->.
      { rewrite <- (firstn_skipn i s), E.
        assert (List.length (firstn i s) = i) as Hl.
        { apply firstn_length_le. apply (f_equal (@List.length ascii)) in E.
          rewrite length_skipn in E. simpl in E. lia. }
        rewrite nth_error_app2 by lia. now rewrite Hl, Nat.sub_diag. }
      destruct (Ascii.eqb c d) eqn:Ecd; simpl; [|reflexivity].
      rewrite app_nil_r, IH.
      assert (skipn (S i) s = r) as ->.
      { replace (S i) with (1 + i) by lia.
        rewrite <- skipn_skipn, E. reflexivity. }
      now rewrite Nat.add_succ_r.
Qed.

(** *** Searching *)

Lemma first_end_none (es : list nat) :
  Re.is_some (Re.first_end None es) = match es with [] => false | _ => true end.
Proof. destruct es; reflexivity. Qed.

Lemma scan_some (r : Re.regex) (s : str) (n pos : nat) :
  Re.is_some (Re.scan r s None n pos) = true <->
  exists i, pos <= i <= pos + n /\ Re.matches_at r s i = true.
Proof.
  revert pos. induction n as [|n IH]; intros pos; simpl.
  - unfold Re.matches_at. destruct (Re.ends r s pos) as [|e es] eqn:E; simpl.
    + split; [discriminate|]. intros [i [Hi Hm]].
      assert (i = pos) by lia. subst. now rewrite E in Hm.
    + split; [|reflexivity]. intros _. exists pos. rewrite E. split; [lia|easy].
  - unfold Re.matches_at at 1.
    destruct (Re.ends r s pos) as [|e es] eqn:E; simpl.
    + rewrite IH. split.
      * intros [i [Hi Hm]]. exists i. split; [lia | assumption].
      * intros [i [Hi Hm]]. exists i. split; [|assumption].
        destruct (Nat.eq_dec i pos) as [->|]; [|lia].
        unfold Re.matches_at in Hm. now rewrite E in Hm.
    + split; [|reflexivity]. intros _. exists pos.
      unfold Re.matches_at. rewrite E. split; [lia|easy].
Qed.

Lemma search_some (pattern : string) (s : str) :
  Re.is_some (Re.search pattern s) = true <->
  exists i, i <= List.length s /\ Re.matches_at (Re.re pattern) s i = true.
Proof.
  unfold Re.search, Re.search_from. simpl. rewrite Nat.sub_0_r, scan_some.
  split; intros [i [Hi Hm]]; exists i; (split; [lia | assumption]).
Qed.

Lemma contains_positions (p s : str) :
  contains p s = true <->
  exists i, i <= List.length s /\ startswith p (skipn i s) = true.
Proof.
  induction s as [|c s IH]; simpl.
  - rewrite orb_false_r. split.
    + intros H. exists 0. split; [lia | assumption].
    + intros [i [Hi H]]. now rewrite skipn_nil in H.
  - rewrite orb_true_iff, IH. split.
    + intros [H | [i [Hi H]]].
      * exists 0. split; [lia | assumption].
      * exists (S i). split; [lia | assumption].
    + intros [[|i] [Hi H]]; [now left | right].
      exists i. split; [lia | assumption].
Qed.

(** Searching for a literal is the substring test. *)
Lemma search_literal (pattern : string) (w : str) (s : str) :
  Re.re pattern = Re.lit_seq w Re.Empty ->
  Re.is_some (Re.search pattern s) = contains w s.
Proof.
  intros Hre. apply eq_true_iff_eq.
  rewrite search_some, contains_positions, Hre.
  split; intros [i [Hi H]]; exists i; (split; [assumption|]);
    unfold Re.matches_at in *; rewrite ends_lit_seq in *;
    destruct (startswith w (skipn i s)); easy.
Qed.

(** *** The fuel of the matcher and of [finditer] is enough *)

Lemma flat_map_nil_all {A B} (f : A -> list B) (l : list A) :
  (forall x, In x l -> f x = []) -> flat_map f l = [].
Proof.
  induction l as [|x l IH]; intros H; simpl; [reflexivity|].
  rewrite (H x (or_introl eq_refl)), IH; [reflexivity|].
  intros y Hy. apply H. now right.
Qed.

Lemma star_ends_range (s : str) (step : nat -> list nat) (fuel : nat) :
  Re.in_range s step -> Re.in_range s (Re.star_ends step fuel).
Proof.
  intros Hstep. induction fuel as [|f IH]; intros i j; simpl.
  - intros [<-|[]]. lia.
  - intros H. apply in_app_or in H. destruct H as [H|[<-|[]]]; [|lia].
    apply in_flat_map in H. destruct H as [k [Hk Hj]].
    destruct (i <? k) eqn:E; [|destruct Hj].
    apply Hstep in Hk. apply IH in Hj. lia.
Qed.

Lemma ends_range (r : Re.regex) (s : str) : Re.in_range s (Re.ends r s).
Proof.
  assert (Hstep : forall p, Re.in_range s (Re.step_if p s)).
  { intros p i j. unfold Re.step_if, Re.char_at.
    destruct (nth_error s i) as [c|] eqn:E; [|intros []].
    assert (i < List.length s) by (apply nth_error_Some; congruence).
    destruct (p c); [|intros []]. intros [<-|[]]. lia. }
  induction r as [| c | neg cs | | | | | a IHa b IHb | a IHa b IHb
                  | a IHa | a IHa | a IHa | ]; intros i j; cbn [Re.ends];
    try apply Hstep.
  - intros [<-|[]]. lia.
  - destruct (xorb _ _); [|intros []]. intros [<-|[]]. lia.
  - destruct (i =? 0); [|intros []]. intros [<-|[]]. lia.
  - intros H. apply in_flat_map in H. destruct H as [k [Hk Hj]].
    apply IHa in Hk. apply IHb in Hj. lia.
  - intros H. apply in_app_or in H. destruct H as [H|H]; [now apply IHa | now apply IHb].
  - now apply star_ends_range.
  - intros H. apply in_flat_map in H. destruct H as [k [Hk Hj]].
    apply IHa in Hk. apply (star_ends_range s _ _ IHa) in Hj. lia.
  - intros H. apply in_app_or in H. destruct H as [H|[<-|[]]]; [now apply IHa | lia].
  - intros [].
Qed.

(** More fuel than the length of the text changes nothing for a star. *)
Lemma star_ends_fuel (s : str) (step : nat -> list nat) (fuel fuel' i : nat) :
  Re.in_range s step ->
  List.length s - i <= fuel -> List.length s - i <= fuel' ->
  Re.star_ends step fuel i = Re.star_ends step fuel' i.
Proof.
  intros Hstep. revert fuel' i.
  assert (Hstop : forall f i, List.length s - i = 0 ->
                              Re.star_ends step f i = [i]).
  { intros f i Hi. destruct f as [|f]; [reflexivity|]. simpl.
    rewrite flat_map_nil_all; [reflexivity|].
    intros j Hj. apply Hstep in Hj.
    destruct (i <? j) eqn:E; [|reflexivity]. apply Nat.ltb_lt in E. lia. }
  induction fuel as [|f IH]; intros fuel' i Hf Hf'.
  - rewrite (Hstop fuel' i) by lia. reflexivity.
  - destruct fuel' as [|f']; [rewrite (Hstop (S f) i) by lia; reflexivity|].
    simpl. f_equal. apply flat_map_ext. intros j.
    destruct (i <? j) eqn:E; [|reflexivity]. apply Nat.ltb_lt in E.
    apply IH; lia.
Qed.

Lemma first_end_in (avoid : option nat) (es : list nat) (e : nat) :
  Re.first_end avoid es = Some e -> In e es /\ avoid <> Some e.
Proof.
  induction es as [|x es IH]; simpl; [discriminate|].
  destruct avoid as [p|].
  - destruct (x =? p) eqn:E.
    + intros H. apply IH in H. tauto.
    + intros H. injection H as <-. apply Nat.eqb_neq in E.
      split; [now left | congruence].
  - intros H. injection H as <-. split; [now left | discriminate].
Qed.

Lemma scan_range (r : Re.regex) (s : str) (n : nat) (avoid : option nat)
  (pos st en : nat) :
  Re.scan r s avoid n pos = Some (st, en) ->
  pos <= st <= pos + n /\ st <= en <= Nat.max st (List.length s) /\
  (st = pos -> avoid <> Some en).
Proof.
  revert avoid pos. induction n as [|n IH]; intros avoid pos; simpl;
    destruct (Re.first_end avoid (Re.ends r s pos)) as [e|] eqn:E.
  - intros H. injection H as <- <-. apply first_end_in in E.
    destruct E as [E Ha]. apply ends_range in E. repeat split; try lia. auto.
  - discriminate.
  - intros H. injection H as <- <-. apply first_end_in in E.
    destruct E as [E Ha]. apply ends_range in E. repeat split; try lia. auto.
  - intros H. apply IH in H. repeat split; try lia.
Qed.

Lemma search_from_range (r : Re.regex) (s : str) (avoid : option nat)
  (pos st en : nat) :
  Re.search_from r s avoid pos = Some (st, en) ->
  pos <= st /\ st <= en <= List.length s /\ (st = pos -> avoid <> Some en).
Proof.
  unfold Re.search_from. destruct (pos <=? List.length s) eqn:E; [|discriminate].
  apply Nat.leb_le in E. intros H. apply scan_range in H. repeat split; try lia.
  tauto.
Qed.

Lemma finditer_from_fuel (r : Re.regex) (s : str) (fuel fuel' : nat)
  (avoid : option nat) (pos : nat) :
  avoid = None \/ avoid = Some pos ->
  Re.to_come s avoid pos <= fuel -> Re.to_come s avoid pos <= fuel' ->
  Re.finditer_from r s fuel avoid pos = Re.finditer_from r s fuel' avoid pos.
Proof.
  assert (Hstop : forall f avoid pos, Re.to_come s avoid pos = 0 ->
                    Re.finditer_from r s f avoid pos = []).
  { intros f a p Hz. destruct f as [|f]; [reflexivity|]. simpl.
    destruct (Re.search_from r s a p) as [[st en]|] eqn:E; [|reflexivity].
    apply search_from_range in E. unfold Re.to_come in Hz.
    destruct a; lia. }
  revert fuel' avoid pos. induction fuel as [|f IH]; intros fuel' avoid pos Ha Hf Hf'.
  - rewrite (Hstop fuel' avoid pos) by lia. reflexivity.
  - destruct fuel' as [|f']; [rewrite (Hstop (S f) avoid pos) by lia; reflexivity|].
    simpl. destruct (Re.search_from r s avoid pos) as [[st en]|] eqn:E;
      [|reflexivity].
    f_equal. apply search_from_range in E. destruct E as [H1 [H2 H3]].
    assert (Re.to_come s (if st =? en then Some en else None) en
            < Re.to_come s avoid pos) as Hlt.
    { unfold Re.to_come. destruct (st =? en) eqn:Ese.
      - apply Nat.eqb_eq in Ese. subst en.
        destruct (Nat.eq_dec st pos) as [->|Hne].
        + destruct Ha as [->| ->]; [lia|]. now specialize (H3 eq_refl).
        + destruct avoid; lia.
      - apply Nat.eqb_neq in Ese. destruct avoid; lia. }
    apply IH; [|lia|lia].
    destruct (st =? en); [now right | now left].
Qed.

(** [finditer] has the fuel it needs: more gives the same matches. *)
Lemma finditer_enough_fuel (pattern : string) (s : str) (fuel : nat) :
  2 * List.length s + 2 <= fuel ->
  Re.finditer_from (Re.re pattern) s fuel None 0 = Re.finditer pattern s.
Proof.
  intros H. unfold Re.finditer.
  apply finditer_from_fuel; [now left | |]; unfold Re.to_come; lia.
Qed.

End ReFacts.

(** ** The line classifier *)

Module ClassifierFacts.
Import PyStrFacts ReFacts RefactorTypes.

Lemma literal_marker_re (m : string) :
  In m literal_markers -> Re.re m = Re.lit_seq (lit m) Re.Empty.
Proof.
  unfold literal_markers. simpl.
  intros H. repeat (destruct H as [<-|H]; [reflexivity|]). destruct H.
Qed.

Lemma literal_marker_pattern (m : string) :
  In m literal_markers -> In m SKIP_PATTERNS.
Proof.
  unfold literal_markers, SKIP_PATTERNS. simpl. intuition.
Qed.

Lemma star_ends_nonempty (step : nat -> list nat) (fuel i : nat) :
  Re.star_ends step fuel i <> [].
Proof.
  destruct fuel; simpl; [discriminate|].
  intros H. apply app_eq_nil in H. destruct H as [_ H]. discriminate.
Qed.

Lemma nth_error_skipn_0 (s : str) (i : nat) :
  nth_error (skipn i s) 0 = nth_error s i.
Proof.
  revert s. induction i as [|i IH]; intros s.
  - reflexivity.
  - destruct s as [|c s]; [reflexivity | apply IH].
Qed.

Lemma startswith_app (a b s : str) :
  startswith (a ++ b) s = startswith a s && startswith b (skipn (List.length a) s).
Proof.
  revert s. induction a as [|c a IH]; intros s; simpl; [reflexivity|].
  destruct s as [|d s]; [reflexivity|].
  rewrite IH. now rewrite andb_assoc.
Qed.

Lemma startswith_single (c : ascii) (s : str) :
  startswith [c] s = true <-> nth_error s 0 = Some c.
Proof.
  destruct s as [|d s]; simpl.
  - split; discriminate.
  - rewrite andb_true_r, Ascii.eqb_eq. split; congruence.
Qed.

(** [using\s+] matches at [i] exactly when [using] and then a whitespace
    character stand there. *)
Lemma using_matches_at (s : str) (i : nat) :
  Re.matches_at (Re.re "using\s+") s i = true <->
  exists c, is_space c = true /\ startswith (lit "using" ++ [c]) (skipn i s) = true.
Proof.
  change (Re.re "using\s+")
    with (Re.lit_seq (lit "using") (Re.Seq (Re.Plus Re.SpaceC) Re.Empty)).
  unfold Re.matches_at. rewrite ends_lit_seq.
  assert (Hsw : forall c,
    startswith (lit "using" ++ [c]) (skipn i s) = true <->
    startswith (lit "using") (skipn i s) = true /\ nth_error s (i + 5) = Some c).
  { intros c. rewrite startswith_app, andb_true_iff, startswith_single.
    rewrite skipn_skipn, nth_error_skipn_0.
    change (List.length (lit "using")) with 5. now rewrite (Nat.add_comm 5 i). }
  change (List.length (lit "using")) with 5.
  destruct (startswith (lit "using") (skipn i s)) eqn:E.
  - cbn [Re.ends]. unfold Re.step_if, Re.char_at.
    destruct (nth_error s (i + 5)) as [c|] eqn:En.
    + destruct (is_space c) eqn:Es.
      * rewrite flat_map_single.
        split; [intros _ | intros _].
        -- exists c. split; [assumption|]. apply Hsw. now split.
        -- destruct (Re.star_ends _ _ _) as [|n l] eqn:G;
             [now apply star_ends_nonempty in G | reflexivity].
      * simpl. split; [discriminate|]. intros [d [Hd H]].
        apply Hsw in H. destruct H as [_ H]. congruence.
    + simpl. split; [discriminate|]. intros [d [Hd H]].
      apply Hsw in H. destruct H as [_ H]. congruence.
  - split; [discriminate|]. intros [d [Hd H]].
    apply Hsw in H. destruct H as [H _]. congruence.
Qed.

Lemma using_search (line : str) :
  Re.is_some (Re.search "using\s+" line) = true <->
  exists c, is_space c = true /\ contains (lit "using" ++ [c]) line = true.
Proof.
  rewrite search_some. split.
  - intros [i [Hi H]]. apply using_matches_at in H. destruct H as [c [Hc H]].
    exists c. split; [assumption|]. apply contains_positions. eauto.
  - intros [c [Hc H]]. apply contains_positions in H. destruct H as [i [Hi H]].
    exists i. split; [assumption|]. apply using_matches_at. eauto.
Qed.

(** The classifier skips a line exactly when the line holds a marker. *)
Lemma should_skip_line_iff (line : str) :
  should_skip_line line = true <-> has_skip_marker line.
Proof.
  unfold should_skip_line, has_skip_marker. rewrite existsb_exists. split.
  - intros [p [Hp H]].
    assert (p = "using\s+"%string \/ In p literal_markers) as [->|Hin].
    { unfold SKIP_PATTERNS, literal_markers in *. simpl in *. intuition. }
    + right. now apply using_search.
    + left. exists p. split; [assumption|].
      now rewrite <- (search_literal p (lit p) line (literal_marker_re p Hin)).
  - intros [[m [Hin H]] | H].
    + exists m. split; [now apply literal_marker_pattern|].
      now rewrite (search_literal m (lit m) line (literal_marker_re m Hin)).
    + exists "using\s+"%string. split; [|now apply using_search].
      unfold SKIP_PATTERNS. simpl. intuition.
Qed.

(** A line that is not skipped holds no alias prefix. *)
Lemma not_skipped_no_alias (line : str) :
  should_skip_line line = false -> contains (lit "cforge_") line = false.
Proof.
  intros H. destruct (contains (lit "cforge_") line) eqn:E; [|reflexivity].
  assert (should_skip_line line = true); [|congruence].
  apply should_skip_line_iff. left. exists "cforge_"%string. split; [|assumption].
  unfold literal_markers. simpl. intuition.
Qed.

End ClassifierFacts.

(** ** [sorted(..., reverse=True)] *)

Module SortedFacts.
Import RefactorTypes.

Section Key.
Context {A : Type} (key : A -> nat).

Lemma insert_desc_perm (x : A) (l : list A) :
  Permutation (insert_desc key x l) (x :: l).
Proof.
  induction l as [|y l IH]; simpl; [reflexivity|].
  destruct (key x <? key y); [|reflexivity].
  rewrite IH. apply perm_swap.
Qed.

Lemma sorted_desc_perm (l : list A) : Permutation (sorted_desc key l) l.
Proof.
  induction l as [|x l IH]; simpl; [reflexivity|].
  rewrite insert_desc_perm. now constructor.
Qed.

Lemma insert_desc_sorted (x : A) (l : list A) :
  StronglySorted (desc key) l -> StronglySorted (desc key) (insert_desc key x l).
Proof.
  induction 1 as [|y l Hs IH Hall]; simpl.
  - repeat constructor.
  - destruct (key x <? key y) eqn:E.
    + apply Nat.ltb_lt in E. constructor; [assumption|].
      apply (Permutation_Forall (Permutation_sym (insert_desc_perm x l))).
      constructor; [unfold desc; lia | assumption].
    + apply Nat.ltb_ge in E. constructor.
      * now constructor.
      * constructor; [assumption|].
        eapply Forall_impl; [|exact Hall]. unfold desc. intros z Hz. lia.
Qed.

Lemma sorted_desc_sorted (l : list A) :
  StronglySorted (desc key) (sorted_desc key l).
Proof.
  induction l as [|x l IH]; simpl; [constructor|].
  now apply insert_desc_sorted.
Qed.

Lemma insert_desc_with_key (k : nat) (x : A) (l : list A) :
  with_key key k (insert_desc key x l) = with_key key k (x :: l).
Proof.
  unfold with_key. induction l as [|y l IH]; simpl; [reflexivity|].
  destruct (key x <? key y) eqn:E; [|reflexivity].
  apply Nat.ltb_lt in E. simpl. rewrite IH. simpl.
  destruct (key x =? k) eqn:Ex; [|reflexivity].
  apply Nat.eqb_eq in Ex.
  assert ((key y =? k) = false) as -> by (apply Nat.eqb_neq; lia).
  reflexivity.
Qed.

(** The sort is stable: items with equal keys keep their order. *)
Lemma sorted_desc_stable (k : nat) (l : list A) :
  with_key key k (sorted_desc key l) = with_key key k l.
Proof.
  induction l as [|x l IH]; simpl; [reflexivity|].
  rewrite insert_desc_with_key. unfold with_key in *. simpl.
  now rewrite IH.
Qed.
End Key.

End SortedFacts.

(** ** The rewrite engine *)

Module RewriteFacts.
Import PyStrFacts ReFacts ClassifierFacts RefactorTypes.

(** Every replacement is an alias token: it starts a [cforge_] name and
    holds no line break. *)
Lemma replacements_are_aliases :
  Forall (fun m => contains alias_prefix (lit (snd m)) = true /\ no_nl (lit (snd m)))
         sorted_mappings.
Proof.
  repeat constructor; try reflexivity;
    (intros H; simpl in H; repeat (destruct H as [H|H]; [discriminate H|]);
     exact H).
Qed.

(** *** The counter is threaded: a line adds its own count to the one it
    receives. *)

Lemma apply_mapping_shift (line : str) (c k : nat) (m : string * string) :
  apply_mapping (line, c + k) m =
  (fst (apply_mapping (line, k) m), c + snd (apply_mapping (line, k) m)).
Proof.
  unfold apply_mapping. destruct m as [pattern replacement].
  destruct (Re.is_some (Re.search pattern line)); [|reflexivity].
  destruct (contains (lit "std::") line); [reflexivity|].
  destruct (str_eqb line _); simpl; [reflexivity|].
  now rewrite Nat.add_succ_r.
Qed.

Lemma fold_mapping_shift (ms : list (string * string)) (line : str) (c k : nat) :
  fold_left apply_mapping ms (line, c + k) =
  (fst (fold_left apply_mapping ms (line, k)),
   c + snd (fold_left apply_mapping ms (line, k))).
Proof.
  revert line k. induction ms as [|m ms IH]; intros line k; cbn [fold_left];
    [reflexivity|].
  rewrite apply_mapping_shift.
  destruct (apply_mapping (line, k) m) as [line' k']. simpl. apply IH.
Qed.

Lemma replace_line_shift (line : str) (c : nat) :
  replace_line line c =
  (fst (replace_line line 0), c + snd (replace_line line 0)).
Proof.
  unfold replace_line. destruct (should_skip_line line).
  - simpl. now rewrite Nat.add_0_r.
  - rewrite <- (fold_mapping_shift sorted_mappings line c 0).
    now rewrite Nat.add_0_r.
Qed.

Lemma fold_replace_step (lines acc : list str) (c : nat) :
  fold_left replace_step lines (acc, c) =
  (acc ++ map new_line_of lines, c + list_sum (map changes_of lines)).
Proof.
  revert acc c. induction lines as [|l lines IH]; intros acc c;
    cbn [fold_left map list_sum fold_right replace_step].
  - now rewrite app_nil_r, Nat.add_0_r.
  - rewrite (replace_line_shift l c).
    rewrite IH. unfold new_line_of, changes_of.
    now rewrite <- app_assoc, Nat.add_assoc.
Qed.

Lemma replace_lines_map (lines : list str) :
  replace_lines lines = (map new_line_of lines, list_sum (map changes_of lines)).
Proof. unfold replace_lines. now rewrite fold_replace_step. Qed.

(** *** One count per application that altered the line *)

Lemma apply_mapping_count (line : str) (c : nat) (m : string * string) :
  apply_mapping (line, c) m =
  (fst (apply_mapping (line, 0) m),
   if str_eqb line (fst (apply_mapping (line, 0) m)) then c else S c).
Proof.
  unfold apply_mapping. destruct m as [pattern replacement].
  destruct (Re.is_some (Re.search pattern line));
    [|simpl; now rewrite str_eqb_refl].
  destruct (contains (lit "std::") line); [simpl; now rewrite str_eqb_refl|].
  destruct (str_eqb line (Re.sub pattern (lit replacement) line)) eqn:E;
    simpl; now rewrite E.
Qed.

Lemma last_default {A} (x : A) (l : list A) (d d' : A) :
  last (x :: l) d = last (x :: l) d'.
Proof.
  revert x. induction l as [|y l IH]; intros x; [reflexivity|].
  change (last (y :: l) d = last (y :: l) d'). apply IH.
Qed.

Lemma fold_mapping_count (ms : list (string * string)) (line : str) (c : nat) :
  fold_left apply_mapping ms (line, c) =
  (last (line_trace ms line) line, c + count_altered line (line_trace ms line)).
Proof.
  revert line c. induction ms as [|m ms IH]; intros line c.
  - simpl. now rewrite Nat.add_0_r.
  - cbn [fold_left line_trace count_altered]. rewrite apply_mapping_count, IH.
    set (next := fst (apply_mapping (line, 0) m)). f_equal.
    + destruct (line_trace ms next) as [|l t]; [reflexivity|].
      change (last (next :: l :: t) line) with (last (l :: t) line).
      apply last_default.
    + destruct (str_eqb line next); lia.
Qed.

(** *** A changed line holds an alias *)

Lemma contains_trans (a b c : str) :
  contains a b = true -> contains b c = true -> contains a c = true.
Proof.
  intros Hab Hbc. apply contains_spec in Hbc. destruct Hbc as [x [y ->]].
  now apply contains_app.
Qed.

Lemma apply_mapping_state (line0 : str) (c0 : nat) (st : str * nat)
  (m : string * string) :
  contains alias_prefix (lit (snd m)) = true ->
  line_state line0 c0 st -> line_state line0 c0 (apply_mapping st m).
Proof.
  intros Halias Hst. destruct st as [line c]. destruct m as [pattern replacement].
  unfold apply_mapping.
  destruct (Re.is_some (Re.search pattern line)); [|assumption].
  destruct (contains (lit "std::") line); [assumption|].
  destruct (str_eqb line (Re.sub pattern (lit replacement) line)) eqn:E.
  - apply str_eqb_eq in E. now rewrite <- E.
  - right. simpl. split.
    + destruct Hst as [[Hc _]|[Hc _]]; simpl in Hc; lia.
    + destruct (sub_same_or_contains pattern (lit replacement) line) as [H|H].
      * rewrite H, str_eqb_refl in E. discriminate.
      * exact (contains_trans _ _ _ Halias H).
Qed.

Lemma fold_mapping_state (ms : list (string * string)) (line0 : str) (c0 : nat)
  (st : str * nat) :
  Forall (fun m => contains alias_prefix (lit (snd m)) = true /\ no_nl (lit (snd m))) ms ->
  line_state line0 c0 st -> line_state line0 c0 (fold_left apply_mapping ms st).
Proof.
  intros Hall. revert st. induction Hall as [|m ms [Hm _] _ IH]; intros st Hst.
  - assumption.
  - cbn [fold_left]. apply IH. now apply apply_mapping_state.
Qed.

Lemma replace_line_state (line : str) :
  line_state line 0 (replace_line line 0).
Proof.
  unfold replace_line. destruct (should_skip_line line).
  - left. now split.
  - apply fold_mapping_state; [apply replacements_are_aliases|]. left. now split.
Qed.

Lemma alias_is_skipped (line : str) :
  contains alias_prefix line = true -> should_skip_line line = true.
Proof.
  intros H. apply should_skip_line_iff. left. exists "cforge_"%string.
  split; [|exact H]. unfold literal_markers. simpl. intuition.
Qed.

(** Rewriting a rewritten line changes nothing. *)
Lemma replace_line_fixed (line : str) :
  replace_line (new_line_of line) 0 = (new_line_of line, 0).
Proof.
  unfold new_line_of.
  destruct (replace_line_state line) as [[Hc Hl]|[_ Ha]].
  - rewrite Hl. rewrite (surjective_pairing (replace_line line 0)) at 1.
    now rewrite Hc, Hl.
  - unfold replace_line at 1. now rewrite (alias_is_skipped _ Ha).
Qed.

(** *** A rewritten line holds no line break *)

Lemma apply_mapping_no_nl (st : str * nat) (m : string * string) :
  no_nl (lit (snd m)) -> no_nl (fst st) -> no_nl (fst (apply_mapping st m)).
Proof.
  intros Hm Hst. destruct st as [line c]. destruct m as [pattern replacement].
  unfold apply_mapping.
  destruct (Re.is_some (Re.search pattern line)); [|assumption].
  destruct (contains (lit "std::") line); [assumption|].
  assert (no_nl (Re.sub pattern (lit replacement) line)) as Hsub.
  { intros H. apply sub_chars in H. destruct H as [H|H]; [now apply Hst | now apply Hm]. }
  destruct (str_eqb line _); exact Hsub.
Qed.

Lemma fold_mapping_no_nl (ms : list (string * string)) (st : str * nat) :
  Forall (fun m => contains alias_prefix (lit (snd m)) = true /\ no_nl (lit (snd m))) ms ->
  no_nl (fst st) -> no_nl (fst (fold_left apply_mapping ms st)).
Proof.
  intros Hall. revert st. induction Hall as [|m ms [_ Hm] _ IH]; intros st Hst.
  - assumption.
  - cbn [fold_left]. apply IH. now apply apply_mapping_no_nl.
Qed.

Lemma new_line_no_nl (line : str) : no_nl line -> no_nl (new_line_of line).
Proof.
  intros H. unfold new_line_of, replace_line. destruct (should_skip_line line).
  - exact H.
  - apply fold_mapping_no_nl; [apply replacements_are_aliases | exact H].
Qed.

(** *** The whole content *)

Lemma replace_types_eq (content : str) :
  replace_types content =
  (join_lines (map new_line_of (split_lines content)),
   list_sum (map changes_of (split_lines content))).
Proof. unfold replace_types. now rewrite replace_lines_map. Qed.

Lemma split_new_content (content : str) :
  split_lines (join_lines (map new_line_of (split_lines content))) =
  map new_line_of (split_lines content).
Proof.
  apply split_join.
  - intros H. apply map_eq_nil in H. now apply split_lines_nonempty in H.
  - apply Forall_map. eapply Forall_impl; [|apply split_lines_no_nl].
    intros l. apply new_line_no_nl.
Qed.

(** Rewriting a rewritten content changes nothing. *)
Lemma replace_types_fixed (content : str) :
  replace_types (fst (replace_types content)) = (fst (replace_types content), 0).
Proof.
  rewrite (replace_types_eq content). cbn [fst].
  rewrite replace_types_eq, split_new_content, !map_map. f_equal.
  - f_equal. apply map_ext. intros l.
    unfold new_line_of at 1. now rewrite replace_line_fixed.
  - induction (split_lines content) as [|l ls IH]; [reflexivity|].
    cbn [map list_sum fold_right]. unfold changes_of at 1.
    rewrite replace_line_fixed. exact IH.
Qed.

(** A line that was altered is skipped from then on. *)
Lemma altered_line_is_skipped (line : str) :
  0 < changes_of line -> should_skip_line (new_line_of line) = true.
Proof.
  intros Hpos. apply alias_is_skipped.
  destruct (replace_line_state line) as [[Hc _]|[_ Ha]]; [|exact Ha].
  unfold changes_of in Hpos. lia.
Qed.

End RewriteFacts.

(** ** The rewrite engine: the lines it leaves alone, the counter and the
    second run *)

Module RewriteEngine.
Import PyStrFacts ReFacts ClassifierFacts SortedFacts RewriteFacts RefactorTypes.
Local Open Scope string_scope.
Local Open Scope nat_scope.
Local Open Scope list_scope.

(** C1.  The line [template<int N> struct Foo;] holds no skip marker, and
    [find_bare_types] reports no occurrence on it, its one match of [int]
    lying behind an unclosed [<]; but [replace_types_in_file] does not
    consult that filter: it rewrites the line to
    [template<cforge_int_t N> struct Foo;] and counts one change. *)
Theorem template_parameter_is_rewritten :
  let line := lit "template<int N> struct Foo;" in
  should_skip_line line = false /\
  Re.finditer "\bint\b" line = [(9, 12)] /\
  template_guard (text_before line (9, 12)) = true /\
  find_bare_types line = [] /\
  replace_line line 0 = (lit "template<cforge_int_t N> struct Foo;", 1) /\
  replace_types line = (lit "template<cforge_int_t N> struct Foo;", 1).
Proof. vm_compute. repeat split. Qed.

(** C3.  A line that holds a skip marker is copied as it is and adds
    nothing to the counter, whatever else stands on it: for the line alone,
    and at its place among the lines of a file. *)
Theorem marked_line_is_copied (line : str) (H : has_skip_marker line) :
  (forall changes, replace_line line changes = (line, changes)) /\
  (forall above below,
     replace_lines (above ++ line :: below) =
     (map new_line_of above ++ line :: map new_line_of below,
      list_sum (map changes_of above) + list_sum (map changes_of below))).
Proof.
  apply should_skip_line_iff in H.
  assert (forall changes, replace_line line changes = (line, changes)) as Hline.
  { intros changes. unfold replace_line. now rewrite H. }
  split; [exact Hline|]. intros above below.
  assert (new_line_of line = line) as Hn by (unfold new_line_of; now rewrite Hline).
  assert (changes_of line = 0) as Hc by (unfold changes_of; now rewrite Hline).
  rewrite replace_lines_map, !map_app, list_sum_app.
  cbn [map list_sum fold_right]. now rewrite Hn, Hc.
Qed.

Lemma marked_line_is_copied_witness :
  let line := lit "typedef unsigned int uint; // size_t" in
  has_skip_marker line /\
  replace_line line 7 = (line, 7) /\
  replace_lines [lit "int a;"; line; lit "float b;"] =
  ([lit "cforge_int_t a;"; line; lit "cforge_float_t b;"], 2).
Proof.
  assert (has_skip_marker (lit "typedef unsigned int uint; // size_t")) as H.
  { left. exists "typedef". split; [simpl; tauto | reflexivity]. }
  split; [exact H|]. split.
  - apply (marked_line_is_copied _ H).
  - apply (proj2 (marked_line_is_copied _ H) [lit "int a;"] [lit "float b;"]).
Defined.

(** C5.  The counter of a line goes up by one for each mapping whose
    application altered the line, however many occurrences that application
    replaced: [int a; int b;] holds two occurrences of [int] and counts
    one; [unsigned char buf[size_t(10)];] has both [unsigned char] and
    [size_t] replaced and counts two. *)
Theorem one_count_per_altering_pattern :
  (forall line changes,
     snd (replace_line line changes) =
     changes + (if should_skip_line line then 0
                else count_altered line (line_trace sorted_mappings line))) /\
  (let line := lit "unsigned char buf[size_t(10)];" in
   should_skip_line line = false /\
   forall changes,
     replace_line line changes
     = (lit "cforge_byte_t buf[cforge_size_t(10)];", changes + 2)) /\
  (let line := lit "int a; int b;" in
   List.length (Re.finditer "\bint\b" line) = 2 /\
   forall changes,
     replace_line line changes
     = (lit "cforge_int_t a; cforge_int_t b;", changes + 1)).
Proof.
  split; [|split].
  - intros line changes. unfold replace_line.
    destruct (should_skip_line line); [cbn [snd]; lia|].
    rewrite fold_mapping_count. reflexivity.
  - split; [vm_compute; reflexivity|]. intros changes.
    rewrite replace_line_shift.
    assert (replace_line (lit "unsigned char buf[size_t(10)];") 0
            = (lit "cforge_byte_t buf[cforge_size_t(10)];", 2)) as ->
      by (vm_compute; reflexivity).
    reflexivity.
  - split; [vm_compute; reflexivity|]. intros changes.
    rewrite replace_line_shift.
    assert (replace_line (lit "int a; int b;") 0
            = (lit "cforge_int_t a; cforge_int_t b;", 1)) as ->
      by (vm_compute; reflexivity).
    reflexivity.
Qed.

End RewriteEngine.

(** ** The context filter of [find_bare_types] *)

Module ContextFilter.
Import PyStrFacts ReFacts ClassifierFacts RefactorTypes.
Local Open Scope string_scope.
Local Open Scope nat_scope.
Local Open Scope list_scope.

Lemma contains_char_cons (c d : ascii) (s : str) :
  contains [c] (d :: s) = Ascii.eqb c d || contains [c] s.
Proof. simpl. now rewrite andb_true_r. Qed.

Lemma fold_angle (before : str) (open : bool) :
  contains (lit ">") before = false ->
  fold_left
    (fun open c =>
       if Ascii.eqb c "<" then true
       else if Ascii.eqb c ">" then false
       else open)
    before open
  = open || contains (lit "<") before.
Proof.
  change (lit ">") with [">"%char]. change (lit "<") with ["<"%char].
  revert open. induction before as [|c s IH]; intros open H.
  - simpl. now rewrite orb_false_r.
  - rewrite contains_char_cons in H. apply orb_false_iff in H.
    destruct H as [Hc Hs]. rewrite Ascii.eqb_sym in Hc.
    cbn [fold_left]. rewrite contains_char_cons, Hc, (IH _ Hs).
    rewrite (Ascii.eqb_sym "<" c).
    destruct (Ascii.eqb c "<"); simpl; [now rewrite orb_true_r | reflexivity].
Qed.

(** [unclosed_angle] says what its name says: some [<] of the text has no
    [>] after it. *)
Lemma unclosed_angle_spec (before : str) :
  unclosed_angle before = true <->
  exists a b, before = a ++ "<"%char :: b /\ ~ In ">"%char b.
Proof.
  unfold unclosed_angle. induction before as [|c s IH] using rev_ind.
  - simpl. split; [discriminate|]. intros [a [b [H _]]]. now destruct a.
  - rewrite fold_left_app. cbn [fold_left].
    destruct (Ascii.eqb c "<") eqn:Elt.
    + apply Ascii.eqb_eq in Elt. subst c. split; [|reflexivity].
      intros _. exists s, []. split; [reflexivity | intros []].
    + destruct (Ascii.eqb c ">") eqn:Egt.
      * apply Ascii.eqb_eq in Egt. subst c. split; [discriminate|].
        intros [a [b [H Hb]]]. exfalso.
        destruct b as [|d b] using rev_ind.
        -- apply app_inj_tail in H. destruct H as [_ H]. discriminate.
        -- rewrite app_comm_cons, app_assoc in H. apply app_inj_tail in H.
           destruct H as [_ Hd]. subst d. apply Hb. apply in_or_app. right.
           now left.
      * rewrite IH. split.
        -- intros [a [b [-> Hb]]]. exists a, (b ++ [c]).
           split; [now rewrite <- app_assoc|].
           intros Hin. apply in_app_or in Hin. destruct Hin as [Hin|[->|[]]];
             [now apply Hb | now rewrite Ascii.eqb_refl in Egt].
        -- intros [a [b [H Hb]]].
           destruct b as [|d b _] using rev_ind.
           ++ apply app_inj_tail in H. destruct H as [_ ->].
              now rewrite Ascii.eqb_refl in Elt.
           ++ rewrite app_comm_cons, app_assoc in H. apply app_inj_tail in H.
              destruct H as [-> _]. exists a, b. split; [reflexivity|].
              intros Hin. apply Hb. apply in_or_app. now left.
Qed.

(** Where the text holds no [>], the guard of the code and the guard of the
    specification agree. *)
Lemma template_guard_unclosed (before : str) :
  contains (lit ">") before = false ->
  template_guard before = unclosed_angle before.
Proof.
  intros H. unfold template_guard, unclosed_angle.
  rewrite (fold_angle before false H), H. simpl. apply andb_true_r.
Qed.

(** Where the text holds a [>], the template guard lets the match pass. *)
Lemma template_guard_closed (before : str) :
  contains (lit ">") before = true -> template_guard before = false.
Proof. intros H. unfold template_guard. rewrite H. apply andb_false_r. Qed.

(** C2, as the code has it.  A match whose preceding text holds a [<] with
    no [>] after it, and no [>] before that [<] either, is rejected: it
    adds nothing to the results. *)
Theorem unclosed_template_is_rejected (line_num : nat) (line : str)
  (replacement : string) (m : Re.span)
  (Hopen : unclosed_angle (text_before line m) = true)
  (Hnone : contains (lit ">") (text_before line m) = false) :
  context_accepts (text_before line m) = false /\
  filter_match line_num line replacement m = [].
Proof.
  assert (context_accepts (text_before line m) = false) as H.
  { unfold context_accepts.
    now rewrite (template_guard_unclosed _ Hnone), Hopen. }
  split; [exact H|]. unfold filter_match. now rewrite H.
Qed.

Lemma unclosed_template_is_rejected_witness :
  let line := lit "template<int N> struct Foo;" in
  In (9, 12) (Re.finditer "\bint\b" line) /\
  context_accepts (text_before line (9, 12)) = false /\
  filter_match 1 line "cforge_int_t" (9, 12) = [].
Proof.
  split; [vm_compute; tauto|].
  apply (unclosed_template_is_rejected 1 (lit "template<int N> struct Foo;")
           "cforge_int_t" (9, 12)); reflexivity.
Defined.

(** C2, as the specification states it, fails: in [vector<A> a; map<int, B> m;] the
    match of [int] at 17 lies behind the [<] at 16, which no [>] follows, yet
    it is accepted and reported, because a [>] stands earlier in the line. *)
Lemma earlier_close_hides_open_template :
  let line := lit "vector<A> a; map<int, B> m;" in
  let m := (17, 20) in
  should_skip_line line = false /\
  Re.finditer "\bint\b" line = [m] /\
  nth_error line 16 = Some "<"%char /\
  unclosed_angle (text_before line m) = true /\
  contains (lit ">") (text_before line m) = true /\
  context_accepts (text_before line m) = true /\
  find_bare_types line = [(1, lit "int", "cforge_int_t")].
Proof. vm_compute. repeat split. Qed.

(** C10.  A line that the classifier lets through holds no [cforge_], so
    neither does any text before a match on it: the already-aliased guard
    never rejects, and the filter decides by the template guard alone. *)
Theorem aliased_guard_never_fires (line : str)
  (H : should_skip_line line = false) :
  contains alias_prefix line = false /\
  forall m : Re.span,
    aliased_guard (text_before line m) = false /\
    context_accepts (text_before line m)
    = negb (template_guard (text_before line m)).
Proof.
  pose proof (not_skipped_no_alias line H) as Hno.
  split; [exact Hno|]. intros m.
  assert (aliased_guard (text_before line m) = false) as Hg.
  { unfold aliased_guard, text_before.
    apply contains_false_last_n. now apply contains_false_firstn. }
  split; [exact Hg|]. unfold context_accepts. rewrite Hg.
  now destruct (template_guard (text_before line m)).
Qed.

Lemma aliased_guard_never_fires_witness :
  let line := lit "unsigned int count = 0;" in
  contains alias_prefix line = false /\
  aliased_guard (text_before line (0, 12)) = false.
Proof.
  assert (should_skip_line (lit "unsigned int count = 0;") = false) as H
    by reflexivity.
  split.
  - apply (aliased_guard_never_fires _ H).
  - apply (proj2 (aliased_guard_never_fires _ H) (0, 12)).
Defined.

End ContextFilter.

(** ** The declaration scanner *)

Module DeclarationScanner.
Import PyStrFacts ReFacts RefactorTypes.
Local Open Scope string_scope.
Local Open Scope nat_scope.
Local Open Scope list_scope.

Lemma check_declaration_excluded (patterns : list string) (line_num : nat)
  (stripped : str) :
  opens_body stripped = true ->
  check_declaration patterns line_num stripped = None.
Proof.
  intros H. induction patterns as [|p ps IH]; simpl; [reflexivity|].
  rewrite H. now destruct (Re.is_some (Re.match_ p stripped)).
Qed.

Lemma check_declaration_reported (patterns : list string) (line_num : nat)
  (stripped : str) :
  opens_body stripped = false ->
  existsb (fun p => Re.is_some (Re.match_ p stripped)) patterns = true ->
  check_declaration patterns line_num stripped
  = Some (line_num, firstn 80 stripped).
Proof.
  intros H. induction patterns as [|p ps IH]; simpl; [discriminate|].
  rewrite H. destruct (Re.is_some (Re.match_ p stripped)); simpl; auto.
Qed.

Lemma track_namespace_results (stripped : str) (st : scan_state) :
  results (track_namespace stripped st) = results st.
Proof.
  unfold track_namespace.
  destruct (Re.is_some (Re.match_ _ stripped));
    destruct (str_eqb stripped (lit "}")); simpl;
    try reflexivity; now destruct (in_namespace st).
Qed.

Lemma scan_line_results (st : scan_state) (numbered : nat * str) :
  results (scan_line st numbered) = results st ++ entries_of numbered.
Proof.
  destruct numbered as [line_num line]. unfold scan_line, entries_of.
  cbn [fst snd].
  destruct (check_declaration declaration_patterns line_num (strip line));
    cbn [results]; rewrite track_namespace_results;
    [reflexivity | now rewrite app_nil_r].
Qed.

Lemma fold_scan_results (ls : list (nat * str)) (st : scan_state) :
  results (fold_left scan_line ls st) = results st ++ flat_map entries_of ls.
Proof.
  revert st. induction ls as [|l ls IH]; intros st; cbn [fold_left flat_map].
  - now rewrite app_nil_r.
  - now rewrite IH, scan_line_results, <- app_assoc.
Qed.

Lemma check_declaration_some (patterns : list string) (line_num : nat)
  (stripped : str) (entry : nat * str) :
  check_declaration patterns line_num stripped = Some entry ->
  entry = (line_num, firstn 80 stripped) /\ opens_body stripped = false /\
  existsb (fun p => Re.is_some (Re.match_ p stripped)) patterns = true.
Proof.
  induction patterns as [|p ps IH]; simpl; [discriminate|].
  destruct (Re.is_some (Re.match_ p stripped)); simpl.
  - destruct (opens_body stripped) eqn:E.
    + intros H. now rewrite (check_declaration_excluded ps line_num stripped E) in H.
    + intros H. injection H as <-. now repeat split.
  - exact IH.
Qed.

Lemma in_enumerate {A} (ls : list A) (start n : nat) (x : A) :
  In (n, x) (enumerate start ls) ->
  start <= n /\ nth_error ls (n - start) = Some x.
Proof.
  revert start. induction ls as [|y ls IH]; intros start; simpl; [tauto|].
  intros [H|H].
  - injection H as -> ->. split; [lia|]. now rewrite Nat.sub_diag.
  - apply IH in H. destruct H as [Hle Hn]. split; [lia|].
    replace (n - start) with (S (n - S start)) by lia. exact Hn.
Qed.

(** C7, as the code has it.  A line whose stripped text opens a [{] and
    does not close it with a [}] adds no declaration; a line that matches a
    declaration pattern and holds a [}] (so also one that both opens and
    closes a brace) is reported, with its number and its first 80
    characters.  Over a whole content, every reported entry comes from a
    line that matches a pattern and does not open a brace without closing
    it. *)
Theorem open_body_line_is_excluded (st : scan_state) (line_num : nat)
  (line : str) :
  let stripped := strip line in
  (contains (lit "{") stripped = true ->
   contains (lit "}") stripped = false ->
   results (scan_line st (line_num, line)) = results st) /\
  (existsb (fun p => Re.is_some (Re.match_ p stripped)) declaration_patterns
   = true ->
   contains (lit "}") stripped = true ->
   results (scan_line st (line_num, line))
   = results st ++ [(line_num, firstn 80 stripped)]) /\
  (forall content text,
     In (line_num, text) (find_declarations_in_source content) ->
     exists source,
       nth_error (split_lines content) (line_num - 1) = Some source /\
       text = firstn 80 (strip source) /\
       opens_body (strip source) = false /\
       existsb (fun p => Re.is_some (Re.match_ p (strip source)))
               declaration_patterns = true).
Proof.
  intros stripped. split; [|split].
  - intros Ho Hc. rewrite scan_line_results. unfold entries_of. cbn [fst snd].
    rewrite check_declaration_excluded; [apply app_nil_r|].
    unfold opens_body. fold stripped. now rewrite Ho, Hc.
  - intros Hm Hc. rewrite scan_line_results. unfold entries_of. cbn [fst snd].
    rewrite check_declaration_reported; [reflexivity | | exact Hm].
    unfold opens_body. fold stripped. rewrite Hc. apply andb_false_r.
  - intros content text Hin. unfold find_declarations_in_source in Hin.
    rewrite fold_scan_results in Hin. cbn [results app] in Hin.
    apply in_flat_map in Hin. destruct Hin as [[n source] [Hnum Hent]].
    unfold entries_of in Hent. cbn [fst snd] in Hent.
    destruct (check_declaration declaration_patterns n (strip source))
      as [entry|] eqn:E; [|destruct Hent].
    destruct Hent as [->|[]].
    apply check_declaration_some in E. destruct E as [Heq [Ho Hm]].
    injection Heq as <- ->.
    apply in_enumerate in Hnum. destruct Hnum as [_ Hnth].
    exists source. now repeat split.
Qed.

Lemma open_body_line_is_excluded_witness :
  let st := {| results := [(1, lit "struct S;")]; in_namespace := false;
               namespace_depth := 0%Z |} in
  results (scan_line st (2, lit "class Bar {")) = [(1, lit "struct S;")] /\
  results (scan_line st (2, lit "  enum Color { Red, Green };"))
  = [(1, lit "struct S;"); (2, lit "enum Color { Red, Green };")].
Proof.
  split.
  - apply (proj1 (open_body_line_is_excluded
             {| results := [(1, lit "struct S;")]; in_namespace := false;
                namespace_depth := 0%Z |} 2 (lit "class Bar {")));
      reflexivity.
  - apply (proj2 (open_body_line_is_excluded
             {| results := [(1, lit "struct S;")]; in_namespace := false;
                namespace_depth := 0%Z |} 2
             (lit "  enum Color { Red, Green };"))); reflexivity.
Defined.

(** C7, as the specification states it, fails: [class Foo {};] matches the class
    pattern, opens a [{] and closes a [}] on the same line, and is reported. *)
Lemma one_line_body_is_reported :
  let line := lit "class Foo {};" in
  strip line = line /\
  Re.is_some (Re.match_ "^class\s+\w+\s*[{;]" line) = true /\
  contains (lit "{") line = true /\
  contains (lit "}") line = true /\
  find_declarations_in_source line = [(1, line)].
Proof. vm_compute. repeat split. Qed.

End DeclarationScanner.

(** ** Files: what is written, and what an unreadable file does *)

Module Files.
Import PyStrFacts RewriteFacts RefactorTypes.
Local Open Scope string_scope.
Local Open Scope nat_scope.
Local Open Scope list_scope.

Lemma writes_app (a b : list event) : writes (a ++ b) = writes a ++ writes b.
Proof. apply flat_map_app. Qed.

Lemma writes_print (text : str) (w : World) :
  writes (log (print text w)) = writes (log w).
Proof. unfold print. cbn [log]. rewrite writes_app. apply app_nil_r. Qed.

Lemma path_eqb_refl (p : Path) : path_eqb p p = true.
Proof. unfold path_eqb. now destruct (list_eq_dec string_dec p p). Qed.

Lemma path_eqb_neq (p q : Path) : q <> p -> path_eqb q p = false.
Proof. intros H. unfold path_eqb. now destruct (list_eq_dec string_dec q p). Qed.

(** A dry run of one file, and a run that counts nothing, leave the disk
    and the list of writes as they were. *)
Lemma no_write (filepath : Path) (dry_run : bool) (w : World) :
  dry_run = true \/ fst (replace_types_in_file filepath dry_run w) = 0 ->
  writes (log (snd (replace_types_in_file filepath dry_run w))) = writes (log w)
  /\ forall q, disk (snd (replace_types_in_file filepath dry_run w)) q = disk w q.
Proof.
  unfold replace_types_in_file. destruct (disk w filepath) as [content|cause].
  - destruct (replace_types content) as [new_content changes].
    destruct (0 <? changes) eqn:E.
    + intros [-> | H].
      * cbn [fst snd]. now rewrite writes_print.
      * cbn [fst] in H. apply Nat.ltb_lt in E. lia.
    + intros _. now split.
  - intros _. cbn [snd]. now rewrite writes_print.
Qed.

Lemma dry_run_files (files : list Path) (total : nat) (w : World) :
  writes (log (snd (fold_left (process_file true) files (total, w))))
  = writes (log w)
  /\ forall q, disk (snd (fold_left (process_file true) files (total, w))) q
               = disk w q.
Proof.
  revert total w. induction files as [|p files IH]; intros total w.
  - now split.
  - cbn [fold_left]. unfold process_file at 2 4.
    destruct (should_skip_file p); [apply IH|].
    destruct (no_write p true w (or_introl eq_refl)) as [Hw Hd].
    destruct (replace_types_in_file p true w) as [changes w1]. cbn [snd] in *.
    destruct (IH (total + changes) w1) as [Hw' Hd'].
    split; [congruence|]. intros q. now rewrite Hd', Hd.
Qed.

(** C8.  [replace_types_in_file] writes the file exactly when it is not a
    dry run and the count is positive, and then it writes the new content
    to that file only; a dry run, of one file or of the whole list, and a
    run that counts nothing write nothing and leave every file as it was. *)
Theorem file_written_only_when_changed (filepath : Path) (dry_run : bool)
  (w : World) :
  let changes := fst (replace_types_in_file filepath dry_run w) in
  let w' := snd (replace_types_in_file filepath dry_run w) in
  (dry_run = true \/ changes = 0 ->
   writes (log w') = writes (log w) /\ forall q, disk w' q = disk w q) /\
  (dry_run = false -> 0 < changes ->
   exists content,
     disk w filepath = Text content /\
     changes = snd (replace_types content) /\
     writes (log w') = writes (log w) ++ [(filepath, fst (replace_types content))] /\
     disk w' filepath = Text (fst (replace_types content)) /\
     forall q, q <> filepath -> disk w' q = disk w q) /\
  (forall files,
     writes (log (main_replace_types files true w)) = writes (log w) /\
     forall q, disk (main_replace_types files true w) q = disk w q).
Proof.
  intros changes w'. split; [|split].
  - apply no_write.
  - subst changes w'. intros -> Hpos. unfold replace_types_in_file in *.
    destruct (disk w filepath) as [content|cause] eqn:Ed.
    + exists content. split; [reflexivity|].
      destruct (replace_types content) as [new_content n].
      destruct (0 <? n) eqn:E.
      * cbn [fst snd]. rewrite writes_print. unfold print, write_text.
        cbn [log disk]. rewrite writes_app, path_eqb_refl. repeat split.
        intros q Hq. now rewrite (path_eqb_neq _ _ Hq).
      * cbn [fst] in Hpos. apply Nat.ltb_ge in E. lia.
    + cbn [fst] in Hpos. lia.
  - intros files. unfold main_replace_types.
    pose proof (dry_run_files files 0 w) as [Hw Hd].
    destruct (fold_left (process_file true) files (0, w)) as [total w1].
    cbn [snd] in *. rewrite writes_print. now split.
Qed.

Lemma file_written_only_when_changed_witness :
  let p := ["/"; "src"; "a.cpp"] in
  let missing := Unreadable (lit "[Errno 2] No such file or directory") in
  let w0 := {| disk := fun q => if path_eqb q p
                               then Text (lit "std::vector<int> v;")
                               else missing;
               log := [] |} in
  let w1 := {| disk := fun q => if path_eqb q p then Text (lit "int x;")
                               else missing;
               log := [] |} in
  (writes (log (snd (replace_types_in_file p false w0))) = [] /\
   disk (snd (replace_types_in_file p false w0)) p
   = Text (lit "std::vector<int> v;")) /\
  (writes (log (snd (replace_types_in_file p false w1)))
   = [(p, lit "cforge_int_t x;")] /\
   writes (log (snd (replace_types_in_file p true w1))) = []).
Proof.
  intros p missing w0 w1.
  assert (fst (replace_types_in_file p false w0) = 0) as E0
    by (vm_compute; reflexivity).
  assert (0 < fst (replace_types_in_file p false w1)) as E1
    by (vm_compute; lia).
  split; [|split].
  - destruct (proj1 (file_written_only_when_changed p false w0) (or_intror E0))
      as [Hw Hd].
    split; [exact Hw | exact (Hd p)].
  - destruct (proj1 (proj2 (file_written_only_when_changed p false w1))
                eq_refl E1) as [content [Hd [_ [Hw _]]]].
    vm_compute in Hd. injection Hd as <-. exact Hw.
  - exact (proj1 (proj1 (file_written_only_when_changed p true w1)
                    (or_introl eq_refl))).
Defined.

(** C9.  When reading the file fails, [replace_types_in_file] prints the
    path and the cause, returns zero and touches no file; the loop of
    [main] goes on with the files that follow, its total unchanged. *)
Theorem read_failure_is_local (filepath : Path) (dry_run : bool) (w : World)
  (cause : str) (H : disk w filepath = Unreadable cause) :
  let w' := print (lit "Error reading " ++ path_str filepath ++ lit ": " ++ cause) w in
  replace_types_in_file filepath dry_run w = (0, w') /\
  log w' = log w ++ [Print (lit "Error reading " ++ path_str filepath
                            ++ lit ": " ++ cause)] /\
  (forall q, disk w' q = disk w q) /\
  (should_skip_file filepath = false ->
   forall files,
     (forall total,
        fold_left (process_file dry_run) (filepath :: files) (total, w)
        = fold_left (process_file dry_run) files (total, w')) /\
     main_replace_types (filepath :: files) dry_run w
     = main_replace_types files dry_run w').
Proof.
  intros w'.
  assert (replace_types_in_file filepath dry_run w = (0, w')) as Hr.
  { unfold replace_types_in_file. now rewrite H. }
  split; [exact Hr|]. split; [reflexivity|]. split; [reflexivity|].
  intros Hskip files.
  assert (forall total,
            fold_left (process_file dry_run) (filepath :: files) (total, w)
            = fold_left (process_file dry_run) files (total, w')) as Hfold.
  { intros total. cbn [fold_left]. unfold process_file at 2.
    now rewrite Hskip, Hr, Nat.add_0_r. }
  split; [exact Hfold|].
  unfold main_replace_types. now rewrite Hfold.
Qed.

Lemma read_failure_is_local_witness :
  let p := ["/"; "src"; "a.cpp"] in
  let w := {| disk := fun _ => Unreadable (lit "[Errno 13] Permission denied");
              log := [] |} in
  replace_types_in_file p false w
  = (0, print (lit "Error reading /src/a.cpp: [Errno 13] Permission denied") w).
Proof.
  intros p w.
  exact (proj1 (read_failure_is_local p false w
                  (lit "[Errno 13] Permission denied") eq_refl)).
Defined.

(** C6.  Rewriting a content that the rewrite produced changes nothing: the
    count is zero and the content is the same, every line that the first
    run altered holding an alias token and being skipped by the second.  So
    a second run on a file that a first run has rewritten returns zero and
    does nothing. *)
Theorem rewrite_is_idempotent (content : str) :
  replace_types (fst (replace_types content)) = (fst (replace_types content), 0) /\
  (forall line, 0 < changes_of line -> should_skip_line (new_line_of line) = true) /\
  (forall filepath w,
     disk w filepath = Text content ->
     let w1 := snd (replace_types_in_file filepath false w) in
     replace_types_in_file filepath false w1 = (0, w1)).
Proof.
  split; [apply replace_types_fixed|]. split; [apply altered_line_is_skipped|].
  intros filepath w Hd. pose proof (replace_types_fixed content) as Hfix.
  remember (replace_types_in_file filepath false w) as first_run eqn:Hrun.
  unfold replace_types_in_file in Hrun. rewrite Hd in Hrun.
  destruct (replace_types content) as [new_content n] eqn:E. cbn [fst] in Hfix.
  destruct (0 <? n) eqn:En; subst first_run; cbv zeta; cbn [snd].
  - unfold replace_types_in_file, print, write_text. cbn [disk].
    now rewrite path_eqb_refl, Hfix.
  - apply Nat.ltb_ge in En. assert (n = 0) as -> by lia.
    unfold replace_types_in_file. now rewrite Hd, E.
Qed.

End Files.

(** ** The matches of the type patterns *)

Module MatchFacts.
Import PyStrFacts ReFacts ClassifierFacts RefactorTypes.
Local Open Scope string_scope.
Local Open Scope nat_scope.
Local Open Scope list_scope.

(** A key of [TYPE_MAPPINGS] compiles to a boundary, its spelling and a
    boundary; the spelling begins and ends with a word character. *)
Lemma type_pattern_shape (pattern replacement : string) :
  In (pattern, replacement) TYPE_MAPPINGS ->
  Re.re pattern
  = Re.Seq Re.Boundary (Re.lit_seq (spelling pattern) (Re.Seq Re.Boundary Re.Empty))
  /\ (exists c w, spelling pattern = c :: w /\ is_word c = true)
  /\ (exists w c, spelling pattern = w ++ [c] /\ is_word c = true).
Proof.
  unfold TYPE_MAPPINGS. simpl. intros H.
  repeat (destruct H as [H|H];
          [injection H as <- <-; split; [reflexivity|]; split;
           [eexists _, _; split; [vm_compute; reflexivity | reflexivity]
           | match goal with
             | |- exists w c, spelling ?p = _ /\ _ =>
                 exists (removelast (spelling p)), (last (spelling p) " "%char);
                 split; vm_compute; reflexivity
             end]|]).
  destruct H.
Qed.

Lemma startswith_nth (w s : str) (i k : nat) :
  startswith w (skipn i s) = true -> k < List.length w ->
  nth_error s (i + k) = nth_error w k.
Proof.
  intros H Hk. apply startswith_spec in H. destruct H as [b H].
  rewrite <- nth_error_skipn, H. now apply nth_error_app1.
Qed.

Lemma startswith_length (w s : str) (i : nat) :
  w <> [] ->
  startswith w (skipn i s) = true -> i + List.length w <= List.length s.
Proof.
  intros Hw H. apply startswith_spec in H. destruct H as [b H].
  apply (f_equal (@List.length ascii)) in H.
  rewrite length_skipn, length_app in H.
  destruct w as [|c w]; [congruence|]. simpl in *. lia.
Qed.

Lemma startswith_slice (w s : str) (i : nat) :
  startswith w (skipn i s) = true -> slice s i (i + List.length w) = w.
Proof.
  intros H. apply startswith_spec in H. destruct H as [b H].
  unfold slice. replace (i + List.length w - i) with (List.length w) by lia.
  rewrite H. rewrite firstn_app, Nat.sub_diag, firstn_all. simpl.
  apply app_nil_r.
Qed.

(** Where a whole-word pattern matches: the spelling stands at [i], no word
    character stands before it and none after it. *)
Lemma ends_word_pattern (w : str) (s : str) (i j : nat) :
  (exists c w', w = c :: w' /\ is_word c = true) ->
  (exists w' c, w = w' ++ [c] /\ is_word c = true) ->
  In j (Re.ends (Re.Seq Re.Boundary (Re.lit_seq w (Re.Seq Re.Boundary Re.Empty))) s i) ->
  j = i + List.length w /\ startswith w (skipn i s) = true /\
  Re.word_before s i = false /\ Re.word_at s j = false.
Proof.
  intros [c [w1 [Hc Hcw]]] [w2 [d [Hd Hdw]]] H.
  cbn [Re.ends] in H.
  destruct (xorb (Re.word_before s i) (Re.word_at s i)) eqn:Eb;
    [|destruct H].
  rewrite flat_map_single, ends_lit_seq in H.
  destruct (startswith w (skipn i s)) eqn:Es; [|destruct H].
  cbn [Re.ends] in H.
  destruct (xorb (Re.word_before s (i + List.length w))
                 (Re.word_at s (i + List.length w))) eqn:Ee; [|destruct H].
  simpl in H. destruct H as [<-|[]].
  assert (Re.word_at s i = true) as Hfirst.
  { unfold Re.word_at, Re.char_at.
    rewrite <- (Nat.add_0_r i) at 1.
    rewrite (startswith_nth w s i 0 Es) by (subst w; simpl; lia).
    subst w. exact Hcw. }
  assert (Re.word_before s (i + List.length w) = true) as Hlast.
  { rewrite Hd in *. rewrite length_app. simpl.
    replace (i + (List.length w2 + 1)) with (S (i + List.length w2)) by lia.
    unfold Re.word_before, Re.word_at, Re.char_at.
    rewrite (startswith_nth _ s i (List.length w2) Es)
      by (rewrite length_app; simpl; lia).
    rewrite nth_error_app2, Nat.sub_diag by lia. exact Hdw. }
  rewrite Hfirst in Eb. rewrite Hlast in Ee.
  repeat split.
  - now destruct (Re.word_before s i).
  - now destruct (Re.word_at s (i + List.length w)).
Qed.

Lemma scan_in_ends (r : Re.regex) (s : str) (n : nat) (avoid : option nat)
  (pos st en : nat) :
  Re.scan r s avoid n pos = Some (st, en) -> In en (Re.ends r s st).
Proof.
  revert avoid pos. induction n as [|n IH]; intros avoid pos; simpl;
    destruct (Re.first_end avoid (Re.ends r s pos)) as [e|] eqn:E;
    try discriminate.
  - intros H. injection H as <- <-. now apply first_end_in in E.
  - intros H. injection H as <- <-. now apply first_end_in in E.
  - apply IH.
Qed.

Lemma search_from_in_ends (r : Re.regex) (s : str) (avoid : option nat)
  (pos st en : nat) :
  Re.search_from r s avoid pos = Some (st, en) -> In en (Re.ends r s st).
Proof.
  unfold Re.search_from. destruct (pos <=? List.length s); [|discriminate].
  apply scan_in_ends.
Qed.

Lemma finditer_from_in_ends (r : Re.regex) (s : str) (fuel : nat)
  (avoid : option nat) (pos : nat) (m : Re.span) :
  In m (Re.finditer_from r s fuel avoid pos) -> In (snd m) (Re.ends r s (fst m)).
Proof.
  revert avoid pos. induction fuel as [|f IH]; intros avoid pos; simpl; [tauto|].
  destruct (Re.search_from r s avoid pos) as [[st en]|] eqn:E;
    [|intros []].
  intros [<-|H]; [|now apply IH in H].
  now apply search_from_in_ends in E.
Qed.

(** Every match of a key of [TYPE_MAPPINGS] is its spelling as a whole
    word. *)
Lemma type_match (pattern replacement : string) (line : str) (m : Re.span) :
  In (pattern, replacement) TYPE_MAPPINGS ->
  In m (Re.finditer pattern line) ->
  snd m = fst m + List.length (spelling pattern) /\
  startswith (spelling pattern) (skipn (fst m) line) = true /\
  Re.word_before line (fst m) = false /\ Re.word_at line (snd m) = false.
Proof.
  intros Hin Hm. apply type_pattern_shape in Hin.
  destruct Hin as [Hre [Hfirst Hlast]].
  apply finditer_from_in_ends in Hm. rewrite Hre in Hm.
  now apply ends_word_pattern.
Qed.

(** The same for a search that succeeds. *)
Lemma type_search (pattern replacement : string) (line : str) :
  In (pattern, replacement) TYPE_MAPPINGS ->
  Re.is_some (Re.search pattern line) = true ->
  exists i,
    startswith (spelling pattern) (skipn i line) = true /\
    Re.word_before line i = false /\
    Re.word_at line (i + List.length (spelling pattern)) = false.
Proof.
  intros Hin Hs. apply type_pattern_shape in Hin.
  destruct Hin as [Hre [Hfirst Hlast]].
  apply search_some in Hs. destruct Hs as [i [_ Hm]].
  unfold Re.matches_at in Hm. rewrite Hre in Hm.
  destruct (Re.ends _ line i) as [|j js] eqn:E; [discriminate|].
  assert (In j (Re.ends (Re.Seq Re.Boundary
            (Re.lit_seq (spelling pattern) (Re.Seq Re.Boundary Re.Empty))) line i))
    as Hj by (rewrite E; now left).
  apply ends_word_pattern in Hj; try assumption.
  destruct Hj as [-> [H1 [H2 H3]]]. eauto.
Qed.

End MatchFacts.

(** ** What the analysis reports and what the rewrite changes *)

Module Occurrences.
Import PyStrFacts ReFacts ClassifierFacts SortedFacts RewriteFacts MatchFacts.
Import RefactorTypes.
Local Open Scope string_scope.
Local Open Scope nat_scope.
Local Open Scope list_scope.

Lemma spelling_nonempty (pattern replacement : string) :
  In (pattern, replacement) TYPE_MAPPINGS -> spelling pattern <> [].
Proof.
  intros H. apply type_pattern_shape in H.
  destruct H as [_ [[c [w [-> _]]] _]]. discriminate.
Qed.

Lemma type_match_whole_word (pattern replacement : string) (line : str)
  (m : Re.span) :
  In (pattern, replacement) TYPE_MAPPINGS ->
  In m (Re.finditer pattern line) ->
  group line m = spelling pattern /\
  whole_word_at (spelling pattern) line (fst m).
Proof.
  intros Hin Hm. pose proof (spelling_nonempty _ _ Hin) as Hne.
  destruct (type_match _ _ _ _ Hin Hm) as [Hen [Hsw [Hb Ha]]].
  unfold group, whole_word_at. rewrite Hen in *.
  rewrite (startswith_slice _ _ _ Hsw).
  repeat split; try assumption. now apply startswith_length.
Qed.

(** X1.  Every occurrence that [find_bare_types] reports is real: its line
    exists and is not skipped, its text is the spelling of a key of
    [TYPE_MAPPINGS] and stands on that line as a whole word, its replacement
    is the alias of that key, and the context filter accepts the text
    before it. *)
Theorem reported_occurrence_is_whole_word (content : str) (line_num : nat)
  (text : str) (replacement : string)
  (H : In (line_num, text, replacement) (find_bare_types content)) :
  exists line pattern start,
    1 <= line_num /\
    nth_error (split_lines content) (line_num - 1) = Some line /\
    should_skip_line line = false /\
    In (pattern, replacement) TYPE_MAPPINGS /\
    text = spelling pattern /\
    whole_word_at text line start /\
    context_accepts (firstn start line) = true.
Proof.
  unfold find_bare_types in H. apply in_flat_map in H.
  destruct H as [[n line] [Hnum H]]. apply DeclarationScanner.in_enumerate in Hnum.
  destruct Hnum as [Hle Hnth]. unfold line_occurrences in H.
  destruct (should_skip_line line) eqn:Eskip; [destruct H|].
  apply in_flat_map in H. destruct H as [[pattern repl] [Hmap H]].
  apply in_flat_map in H. destruct H as [m [Hm H]].
  unfold filter_match in H.
  destruct (context_accepts (text_before line m)) eqn:Eacc; [|destruct H].
  destruct H as [H|[]]. injection H as Hn Ht Hr. subst n text repl.
  destruct (type_match_whole_word _ _ _ _ Hmap Hm) as [Hg Hw].
  exists line, pattern, (fst m). rewrite Hg. unfold text_before in Eacc.
  exact (conj Hle (conj Hnth (conj Eskip (conj Hmap
           (conj eq_refl (conj Hw Eacc)))))).
Qed.

Lemma reported_occurrence_is_whole_word_witness :
  exists line pattern start,
    1 <= 2 /\
    nth_error (split_lines (lit "// sizes" ++ nl
                            :: lit "  unsigned int n = sizeof(double);"))
              (2 - 1) = Some line /\
    should_skip_line line = false /\
    In (pattern, "cforge_double_t") TYPE_MAPPINGS /\
    lit "double" = spelling pattern /\
    whole_word_at (lit "double") line start /\
    context_accepts (firstn start line) = true.
Proof.
  apply (reported_occurrence_is_whole_word
           (lit "// sizes" ++ nl :: lit "  unsigned int n = sizeof(double);")
           2 (lit "double") "cforge_double_t").
  vm_compute. tauto.
Defined.

(** *** A line that is one identifier *)

Lemma word_line_nth (line : str) (k : nat) :
  Forall (fun c => is_word c = true) line -> k < List.length line ->
  Re.word_at line k = true.
Proof.
  intros Hall Hk. unfold Re.word_at, Re.char_at.
  destruct (nth_error line k) as [c|] eqn:E.
  - apply nth_error_In in E. rewrite Forall_forall in Hall. now apply Hall.
  - apply nth_error_None in E. lia.
Qed.

(** On a line of word characters a whole word is the whole line. *)
Lemma word_line_match (line w : str) (i : nat) :
  Forall (fun c => is_word c = true) line -> w <> [] ->
  startswith w (skipn i line) = true ->
  Re.word_before line i = false ->
  Re.word_at line (i + List.length w) = false ->
  line = w.
Proof.
  intros Hall Hw Hs Hb Ha.
  pose proof (startswith_length w line i Hw Hs) as Hlen.
  assert (List.length w <> 0) by (destruct w; [congruence | discriminate]).
  destruct i as [|k].
  - destruct (Nat.eq_dec (List.length w) (List.length line)) as [E|E].
    + apply startswith_slice in Hs. unfold slice in Hs. simpl in Hs.
      rewrite Nat.sub_0_r, E, firstn_all in Hs. exact Hs.
    + rewrite (word_line_nth line (0 + List.length w) Hall) in Ha by lia.
      discriminate.
  - simpl in Hb. rewrite (word_line_nth line k Hall) in Hb by lia.
    discriminate.
Qed.

Lemma word_line_spelling (pattern replacement : string) :
  In (pattern, replacement) TYPE_MAPPINGS ->
  forallb is_word (spelling pattern) = true ->
  In (spelling pattern) (map lit ["int"; "float"; "double"; "size_t"]).
Proof.
  intros H F. unfold TYPE_MAPPINGS in H. simpl in H.
  repeat (destruct H as [H|H];
          [injection H as <- <-;
           first [ solve [vm_compute; auto 6]
                 | vm_compute in F; discriminate F ]|]).
  destruct H.
Qed.

Lemma word_line_no_search (line : str) (pattern replacement : string) :
  Forall (fun c => is_word c = true) line ->
  ~ In line (map lit ["int"; "float"; "double"; "size_t"]) ->
  In (pattern, replacement) TYPE_MAPPINGS ->
  Re.is_some (Re.search pattern line) = false.
Proof.
  intros Hall Hnot Hin.
  destruct (Re.is_some (Re.search pattern line)) eqn:E; [|reflexivity].
  exfalso. apply (type_search _ _ _ Hin) in E. destruct E as [i [Hs [Hb Ha]]].
  assert (line = spelling pattern) as Heq.
  { apply (word_line_match line _ i Hall); try assumption.
    exact (spelling_nonempty _ _ Hin). }
  apply Hnot. rewrite Heq. apply (word_line_spelling _ _ Hin).
  rewrite <- Heq. apply forallb_forall. rewrite Forall_forall in Hall. exact Hall.
Qed.

Lemma finditer_none (pattern : string) (line : str) :
  Re.is_some (Re.search pattern line) = false -> Re.finditer pattern line = [].
Proof.
  unfold Re.finditer, Re.search. intros H.
  replace (2 * List.length line + 2) with (S (2 * List.length line + 1)) by lia.
  cbn [Re.finditer_from].
  now destruct (Re.search_from (Re.re pattern) line None 0) as [[st en]|].
Qed.

Lemma fold_no_search (ms : list (string * string)) (line : str) (c : nat) :
  (forall m, In m ms -> Re.is_some (Re.search (fst m) line) = false) ->
  fold_left apply_mapping ms (line, c) = (line, c).
Proof.
  induction ms as [|[pattern repl] ms IH]; intros H; [reflexivity|].
  cbn [fold_left]. unfold apply_mapping at 2.
  pose proof (H (pattern, repl) (or_introl eq_refl)) as Hp. cbn [fst] in Hp.
  rewrite Hp. apply IH. intros m Hm. apply H. now right.
Qed.

Lemma in_sorted_mappings (m : string * string) :
  In m sorted_mappings <-> In m TYPE_MAPPINGS.
Proof.
  split; apply Permutation_in;
    [| symmetry]; apply (sorted_desc_perm pattern_len TYPE_MAPPINGS).
Qed.

(** X2.  A line that is one identifier, and not one of [int], [float],
    [double] and [size_t], is left alone: the analysis reports nothing on it
    and the rewrite returns it unchanged, whatever type names the identifier
    holds inside. *)
Theorem identifier_is_left_alone (line : str)
  (Hword : Forall (fun c => is_word c = true) line)
  (Hnot : ~ In line (map lit ["int"; "float"; "double"; "size_t"])) :
  find_bare_types line = [] /\
  (forall changes, replace_line line changes = (line, changes)) /\
  replace_types line = (line, 0).
Proof.
  assert (forall changes, replace_line line changes = (line, changes)) as Hline.
  { intros changes. unfold replace_line.
    destruct (should_skip_line line); [reflexivity|].
    apply fold_no_search. intros [pattern repl] Hm. apply in_sorted_mappings in Hm.
    now apply (word_line_no_search line pattern repl). }
  assert (split_lines line = [line]) as Hsplit.
  { apply (split_join [line]); [discriminate|].
    constructor; [|constructor]. intros Hnl. rewrite Forall_forall in Hword.
    apply Hword in Hnl. discriminate Hnl. }
  split; [|split; [exact Hline|]].
  - unfold find_bare_types. rewrite Hsplit. cbn [enumerate flat_map].
    rewrite app_nil_r. unfold line_occurrences.
    destruct (should_skip_line line); [reflexivity|].
    apply flat_map_nil_all. intros [pattern repl] Hm.
    now rewrite (finditer_none pattern line
                   (word_line_no_search line pattern repl Hword Hnot Hm)).
  - rewrite replace_types_eq, Hsplit. cbn [map list_sum fold_right join_lines].
    unfold new_line_of, changes_of. now rewrite Hline.
Qed.

Lemma identifier_is_left_alone_witness :
  find_bare_types (lit "printf_int_handler") = [] /\
  (forall changes,
     replace_line (lit "printf_int_handler") changes
     = (lit "printf_int_handler", changes)) /\
  replace_types (lit "printf_int_handler") = (lit "printf_int_handler", 0).
Proof.
  apply identifier_is_left_alone.
  - repeat constructor.
  - vm_compute. intros H.
    repeat (destruct H as [H|H]; [discriminate H|]). exact H.
Defined.

(** *** What is reported is rewritten *)

Lemma not_skipped_no_std (line : str) :
  should_skip_line line = false -> contains (lit "std::") line = false.
Proof.
  intros H. destruct (contains (lit "std::") line) eqn:E; [|reflexivity].
  assert (should_skip_line line = true); [|congruence].
  apply should_skip_line_iff. left. exists "std::". split; [|assumption].
  unfold literal_markers. simpl. intuition.
Qed.

Lemma finditer_some (pattern : string) (line : str) :
  Re.is_some (Re.search pattern line) = true -> Re.finditer pattern line <> [].
Proof.
  unfold Re.finditer, Re.search. intros H.
  replace (2 * List.length line + 2) with (S (2 * List.length line + 1)) by lia.
  cbn [Re.finditer_from].
  destruct (Re.search_from (Re.re pattern) line None 0) as [[st en]|];
    discriminate.
Qed.

Lemma search_of_finditer (pattern : string) (line : str) :
  Re.finditer pattern line <> [] -> Re.is_some (Re.search pattern line) = true.
Proof.
  intros H. destruct (Re.is_some (Re.search pattern line)) eqn:E; [reflexivity|].
  now apply finditer_none in E.
Qed.

(** A mapping that matches a line without [std::] and without an alias
    alters it. *)
Lemma apply_mapping_alters (cur : str) (pattern replacement : string) :
  contains alias_prefix (lit replacement) = true ->
  Re.is_some (Re.search pattern cur) = true ->
  contains (lit "std::") cur = false ->
  contains alias_prefix cur = false ->
  fst (apply_mapping (cur, 0) (pattern, replacement)) <> cur.
Proof.
  intros Ha Hs Hstd Hno. unfold apply_mapping. rewrite Hs, Hstd.
  assert (contains alias_prefix (Re.sub pattern (lit replacement) cur) = true)
    as Hc.
  { apply (contains_trans _ (lit replacement)); [exact Ha|].
    unfold Re.sub. apply splice_contains. now apply finditer_some. }
  destruct (str_eqb cur _); cbn [fst]; intros E; rewrite E in Hc; congruence.
Qed.

Lemma fold_mapping_counts_up (ms : list (string * string)) (cur : str) (c : nat) :
  c <= snd (fold_left apply_mapping ms (cur, c)).
Proof. rewrite fold_mapping_count. cbn [snd]. lia. Qed.

Lemma fold_mapping_alters (pattern replacement : string)
  (ms : list (string * string)) (cur : str) (c : nat) :
  In (pattern, replacement) ms ->
  contains alias_prefix (lit replacement) = true ->
  Re.is_some (Re.search pattern cur) = true ->
  contains (lit "std::") cur = false ->
  contains alias_prefix cur = false ->
  c < snd (fold_left apply_mapping ms (cur, c)).
Proof.
  intros Hin Ha Hs Hstd Hno. induction ms as [|m ms IH]; [destruct Hin|].
  cbn [fold_left]. rewrite apply_mapping_count.
  destruct (str_eqb cur (fst (apply_mapping (cur, 0) m))) eqn:E.
  - apply str_eqb_eq in E. rewrite <- E. destruct Hin as [->|Hin].
    + exfalso. now apply (apply_mapping_alters cur pattern replacement).
    + now apply IH.
  - pose proof (fold_mapping_counts_up ms (fst (apply_mapping (cur, 0) m)) (S c)).
    lia.
Qed.

Lemma list_sum_in (x : nat) (l : list nat) : In x l -> x <= list_sum l.
Proof.
  induction l as [|y l IH]; simpl; [tauto|]. intros [->|H]; [lia|].
  apply IH in H. lia.
Qed.

(** X3.  What the analysis reports, the rewrite changes: the line of a
    reported occurrence is altered by [replace_types], it then holds an
    alias, and the count of the content is positive. *)
Theorem reported_line_is_rewritten (content : str) (line_num : nat)
  (text : str) (replacement : string)
  (H : In (line_num, text, replacement) (find_bare_types content)) :
  0 < snd (replace_types content) /\
  exists line,
    nth_error (split_lines content) (line_num - 1) = Some line /\
    0 < changes_of line /\
    new_line_of line <> line /\
    contains alias_prefix (new_line_of line) = true.
Proof.
  unfold find_bare_types in H. apply in_flat_map in H.
  destruct H as [[n line] [Hnum H]].
  apply DeclarationScanner.in_enumerate in Hnum.
  destruct Hnum as [_ Hnth]. unfold line_occurrences in H.
  destruct (should_skip_line line) eqn:Eskip; [destruct H|].
  apply in_flat_map in H. destruct H as [[pattern repl] [Hmap H]].
  apply in_flat_map in H. destruct H as [m [Hm H]].
  unfold filter_match in H.
  destruct (context_accepts (text_before line m)); [|destruct H].
  destruct H as [H|[]]. injection H as Hn _ _. subst n.
  assert (0 < changes_of line) as Hpos.
  { unfold changes_of, replace_line. rewrite Eskip.
    apply (fold_mapping_alters pattern repl).
    - now apply in_sorted_mappings.
    - pose proof replacements_are_aliases as Hall. rewrite Forall_forall in Hall.
      apply in_sorted_mappings in Hmap. exact (proj1 (Hall _ Hmap)).
    - apply search_of_finditer. intros E. now rewrite E in Hm.
    - now apply not_skipped_no_std.
    - now apply not_skipped_no_alias. }
  assert (contains alias_prefix (new_line_of line) = true) as Halias.
  { destruct (replace_line_state line) as [[Hc _]|[_ Hc]]; [|exact Hc].
    unfold changes_of in Hpos. lia. }
  split.
  - rewrite replace_types_eq. cbn [snd].
    apply (Nat.lt_le_trans _ _ _ Hpos). apply list_sum_in.
    apply in_map. now apply nth_error_In in Hnth.
  - exists line. repeat split; try assumption.
    intros E. rewrite E in Halias.
    pose proof (not_skipped_no_alias line Eskip) as Hno.
    change (lit "cforge_") with alias_prefix in Hno. congruence.
Qed.

Lemma reported_line_is_rewritten_witness :
  0 < snd (replace_types (lit "float ratio(int a, int b);")) /\
  exists line,
    nth_error (split_lines (lit "float ratio(int a, int b);")) (1 - 1)
    = Some line /\
    0 < changes_of line /\
    new_line_of line <> line /\
    contains alias_prefix (new_line_of line) = true.
Proof.
  apply (reported_line_is_rewritten (lit "float ratio(int a, int b);") 1
           (lit "float") "cforge_float_t").
  vm_compute. tauto.
Defined.

(** *** The analysis after the rewrite *)

Lemma rewritten_line_no_occurrence (line_num : nat) (line : str) :
  line_occurrences line_num (new_line_of line) = [].
Proof.
  destruct (replace_line_state line) as [[Hc Hl]|[_ Ha]].
  - fold (new_line_of line) in Hl. fold (changes_of line) in Hc. rewrite Hl.
    unfold line_occurrences. destruct (should_skip_line line) eqn:Es;
      [reflexivity|].
    apply flat_map_nil_all. intros [pattern repl] Hm.
    destruct (Re.finditer pattern line) as [|m ms] eqn:E; [reflexivity|].
    exfalso. assert (0 < changes_of line); [|lia].
    unfold changes_of, replace_line. rewrite Es.
    apply (fold_mapping_alters pattern repl).
    + now apply in_sorted_mappings.
    + pose proof replacements_are_aliases as Hall. rewrite Forall_forall in Hall.
      apply in_sorted_mappings in Hm. exact (proj1 (Hall _ Hm)).
    + apply search_of_finditer. now rewrite E.
    + now apply not_skipped_no_std.
    + now apply not_skipped_no_alias.
  - fold (new_line_of line) in Ha. unfold line_occurrences.
    now rewrite (alias_is_skipped _ Ha).
Qed.

(** X12.  After the rewrite the analysis has nothing left to report: on the
    content that [replace_types] returns, [find_bare_types] finds no
    occurrence. *)
Theorem rewritten_content_has_no_bare_types (content : str) :
  find_bare_types (fst (replace_types content)) = [].
Proof.
  unfold find_bare_types. rewrite replace_types_eq. cbn [fst].
  rewrite split_new_content. apply flat_map_nil_all. intros [n l] Hin.
  apply DeclarationScanner.in_enumerate in Hin. destruct Hin as [_ Hin].
  apply nth_error_In in Hin. apply in_map_iff in Hin.
  destruct Hin as [line [<- _]]. apply rewritten_line_no_occurrence.
Qed.

End Occurrences.

(** ** The rewrite of a whole content *)

Module Contents.
Import PyStrFacts ReFacts ClassifierFacts RewriteFacts RefactorTypes.
Local Open Scope string_scope.
Local Open Scope nat_scope.
Local Open Scope list_scope.

Lemma split_acc_break (cur above below : str) :
  split_acc cur (above ++ nl :: below) = split_acc cur above ++ split_lines below.
Proof.
  revert cur. induction above as [|c above IH]; intros cur; simpl.
  - reflexivity.
  - destruct (Ascii.eqb c "010"); [simpl; f_equal|]; apply IH.
Qed.

Lemma split_lines_break (above below : str) :
  split_lines (above ++ nl :: below) = split_lines above ++ split_lines below.
Proof. apply split_acc_break. Qed.

Lemma join_lines_app (l1 l2 : list str) :
  l1 <> [] -> l2 <> [] ->
  join_lines (l1 ++ l2) = join_lines l1 ++ nl :: join_lines l2.
Proof.
  intros H1 H2. induction l1 as [|l l1 IH]; [congruence|].
  destruct l1 as [|l' l1].
  - simpl. destruct l2; [congruence | reflexivity].
  - change ((l :: l' :: l1) ++ l2) with (l :: ((l' :: l1) ++ l2)).
    rewrite (join_cons l ((l' :: l1) ++ l2)) by discriminate.
    rewrite IH by discriminate.
    rewrite (join_cons l (l' :: l1)) by discriminate.
    now rewrite <- app_assoc.
Qed.

(** X4.  The rewrite works line by line: the lines of the new content are
    the rewritten lines of the old one, as many as before; and a content
    broken at a line break is rewritten part by part, the counts adding
    up. *)
Theorem rewrite_is_line_by_line (content above below : str) :
  split_lines (fst (replace_types content))
  = map new_line_of (split_lines content) /\
  List.length (split_lines (fst (replace_types content)))
  = List.length (split_lines content) /\
  replace_types (above ++ nl :: below)
  = (fst (replace_types above) ++ nl :: fst (replace_types below),
     snd (replace_types above) + snd (replace_types below)).
Proof.
  split; [|split].
  - rewrite replace_types_eq. apply split_new_content.
  - rewrite replace_types_eq. cbn [fst].
    now rewrite split_new_content, length_map.
  - rewrite !replace_types_eq, split_lines_break, !map_app, list_sum_app.
    cbn [fst snd]. f_equal. apply join_lines_app.
    + intros E. apply map_eq_nil in E. now apply split_lines_nonempty in E.
    + intros E. apply map_eq_nil in E. now apply split_lines_nonempty in E.
Qed.

Lemma map_fixed {A} (f : A -> A) (l : list A) :
  map f l = l <-> forall x, In x l -> f x = x.
Proof.
  induction l as [|y l IH]; simpl.
  - split; [intros _ x [] | reflexivity].
  - split.
    + intros H x. injection H as Hy Hl. rewrite IH in Hl.
      intros [<-|Hx]; auto.
    + intros H. f_equal; [apply H; now left|].
      apply IH. intros x Hx. apply H. now right.
Qed.

Lemma list_sum_zero (l : list nat) :
  list_sum l = 0 <-> forall x, In x l -> x = 0.
Proof.
  induction l as [|y l IH]; simpl.
  - split; [intros _ x [] | reflexivity].
  - split.
    + intros H x [<-|Hx]; [lia|]. apply IH; [lia | assumption].
    + intros H. rewrite (H y (or_introl eq_refl)). simpl.
      apply IH. intros x Hx. apply H. now right.
Qed.

(** A line counts nothing exactly when it comes out as it went in. *)
Lemma line_count_zero (line : str) :
  changes_of line = 0 <-> new_line_of line = line.
Proof.
  unfold changes_of, new_line_of.
  destruct (replace_line_state line) as [[Hc Hl]|[Hc Ha]].
  - tauto.
  - split; [lia|]. intros E. exfalso.
    unfold replace_line in *. destruct (should_skip_line line) eqn:Es.
    + cbn [snd] in Hc. lia.
    + rewrite E in Ha. pose proof (not_skipped_no_alias line Es) as Hno.
      change (lit "cforge_") with alias_prefix in Hno. congruence.
Qed.

Lemma unchanged_when_zero (content : str) :
  snd (replace_types content) = 0 -> fst (replace_types content) = content.
Proof.
  rewrite replace_types_eq. cbn [fst snd]. rewrite list_sum_zero.
  intros H. rewrite <- (join_split content) at 2. f_equal.
  apply map_fixed. intros l Hl. apply line_count_zero. apply H.
  now apply in_map.
Qed.

Lemma zero_when_unchanged (content : str) :
  fst (replace_types content) = content -> snd (replace_types content) = 0.
Proof.
  rewrite replace_types_eq. cbn [fst snd]. rewrite list_sum_zero.
  intros H x Hx. apply in_map_iff in Hx. destruct Hx as [l [<- Hl]].
  apply line_count_zero. revert l Hl. apply map_fixed.
  rewrite <- split_new_content, H. reflexivity.
Qed.

(** X5.  The count is zero exactly when the new content is the old one:
    a content that counts a change has changed, and one that counts none
    is returned as it was. *)
Theorem count_zero_iff_unchanged (content : str) :
  snd (replace_types content) = 0 <-> fst (replace_types content) = content.
Proof.
  split; [apply unchanged_when_zero | apply zero_when_unchanged].
Qed.

End Contents.

(** ** Runs of [main] over a list of files *)

Module Runs.
Import PyStrFacts RewriteFacts Files Contents RefactorTypes.
Local Open Scope string_scope.
Local Open Scope nat_scope.
Local Open Scope list_scope.






(** *** Files that are skipped or not listed *)








(** *** A second run *)








End Runs.

(** ** The analysis of a whole content *)

Module Analysis.
Import PyStrFacts ReFacts Contents DeclarationScanner RefactorTypes.
Local Open Scope string_scope.
Local Open Scope nat_scope.
Local Open Scope list_scope.

Lemma enumerate_app {A} (k : nat) (l1 l2 : list A) :
  enumerate k (l1 ++ l2) = enumerate k l1 ++ enumerate (k + List.length l1) l2.
Proof.
  revert k. induction l1 as [|x l1 IH]; intros k; simpl.
  - now rewrite Nat.add_0_r.
  - rewrite IH. now rewrite Nat.add_succ_r.
Qed.

Lemma map_flat_map {A B C} (g : B -> C) (f : A -> list B) (l : list A) :
  map g (flat_map f l) = flat_map (fun x => map g (f x)) l.
Proof.
  induction l as [|x l IH]; simpl; [reflexivity|].
  now rewrite map_app, IH.
Qed.

(** A per-line result that carries its line number along is found, on the
    lines after a break, as on those lines alone, the numbers moved. *)
Lemma flat_map_enumerate_shift {A B} (f : nat * A -> list B)
  (shift : nat -> B -> B) (k start : nat) (l : list A) :
  (forall k n x, f (k + n, x) = map (shift k) (f (n, x))) ->
  flat_map f (enumerate (k + start) l)
  = map (shift k) (flat_map f (enumerate start l)).
Proof.
  intros Hf. revert start. induction l as [|x l IH]; intros start; simpl;
    [reflexivity|].
  rewrite map_app, Hf. f_equal.
  rewrite <- Nat.add_succ_r. apply IH.
Qed.

Lemma flat_map_enumerate_app {A B} (f : nat * A -> list B)
  (shift : nat -> B -> B) (l1 l2 : list A) :
  (forall k n x, f (k + n, x) = map (shift k) (f (n, x))) ->
  flat_map f (enumerate 1 (l1 ++ l2))
  = flat_map f (enumerate 1 l1)
    ++ map (shift (List.length l1)) (flat_map f (enumerate 1 l2)).
Proof.
  intros Hf. rewrite enumerate_app, flat_map_app. f_equal.
  rewrite (Nat.add_comm 1). now apply flat_map_enumerate_shift.
Qed.

Lemma line_occurrences_shift (k n : nat) (line : str) :
  line_occurrences (k + n) line
  = map (shift_occurrence k) (line_occurrences n line).
Proof.
  unfold line_occurrences. destruct (should_skip_line line); [reflexivity|].
  rewrite map_flat_map. apply flat_map_ext. intros [pattern replacement].
  rewrite map_flat_map. apply flat_map_ext. intros m.
  unfold filter_match. now destruct (context_accepts (text_before line m)).
Qed.

Lemma check_declaration_shift (patterns : list string) (k n : nat)
  (stripped : str) :
  check_declaration patterns (k + n) stripped
  = option_map (shift_entry k) (check_declaration patterns n stripped).
Proof.
  induction patterns as [|p ps IH]; simpl; [reflexivity|].
  destruct (Re.is_some (Re.match_ p stripped)); [|exact IH].
  destruct (opens_body stripped); [exact IH | reflexivity].
Qed.

Lemma entries_of_shift (k n : nat) (line : str) :
  entries_of (k + n, line) = map (shift_entry k) (entries_of (n, line)).
Proof.
  unfold entries_of. cbn [fst snd]. rewrite check_declaration_shift.
  now destruct (check_declaration declaration_patterns n (strip line)).
Qed.

(** The declarations of a content are those of its lines, one by one: the
    namespace bookkeeping has no part in them. *)
Lemma find_declarations_eq (content : str) :
  find_declarations_in_source content
  = flat_map entries_of (enumerate 1 (split_lines content)).
Proof.
  unfold find_declarations_in_source. now rewrite fold_scan_results.
Qed.

(** X9.  The analysis works line by line: what [find_bare_types] and
    [find_declarations_in_source] report for a content broken at a line
    break is what they report for the part above, followed by what they
    report for the part below with the line numbers moved down by the lines
    above.  No line changes what is reported for another, and the namespace
    bookkeeping changes nothing. *)
Theorem analysis_is_line_by_line (above below : str) :
  find_bare_types (above ++ nl :: below)
  = find_bare_types above
    ++ map (shift_occurrence (List.length (split_lines above)))
         (find_bare_types below) /\
  find_declarations_in_source (above ++ nl :: below)
  = find_declarations_in_source above
    ++ map (shift_entry (List.length (split_lines above)))
         (find_declarations_in_source below).
Proof.
  split.
  - unfold find_bare_types. rewrite split_lines_break.
    apply (flat_map_enumerate_app
             (fun '(line_num, line) => line_occurrences line_num line)
             shift_occurrence).
    intros k n x. apply line_occurrences_shift.
  - rewrite !find_declarations_eq, split_lines_break.
    apply (flat_map_enumerate_app entries_of shift_entry).
    intros k n x. apply entries_of_shift.
Qed.

(** *** The order of the reports *)

Lemma sorted_app {A} (R : A -> A -> Prop) (a b : list A) :
  StronglySorted R a -> StronglySorted R b ->
  (forall x y, In x a -> In y b -> R x y) ->
  StronglySorted R (a ++ b).
Proof.
  intros Ha Hb Hab. induction Ha as [|x a Ha IH Hx]; [exact Hb|].
  simpl. constructor.
  - apply IH. intros u v Hu Hv. apply Hab; [now right | assumption].
  - apply Forall_app. split; [exact Hx|].
    apply Forall_forall. intros y Hy. apply Hab; [now left | assumption].
Qed.

Lemma sorted_constant (k : nat) (l : list nat) :
  (forall x, In x l -> x = k) -> StronglySorted le l.
Proof.
  induction l as [|y l IH]; intros H; constructor.
  - apply IH. intros x Hx. apply H. now right.
  - apply Forall_forall. intros x Hx.
    rewrite (H y (or_introl eq_refl)), (H x (or_intror Hx)). lia.
Qed.

(** Results that carry the number of their line come out in the order of
    the lines, with numbers within the lines there are. *)
Lemma numbered_in_order {A B} (f : nat * A -> list B) (num : B -> nat)
  (l : list A) (start : nat) :
  (forall n x e, In e (f (n, x)) -> num e = n) ->
  StronglySorted le (map num (flat_map f (enumerate start l))) /\
  Forall (fun e => start <= num e < start + List.length l)
         (flat_map f (enumerate start l)).
Proof.
  intros Hf. revert start. induction l as [|x l IH]; intros start; simpl.
  - split; constructor.
  - destruct (IH (S start)) as [Hs Hr]. split.
    + rewrite map_app. apply sorted_app; [|exact Hs|].
      * apply (sorted_constant start). intros n Hn.
        apply in_map_iff in Hn. destruct Hn as [e [<- He]].
        exact (Hf _ _ _ He).
      * intros u v Hu Hv. apply in_map_iff in Hu. destruct Hu as [e [<- He]].
        apply in_map_iff in Hv. destruct Hv as [e' [<- He']].
        rewrite (Hf _ _ _ He). rewrite Forall_forall in Hr.
        apply Hr in He'. lia.
    + apply Forall_app. split.
      * apply Forall_forall. intros e He. rewrite (Hf _ _ _ He). lia.
      * eapply Forall_impl; [|exact Hr]. intros e He. simpl in He. lia.
Qed.

(** With at most one result a line, the numbers go strictly up. *)
Lemma numbered_strictly {A B} (f : nat * A -> list B) (num : B -> nat)
  (l : list A) (start : nat) :
  (forall n x e, In e (f (n, x)) -> num e = n) ->
  (forall n x, List.length (f (n, x)) <= 1) ->
  StronglySorted lt (map num (flat_map f (enumerate start l))) /\
  List.length (flat_map f (enumerate start l)) <= List.length l.
Proof.
  intros Hf H1. revert start. induction l as [|x l IH]; intros start; simpl.
  - split; [constructor | lia].
  - destruct (IH (S start)) as [Hs Hl].
    destruct (numbered_in_order f num l (S start) Hf) as [_ Hr].
    pose proof (H1 start x) as Hone. pose proof (Hf start x) as Hnum.
    destruct (f (start, x)) as [|e [|e' r]]; simpl in *; [| |lia].
    + split; [exact Hs | lia].
    + split; [|lia]. constructor; [exact Hs|].
      apply Forall_forall. intros n Hn. apply in_map_iff in Hn.
      destruct Hn as [e' [<- He']]. rewrite Forall_forall in Hr.
      apply Hr in He'. rewrite (Hnum e (or_introl eq_refl)). lia.
Qed.

Lemma entries_of_cases (n : nat) (line : str) :
  entries_of (n, line) = []
  \/ entries_of (n, line) = [(n, firstn 80 (strip line))].
Proof.
  unfold entries_of. cbn [fst snd].
  destruct (check_declaration declaration_patterns n (strip line)) as [e|] eqn:E;
    [|now left].
  right. apply check_declaration_some in E. now destruct E as [-> _].
Qed.

Lemma line_occurrences_num (n : nat) (line : str) (o : occurrence) :
  In o (line_occurrences n line) -> fst (fst o) = n.
Proof.
  unfold line_occurrences. destruct (should_skip_line line); [intros []|].
  intros H. apply in_flat_map in H. destruct H as [[pattern repl] [_ H]].
  apply in_flat_map in H. destruct H as [m [_ H]]. unfold filter_match in H.
  destruct (context_accepts (text_before line m)); [|destruct H].
  destruct H as [<-|[]]. reflexivity.
Qed.

(** X10.  Both reports come in the order of the lines, with line numbers
    from 1 to the number of lines.  A line enters the declarations at most
    once, so their numbers go strictly up and there are no more of them
    than lines; the text of a declaration is at most 80 characters long. *)
Theorem reports_are_in_line_order (content : str) :
  let lines := List.length (split_lines content) in
  StronglySorted le (map (fun o => fst (fst o)) (find_bare_types content)) /\
  Forall (fun o => 1 <= fst (fst o) <= lines) (find_bare_types content) /\
  StronglySorted lt (map fst (find_declarations_in_source content)) /\
  Forall (fun e => 1 <= fst e <= lines /\ List.length (snd e) <= 80)
         (find_declarations_in_source content) /\
  List.length (find_declarations_in_source content) <= lines.
Proof.
  intros lines.
  assert (Hocc : forall n x e,
            In e ((fun '(line_num, line) => line_occurrences line_num line) (n, x))
            -> fst (fst e) = n).
  { intros n x e. apply line_occurrences_num. }
  assert (Hent : forall n x e, In e (entries_of (n, x)) -> fst e = n).
  { intros n x e He. destruct (entries_of_cases n x) as [E|E];
      rewrite E in He; [destruct He|]. now destruct He as [<-|[]]. }
  assert (Hone : forall n x, List.length (entries_of (n, x)) <= 1).
  { intros n x. destruct (entries_of_cases n x) as [E|E]; rewrite E; simpl; lia. }
  destruct (numbered_in_order _ _ (split_lines content) 1 Hocc) as [Ho1 Ho2].
  destruct (numbered_in_order _ _ (split_lines content) 1 Hent) as [_ He2].
  destruct (numbered_strictly _ _ (split_lines content) 1 Hent Hone)
    as [He1 He3].
  rewrite find_declarations_eq. unfold find_bare_types.
  split; [exact Ho1|]. split.
  { eapply Forall_impl; [|exact Ho2]. intros o Ho. simpl in Ho.
    unfold lines, str in *. lia. }
  split; [exact He1|]. split; [|exact He3].
  clear He3.
  apply Forall_forall. intros e He. rewrite Forall_forall in He2.
  pose proof (He2 e He) as Hr.
  split; [simpl in Hr; unfold lines, str in *; lia|].
  apply in_flat_map in He. destruct He as [[n line] [_ He]].
  destruct (entries_of_cases n line) as [E|E]; rewrite E in He; [destruct He|].
  destruct He as [<-|[]]. cbn [snd]. rewrite length_firstn. lia.
Qed.

(** *** The namespace bookkeeping *)

Lemma track_namespace_ok (stripped : str) (st : scan_state) :
  namespace_ok st ->
  namespace_ok (track_namespace stripped st) /\
  (namespace_depth (track_namespace stripped st) <= namespace_depth st + 1)%Z.
Proof.
  unfold namespace_ok, track_namespace. intros [Hd Hi].
  destruct (Re.is_some (Re.match_ _ stripped));
    destruct (str_eqb stripped (lit "}")); cbn [andb in_namespace namespace_depth].
  - destruct (Z.eqb_spec (namespace_depth st + 1 - 1) 0) as [E|E];
      cbn [in_namespace namespace_depth]; split; try lia;
      (split; [lia | split; [intros; try discriminate; lia | intros; try lia; reflexivity]]).
  - split; [|lia]. split; [lia|]. split; [intros; lia | reflexivity].
  - destruct (in_namespace st) eqn:En; cbn [in_namespace namespace_depth].
    + assert (0 < namespace_depth st)%Z by now apply Hi.
      destruct (Z.eqb_spec (namespace_depth st - 1) 0) as [E|E];
        cbn [in_namespace namespace_depth]; split; try lia;
        (split; [lia | split; [intros; try discriminate; lia
                              | intros; try lia; reflexivity]]).
    + split; [|lia]. split; [lia|]. rewrite En. exact Hi.
  - split; [|lia]. now split.
Qed.

Lemma scan_line_namespace (st : scan_state) (numbered : nat * str) :
  in_namespace (scan_line st numbered)
  = in_namespace (track_namespace (strip (snd numbered)) st) /\
  namespace_depth (scan_line st numbered)
  = namespace_depth (track_namespace (strip (snd numbered)) st).
Proof.
  destruct numbered as [n line]. unfold scan_line. cbn [snd].
  now destruct (check_declaration declaration_patterns n (strip line)).
Qed.

Lemma fold_scan_namespace (numbered : list (nat * str)) (st : scan_state) :
  namespace_ok st ->
  namespace_ok (fold_left scan_line numbered st) /\
  (namespace_depth (fold_left scan_line numbered st)
   <= namespace_depth st + Z.of_nat (List.length numbered))%Z.
Proof.
  revert st. induction numbered as [|l ls IH]; intros st Hok.
  - split; [exact Hok | simpl; lia].
  - cbn [fold_left].
    destruct (track_namespace_ok (strip (snd l)) st Hok) as [Hok' Hle].
    destruct (scan_line_namespace st l) as [Ei Ed].
    assert (namespace_ok (scan_line st l)) as Hs.
    { unfold namespace_ok in *. now rewrite Ei, Ed. }
    destruct (IH _ Hs) as [H1 H2]. split; [exact H1|].
    rewrite Ed in H2. cbn [List.length]. lia.
Qed.

(** X11.  The scanner keeps its namespace bookkeeping consistent after
    every line: the depth is never negative, the flag is set exactly when
    the depth is positive, and the depth is at most the number of lines
    read. *)
Theorem namespace_bookkeeping_is_consistent (numbered : list (nat * str)) :
  let st := fold_left scan_line numbered scan_start in
  (0 <= namespace_depth st <= Z.of_nat (List.length numbered))%Z /\
  (in_namespace st = true <-> (0 < namespace_depth st)%Z).
Proof.
  intros st.
  assert (namespace_ok scan_start) as H0.
  { unfold namespace_ok, scan_start. simpl. split; [lia|].
    split; [discriminate | lia]. }
  destruct (fold_scan_namespace numbered scan_start H0) as [[Hd Hi] Hle].
  fold st in Hd, Hi, Hle. simpl in Hle. split; [lia | exact Hi].
Qed.

End Analysis.

(** ** The [std::] test inside the rewrite loop *)

Module StdGuard.
Import PyStrFacts ReFacts ClassifierFacts RewriteFacts Occurrences.
Import RefactorTypes.
Local Open Scope string_scope.
Local Open Scope nat_scope.
Local Open Scope list_scope.

Lemma endswith_spec (p s : str) :
  endswith p s = true <-> exists a, s = a ++ p.
Proof.
  unfold endswith. rewrite startswith_spec. split.
  - intros [b H]. exists (rev b).
    rewrite <- (rev_involutive s), H, rev_app_distr. now rewrite rev_involutive.
  - intros [a ->]. exists (rev a). apply rev_app_distr.
Qed.

(** Where [p] stands in [x ++ y]: in [x], in [y], or across the seam. *)
Lemma contains_app_cases (p x y : str) :
  contains p (x ++ y) = true ->
  contains p x = true \/ contains p y = true \/
  exists l l', p = l ++ l' /\ l <> [] /\ l' <> [] /\
               endswith l x = true /\ startswith l' y = true.
Proof.
  intros H. apply contains_spec in H. destruct H as [a [b H]].
  apply app_eq_app in H. destruct H as [l [[Hx Hy]|[Ha Hy]]].
  - symmetry in Hy. apply app_eq_app in Hy.
    destruct Hy as [l' [[Hp Hb]|[Hp Hy]]].
    + left. subst x l. apply contains_spec. now exists a, l'.
    + destruct l as [|c l].
      * right. left. simpl in Hp. subst l'. apply contains_spec.
        now exists [], b.
      * destruct l' as [|c' l'].
        -- left. rewrite app_nil_r in Hp. subst p x. apply contains_spec.
           exists a, []. now rewrite app_nil_r.
        -- right. right. exists (c :: l), (c' :: l').
           repeat split; try assumption; try discriminate.
           ++ apply endswith_spec. now exists a.
           ++ apply startswith_spec. now exists b.
  - right. left. subst y. apply contains_spec. now exists l, b.
Qed.

Lemma contains_false_slice (p s : str) (a b : nat) :
  contains p s = false -> contains p (slice s a b) = false.
Proof.
  intros H. unfold slice. apply contains_false_firstn.
  destruct (contains p (skipn a s)) eqn:E; [|reflexivity].
  apply contains_skipn in E. congruence.
Qed.

Lemma contains_false_skipn (p s : str) (a : nat) :
  contains p s = false -> contains p (skipn a s) = false.
Proof.
  intros H. destruct (contains p (skipn a s)) eqn:E; [|reflexivity].
  apply contains_skipn in E. congruence.
Qed.

(** No [std::] comes about at the seam after a safe replacement, nor at the
    seam before it. *)
Lemma std_safe_right (repl y : str) :
  std_safe repl = true -> contains (lit "std::") y = false ->
  contains (lit "std::") (repl ++ y) = false.
Proof.
  unfold std_safe. intros Hs Hy.
  apply andb_true_iff in Hs. destruct Hs as [Hs Hends].
  apply andb_true_iff in Hs. destruct Hs as [_ Hno].
  apply negb_true_iff in Hno.
  destruct (contains (lit "std::") (repl ++ y)) eqn:E; [|reflexivity].
  exfalso. apply contains_app_cases in E.
  destruct E as [E|[E|[l [l' [Hp [Hl [Hl' [He _]]]]]]]]; try congruence.
  rewrite forallb_forall in Hends.
  assert (In (List.length l) [1; 2; 3; 4]) as Hk.
  { apply (f_equal (@List.length ascii)) in Hp. rewrite length_app in Hp.
    simpl in Hp. destruct l; [congruence|]. destruct l'; [congruence|].
    simpl in *. lia. }
  apply Hends in Hk. apply negb_true_iff in Hk.
  assert (firstn (List.length l) (lit "std::") = l) as Hf.
  { rewrite Hp. rewrite firstn_app, Nat.sub_diag, firstn_all. simpl.
    apply app_nil_r. }
  rewrite Hf in Hk. congruence.
Qed.

Lemma std_safe_left (x repl y : str) :
  std_safe repl = true -> contains (lit "std::") x = false ->
  contains (lit "std::") (repl ++ y) = false ->
  contains (lit "std::") (x ++ repl ++ y) = false.
Proof.
  unfold std_safe. intros Hs Hx Hy.
  apply andb_true_iff in Hs. destruct Hs as [Hs _].
  apply andb_true_iff in Hs. destruct Hs as [Hc _].
  apply startswith_spec in Hc. destruct Hc as [r ->].
  destruct (contains (lit "std::") (x ++ (lit "c" ++ r) ++ y)) eqn:E;
    [|reflexivity].
  exfalso. apply contains_app_cases in E.
  destruct E as [E|[E|[l [l' [Hp [Hl [Hl' [_ Hs]]]]]]]]; try congruence.
  apply startswith_spec in Hs. destruct Hs as [b Hs].
  destruct l' as [|c' l']; [congruence|]. simpl in Hs. injection Hs as <- _.
  change (lit "std::") with ["s"; "t"; "d"; ":"; ":"]%char in Hp.
  destruct l as [|c1 [|c2 [|c3 [|c4 [|c5 l]]]]]; simpl in Hp;
    try congruence; try discriminate Hp.
  injection Hp as _ _ _ _ _ Hp. destruct l; discriminate Hp.
Qed.

Lemma splice_no_std (s repl : str) (ms : list Re.span) (pos : nat) :
  std_safe repl = true -> contains (lit "std::") s = false ->
  contains (lit "std::") (Re.splice s repl pos ms) = false.
Proof.
  intros Hs Hno. revert pos. induction ms as [|[st en] ms IH]; intros pos; simpl.
  - now apply contains_false_skipn.
  - apply std_safe_left; [assumption | now apply contains_false_slice|].
    apply std_safe_right; [assumption | apply IH].
Qed.

Lemma replacements_are_std_safe :
  Forall (fun m => std_safe (lit (snd m)) = true) sorted_mappings.
Proof. repeat constructor. Qed.

Lemma apply_mapping_no_std (cur : str) (m : string * string) :
  std_safe (lit (snd m)) = true -> contains (lit "std::") cur = false ->
  contains (lit "std::") (fst (apply_mapping (cur, 0) m)) = false.
Proof.
  intros Hs Hno. destruct m as [pattern replacement]. unfold apply_mapping.
  destruct (Re.is_some (Re.search pattern cur)); [|exact Hno].
  rewrite Hno.
  assert (contains (lit "std::") (Re.sub pattern (lit replacement) cur) = false)
    as H by now apply splice_no_std.
  now destruct (str_eqb cur _).
Qed.

Lemma line_trace_no_std (ms : list (string * string)) (cur : str) :
  Forall (fun m => std_safe (lit (snd m)) = true) ms ->
  contains (lit "std::") cur = false ->
  Forall (fun l => contains (lit "std::") l = false) (line_trace ms cur).
Proof.
  intros Hall. revert cur. induction Hall as [|m ms Hm _ IH]; intros cur Hno;
    cbn [line_trace]; constructor.
  - now apply apply_mapping_no_std.
  - apply IH. now apply apply_mapping_no_std.
Qed.

Lemma last_in {A} (x : A) (l : list A) : In (last (x :: l) x) (x :: l).
Proof.
  revert x. induction l as [|y l IH]; intros x; [now left|].
  right. change (last (x :: y :: l) x) with (last (y :: l) x).
  rewrite (last_default y l x y). apply IH.
Qed.

(** X13.  The test ['std::' in new_line] inside the loop over the mappings
    never holds: a line that the classifier lets through holds no [std::],
    and neither does any value that [new_line] takes while the mappings are
    applied, nor the line that comes out. *)
Theorem std_test_never_holds (line : str)
  (H : should_skip_line line = false) :
  Forall (fun l => contains (lit "std::") l = false)
         (line :: line_trace sorted_mappings line) /\
  contains (lit "std::") (new_line_of line) = false.
Proof.
  pose proof (not_skipped_no_std line H) as Hno.
  pose proof (line_trace_no_std sorted_mappings line
                replacements_are_std_safe Hno) as Ht.
  split; [now constructor|].
  unfold new_line_of, replace_line. rewrite H, fold_mapping_count. cbn [fst].
  destruct (line_trace sorted_mappings line) as [|l t] eqn:E; [exact Hno|].
  rewrite Forall_forall in Ht. apply Ht.
  rewrite (last_default l t line l). apply last_in.
Qed.

Lemma std_test_never_holds_witness :
  contains (lit "std::")
           (new_line_of (lit "unsigned int std = sizeof(double);")) = false.
Proof.
  assert (should_skip_line (lit "unsigned int std = sizeof(double);") = false)
    as H by (vm_compute; reflexivity).
  exact (proj2 (std_test_never_holds _ H)).
Defined.

End StdGuard.

(** ** After the rewrite no primitive spelling is left *)

Module Completeness.
Import PyStrFacts ReFacts ClassifierFacts SortedFacts RewriteFacts MatchFacts.
Import Occurrences StdGuard RefactorTypes.
Local Open Scope string_scope.
Local Open Scope nat_scope.
Local Open Scope list_scope.

(** *** Word characters at a seam *)

Lemma word_at_app (a b : str) :
  Re.word_at (a ++ b) (List.length a) = starts_word b.
Proof.
  unfold Re.word_at, Re.char_at. rewrite nth_error_app2, Nat.sub_diag by lia.
  now destruct b.
Qed.

Lemma ends_word_snoc (a : str) (c : ascii) : ends_word (a ++ [c]) = is_word c.
Proof. unfold ends_word. now rewrite rev_app_distr. Qed.

Lemma ends_word_app (a b : str) : b <> [] -> ends_word (a ++ b) = ends_word b.
Proof.
  intros Hb. destruct (exists_last Hb) as [b' [c ->]].
  now rewrite app_assoc, !ends_word_snoc.
Qed.

Lemma word_before_app (a b : str) :
  Re.word_before (a ++ b) (List.length a) = ends_word a.
Proof.
  destruct a as [|x a] using rev_ind; [reflexivity|].
  rewrite length_app, Nat.add_comm. cbn [List.length Nat.add Re.word_before].
  rewrite <- app_assoc, word_at_app, ends_word_snoc. reflexivity.
Qed.

Lemma starts_word_app (a b : str) : a <> [] -> starts_word (a ++ b) = starts_word a.
Proof. destruct a; [congruence | reflexivity]. Qed.

Lemma left_ok_app (prev : bool) (a b : str) :
  b <> [] -> left_ok prev (a ++ b) = negb (ends_word b).
Proof.
  intros Hb. unfold left_ok. destruct (a ++ b) eqn:E.
  - apply app_eq_nil in E. tauto.
  - rewrite <- E. now rewrite ends_word_app.
Qed.

(** After a text that ends with a word character, what follows is as after
    a word character. *)
Lemma left_ok_after (prev : bool) (a b : str) :
  a <> [] -> ends_word a = true -> left_ok prev (a ++ b) = left_ok true b.
Proof.
  intros Ha He. destruct b as [|c b].
  - rewrite app_nil_r. destruct a; [congruence|]. simpl. now rewrite He.
  - rewrite left_ok_app by discriminate. reflexivity.
Qed.

(** *** One replacement and a whole word of the new text *)

Section Seam.
Variables repl w' : str.
Hypothesis repl_nonempty : repl <> [].
Hypothesis repl_word : Forall (fun c => is_word c = true) repl.
Hypothesis repl_not_in : contains repl w' = false.

Lemma word_starts (l x : str) :
  l <> [] -> Forall (fun c => is_word c = true) l -> starts_word (l ++ x) = true.
Proof.
  intros Hl Hw. destruct l as [|c l]; [congruence|]. simpl.
  now inversion Hw.
Qed.

Lemma word_ends (x l : str) :
  l <> [] -> Forall (fun c => is_word c = true) l -> ends_word (x ++ l) = true.
Proof.
  intros Hl Hw. destruct (exists_last Hl) as [l' [c ->]].
  rewrite app_assoc, ends_word_snoc. apply Forall_app in Hw.
  destruct Hw as [_ Hw]. now inversion Hw.
Qed.

Lemma repl_inside (l l3 : str) : w' = l ++ repl ++ l3 -> False.
Proof.
  intros H. rewrite H, contains_self_app in repl_not_in. discriminate.
Qed.

(** A whole word of [a ++ repl ++ n'] lies in [a] or in [n']: it cannot
    touch the replacement. *)
Lemma seam (prev : bool) (a n' a2 b2 : str) :
  a ++ repl ++ n' = a2 ++ w' ++ b2 ->
  left_ok prev a2 = true -> starts_word b2 = false ->
  (exists l', l' <> [] /\ a = a2 ++ w' ++ l' /\ starts_word l' = false)
  \/ (exists l, a2 = a ++ repl ++ l /\ n' = l ++ w' ++ b2 /\
                 left_ok true l = true).
Proof.
  intros E Hl Hr. apply app_eq_app in E.
  destruct E as [l [[Ea E]|[Ea E]]].
  - (* the word begins in [a] *)
    apply app_eq_app in E. destruct E as [l2 [[Ew E]|[El Eb]]].
    + (* and reaches into the replacement *)
      exfalso. destruct l2 as [|c l2].
      * simpl in E. rewrite <- E in Hr.
        now rewrite (word_starts repl n' repl_nonempty repl_word) in Hr.
      * apply app_eq_app in E. destruct E as [l3 [[Er Eb]|[El Eb]]].
        -- destruct l3 as [|d l3].
           ++ rewrite app_nil_r in Er. apply (repl_inside l []).
              now rewrite Er, app_nil_r.
           ++ pose proof repl_word as Hw. rewrite Er in Hw.
              apply Forall_app in Hw. destruct Hw as [_ H3].
              rewrite Eb, (word_starts (d :: l3) n') in Hr;
                [discriminate | discriminate | exact H3].
        -- apply (repl_inside l l3). now rewrite Ew, El.
    + (* and ends in [a] *)
      destruct l2 as [|c l2].
      * exfalso. simpl in Eb. rewrite Eb in Hr.
        now rewrite (word_starts repl n' repl_nonempty repl_word) in Hr.
      * left. exists (c :: l2). split; [discriminate|]. split.
        -- now rewrite Ea, El.
        -- now rewrite Eb in Hr.
  - (* the word begins at or after the replacement *)
    apply app_eq_app in E. destruct E as [l2 [[Er E]|[El En]]].
    + exfalso. destruct l as [|c l].
      * simpl in Er. apply app_eq_app in E.
        destruct E as [l3 [[Ew Eb]|[El2 Eb]]].
        -- apply (repl_inside [] l3). now rewrite Er.
        -- destruct l3 as [|d l3].
           ++ rewrite app_nil_r in El2. apply (repl_inside [] []).
              now rewrite Er, El2, app_nil_r.
           ++ pose proof repl_word as Hw. rewrite Er, El2 in Hw.
              apply Forall_app in Hw. destruct Hw as [_ H3].
              rewrite Eb, (word_starts (d :: l3) n') in Hr;
                [discriminate | discriminate | exact H3].
      * pose proof repl_word as Hw. rewrite Er in Hw.
        apply Forall_app in Hw. destruct Hw as [H1 _].
        rewrite Ea, left_ok_app in Hl by discriminate.
        rewrite <- (app_nil_l (c :: l)) in Hl.
        rewrite (word_ends [] (c :: l)) in Hl;
          [discriminate | discriminate | exact H1].
    + right. exists l2. split; [now rewrite Ea, El|].
      split; [exact En|].
      rewrite Ea, El, app_assoc in Hl.
      rewrite (left_ok_after prev (a ++ repl) l2) in Hl; [exact Hl| |].
      * intros F. apply app_eq_nil in F. tauto.
      * now apply word_ends.
Qed.


Variable w : str.
Hypothesis w_ends_word : ends_word w = true.

Lemma w_nonempty : w <> [].
Proof. intros E. rewrite E in w_ends_word. discriminate. Qed.

(** A whole word of the new text stood in the old text already, and it is
    not the word that was replaced. *)
Lemma replaced_keeps (prev : bool) (t n : str) :
  replaced w repl prev t n ->
  stands prev w' n -> stands prev w' t /\ w' <> w.
Proof.
  induction 1 as [prev t Hnone | prev a t' n' Hla Hst Hleft Hrep IH].
  - intros Hs. split; [exact Hs|]. intros E. apply Hnone. now rewrite <- E.
  - intros [a2 [b2 [E [Hl Hr]]]].
    destruct (seam prev a n' a2 b2 E Hl Hr)
      as [[l' [Hne [Ea Hs]]]|[l [Ea [En Hll]]]].
    + split.
      * exists a2, (l' ++ w ++ t'). split; [now rewrite Ea, <- !app_assoc|].
        split; [exact Hl|]. now rewrite starts_word_app.
      * intros Ew. rewrite Ew in Ea.
        assert (List.length a <= List.length a2) as Hle.
        { apply (Hleft a2 (l' ++ w ++ t')); [|exact Hl|].
          - now rewrite Ea, <- !app_assoc.
          - now rewrite starts_word_app. }
        rewrite Ea, !length_app in Hle.
        pose proof w_nonempty. destruct w; [congruence|]. simpl in Hle. lia.
    + destruct IH as [[a3 [b3 [Et [Hl3 Hr3]]]] Hneq].
      { exists l, b2. now repeat split. }
      split; [|exact Hneq].
      exists (a ++ w ++ a3), b3. split; [now rewrite Et, <- !app_assoc|].
      split; [|exact Hr3].
      rewrite app_assoc, (left_ok_after prev (a ++ w) a3); [exact Hl3| |].
      * intros F. apply app_eq_nil in F. destruct F as [_ F].
        now apply w_nonempty.
      * rewrite ends_word_app; [exact w_ends_word | exact w_nonempty].
Qed.

End Seam.

(** *** Where a whole-word pattern matches *)

Lemma ends_word_firstn (s : str) (pos : nat) :
  pos <= List.length s -> ends_word (firstn pos s) = Re.word_before s pos.
Proof.
  intros H. rewrite <- (word_before_app (firstn pos s) (skipn pos s)).
  now rewrite firstn_skipn, firstn_length_le.
Qed.

Lemma starts_word_first (w : str) :
  starts_word w = true -> exists c w1, w = c :: w1 /\ is_word c = true.
Proof. destruct w as [|c w1]; [discriminate|]. simpl. eauto. Qed.

Lemma ends_word_last (w : str) :
  ends_word w = true -> exists w1 c, w = w1 ++ [c] /\ is_word c = true.
Proof.
  destruct w as [|c w1] using rev_ind; [discriminate|].
  rewrite ends_word_snoc. eauto.
Qed.

(** A match at [i], as a decomposition of the text. *)
Lemma word_pattern_at (w s : str) (i : nat) :
  starts_word w = true -> ends_word w = true ->
  Re.matches_at (word_pattern w) s i = true <->
  exists a b, s = a ++ w ++ b /\ List.length a = i /\
              ends_word a = false /\ starts_word b = false.
Proof.
  intros Hs He. unfold Re.matches_at. split.
  - destruct (Re.ends (word_pattern w) s i) as [|j js] eqn:E; [discriminate|].
    intros _.
    assert (In j (Re.ends (word_pattern w) s i)) as Hj by (rewrite E; now left).
    apply ends_word_pattern in Hj;
      [|now apply starts_word_first | now apply ends_word_last].
    destruct Hj as [-> [Hsw [Hb Ha]]].
    assert (w <> []) as Hne by (intros F; rewrite F in Hs; discriminate).
    pose proof (startswith_length w s i Hne Hsw) as Hlen.
    apply startswith_spec in Hsw. destruct Hsw as [b Hb'].
    exists (firstn i s), b.
    assert (List.length (firstn i s) = i) as Hl by (apply firstn_length_le; lia).
    split; [now rewrite <- Hb', firstn_skipn|]. split; [exact Hl|].
    split.
    + rewrite ends_word_firstn by lia. exact Hb.
    + rewrite <- (firstn_skipn i s), Hb', app_assoc in Ha.
      replace (i + List.length w) with (List.length (firstn i s ++ w)) in Ha
        by (rewrite length_app; lia).
      now rewrite word_at_app in Ha.
  - intros [a [b [-> [<- [Ha Hb]]]]].
    unfold word_pattern. cbn [Re.ends].
    rewrite word_before_app, Ha, word_at_app.
    assert (w <> []) as Hne by (intros F; rewrite F in Hs; discriminate).
    rewrite starts_word_app, Hs by exact Hne. cbn [xorb].
    rewrite flat_map_single, ends_lit_seq.
    rewrite skipn_app, Nat.sub_diag, skipn_all. cbn [app skipn].
    assert (startswith w (w ++ b) = true) as -> by (apply startswith_spec; eauto).
    cbn [Re.ends].
    replace (List.length a + List.length w) with (List.length (a ++ w))
      by apply length_app.
    rewrite app_assoc, word_before_app, word_at_app, Hb.
    rewrite ends_word_app, He by exact Hne. reflexivity.
Qed.

Lemma scan_first (r : Re.regex) (s : str) (n pos : nat) :
  match Re.scan r s None n pos with
  | Some (st, en) =>
      forall j, pos <= j < st -> Re.matches_at r s j = false
  | None => forall j, pos <= j <= pos + n -> Re.matches_at r s j = false
  end.
Proof.
  revert pos. induction n as [|n IH]; intros pos; simpl.
  - destruct (Re.ends r s pos) as [|e es] eqn:E; simpl.
    + intros j Hj. assert (j = pos) as -> by lia.
      unfold Re.matches_at. now rewrite E.
    + intros j Hj. lia.
  - destruct (Re.ends r s pos) as [|e es] eqn:E; simpl.
    + specialize (IH (S pos)).
      destruct (Re.scan r s None n (S pos)) as [[st en]|].
      * intros j Hj. destruct (Nat.eq_dec j pos) as [->|Hne].
        -- unfold Re.matches_at. now rewrite E.
        -- apply IH. lia.
      * intros j Hj. destruct (Nat.eq_dec j pos) as [->|Hne].
        -- unfold Re.matches_at. now rewrite E.
        -- apply IH. lia.
    + intros j Hj. lia.
Qed.

Lemma stands_matches (w s : str) (pos : nat) (a2 b2 : str) :
  starts_word w = true -> ends_word w = true -> pos <= List.length s ->
  skipn pos s = a2 ++ w ++ b2 ->
  left_ok (Re.word_before s pos) a2 = true -> starts_word b2 = false ->
  Re.matches_at (word_pattern w) s (pos + List.length a2) = true.
Proof.
  intros Hs He Hpos E Hl Hr. apply word_pattern_at; [assumption..|].
  exists (firstn pos s ++ a2), b2. split; [|split; [|split]].
  - now rewrite <- app_assoc, <- E, firstn_skipn.
  - now rewrite length_app, firstn_length_le.
  - destruct a2 as [|c a2].
    + rewrite app_nil_r, ends_word_firstn by exact Hpos.
      simpl in Hl. now destruct (Re.word_before s pos).
    + rewrite ends_word_app by discriminate. simpl in Hl.
      now destruct (ends_word (c :: a2)).
  - exact Hr.
Qed.

(** What [re.sub] does with a whole-word pattern. *)
Lemma splice_replaced (w repl s : str) :
  starts_word w = true -> ends_word w = true ->
  forall fuel pos,
    pos <= List.length s -> Re.to_come s None pos <= fuel ->
    replaced w repl (Re.word_before s pos) (skipn pos s)
      (Re.splice s repl pos
         (Re.finditer_from (word_pattern w) s fuel None pos)).
Proof.
  intros Hs He.
  assert (w <> []) as Hne by (intros F; rewrite F in Hs; discriminate).
  assert (0 < List.length w) as Hlen by (destruct w; [congruence | simpl; lia]).
  induction fuel as [|f IH]; intros pos Hpos Hfuel.
  - unfold Re.to_come in Hfuel. lia.
  - cbn [Re.finditer_from].
    pose proof (scan_first (word_pattern w) s (List.length s - pos) pos) as Hfirst.
    destruct (Re.search_from (word_pattern w) s None pos) as [[st en]|] eqn:E.
    + pose proof (search_from_range _ _ _ _ _ _ E) as [Hst [Hen _]].
      pose proof (search_from_in_ends _ _ _ _ _ _ E) as Hin.
      unfold Re.search_from in E.
      destruct (pos <=? List.length s); [|discriminate]. rewrite E in Hfirst.
      assert (Re.matches_at (word_pattern w) s st = true) as Hm.
      { unfold Re.matches_at.
        now destruct (Re.ends (word_pattern w) s st); [destruct Hin|]. }
      apply ends_word_pattern in Hin;
        [|now apply starts_word_first | now apply ends_word_last].
      destruct Hin as [Een _].
      apply word_pattern_at in Hm; [|assumption..].
      destruct Hm as [a0 [b0 [Es [Ha0 [Hea Hsb]]]]].
      assert (skipn pos s = skipn pos a0 ++ w ++ b0) as Hskip.
      { rewrite Es at 1. rewrite skipn_app.
        replace (pos - List.length a0) with 0 by lia. reflexivity. }
      assert (slice s pos st = skipn pos a0) as Hslice.
      { unfold slice. rewrite Hskip.
        rewrite firstn_app, length_skipn.
        replace (st - pos - (List.length a0 - pos)) with 0 by lia.
        rewrite firstn_all2 by (rewrite length_skipn; lia).
        simpl. apply app_nil_r. }
      assert (skipn en s = b0) as Hrest.
      { rewrite Es, Een, app_assoc, skipn_app.
        rewrite skipn_all2 by (rewrite length_app; lia).
        rewrite length_app.
        replace (st + List.length w - (List.length a0 + List.length w)) with 0
          by lia.
        reflexivity. }
      assert (Re.word_before s en = true) as Hwb.
      { rewrite Es, Een, app_assoc.
        replace (st + List.length w) with (List.length (a0 ++ w))
          by (rewrite length_app; lia).
        rewrite word_before_app, ends_word_app by exact Hne. exact He. }
      assert ((st =? en) = false) as -> by (apply Nat.eqb_neq; lia).
      cbn [Re.splice]. rewrite Hslice, Hskip.
      apply replaced_one.
      * destruct (skipn pos a0) as [|c a] eqn:Ea.
        -- assert (pos = st) as ->.
           { apply (f_equal (@List.length ascii)) in Ea.
             rewrite length_skipn in Ea. simpl in Ea. lia. }
           simpl. rewrite Es, <- Ha0, word_before_app, Hea. reflexivity.
        -- simpl. rewrite <- Ea.
           rewrite <- (firstn_skipn pos a0), ends_word_app in Hea
             by (rewrite Ea; discriminate).
           now rewrite Hea.
      * exact Hsb.
      * intros a2 b2 E2 Hl Hr.
        destruct (Nat.le_gt_cases (List.length (skipn pos a0)) (List.length a2))
          as [Hle|Hgt]; [exact Hle|].
        exfalso. rewrite <- Hskip in E2.
        pose proof (stands_matches w s pos a2 b2 Hs He Hpos E2 Hl Hr) as Hm.
        rewrite Hfirst in Hm; [discriminate|].
        rewrite length_skipn in Hgt. lia.
      * rewrite <- Hrest, <- Hwb. apply IH; [lia|].
        unfold Re.to_come in *. lia.
    + cbn [Re.splice]. apply replaced_none.
      intros [a2 [b2 [E2 [Hl Hr]]]].
      unfold Re.search_from in E.
      destruct (pos <=? List.length s) eqn:Ep;
        [|apply Nat.leb_gt in Ep; lia].
      rewrite E in Hfirst.
      pose proof (stands_matches w s pos a2 b2 Hs He Hpos E2 Hl Hr) as Hm.
      rewrite Hfirst in Hm; [discriminate|].
      apply (f_equal (@List.length ascii)) in E2.
      rewrite length_skipn, !length_app in E2. lia.
Qed.

(** *** The mappings, one after the other *)

Lemma left_ok_false (a : str) : left_ok false a = negb (ends_word a).
Proof. now destruct a. Qed.

Lemma type_pattern_word (pattern replacement : string) :
  In (pattern, replacement) TYPE_MAPPINGS ->
  Re.re pattern = word_pattern (spelling pattern) /\
  starts_word (spelling pattern) = true /\ ends_word (spelling pattern) = true.
Proof.
  intros H. apply type_pattern_shape in H.
  destruct H as [Hre [[c [w [Hc Hcw]]] [w2 [d [Hd Hdw]]]]].
  split; [exact Hre|]. split.
  - now rewrite Hc.
  - now rewrite Hd, ends_word_snoc.
Qed.

(** A search succeeds exactly where the spelling stands as a whole word. *)
Lemma search_stands (pattern replacement : string) (s : str) :
  In (pattern, replacement) TYPE_MAPPINGS ->
  Re.is_some (Re.search pattern s) = true <-> stands false (spelling pattern) s.
Proof.
  intros H. destruct (type_pattern_word _ _ H) as [Hre [Hs He]].
  rewrite search_some, Hre. split.
  - intros [i [_ Hm]]. apply word_pattern_at in Hm; [|assumption..].
    destruct Hm as [a [b [E [_ [Ha Hb]]]]]. exists a, b.
    split; [exact E|]. split; [|exact Hb]. now rewrite left_ok_false, Ha.
  - intros [a [b [E [Ha Hb]]]]. exists (List.length a). split.
    + rewrite E, length_app. lia.
    + apply word_pattern_at; [assumption..|]. exists a, b.
      split; [exact E|]. split; [reflexivity|]. split; [|exact Hb].
      rewrite left_ok_false in Ha. now destruct (ends_word a).
Qed.

Lemma sub_replaced (pattern replacement : string) (s : str) :
  In (pattern, replacement) TYPE_MAPPINGS ->
  replaced (spelling pattern) (lit replacement) false s
           (Re.sub pattern (lit replacement) s).
Proof.
  intros H. destruct (type_pattern_word _ _ H) as [Hre [Hs He]].
  unfold Re.sub, Re.finditer. rewrite Hre.
  apply (splice_replaced (spelling pattern) (lit replacement) s Hs He
           (2 * List.length s + 2) 0); [lia|].
  unfold Re.to_come. lia.
Qed.

Lemma aliases_are_words :
  Forall (fun m => lit (snd m) <> []
                   /\ Forall (fun c => is_word c = true) (lit (snd m)))
         TYPE_MAPPINGS.
Proof.
  repeat constructor; try discriminate.
Qed.

Lemma spellings_hold_no_alias :
  Forall (fun m => contains alias_prefix (spelling (fst m)) = false)
         TYPE_MAPPINGS.
Proof. repeat constructor. Qed.

Lemma alias_not_in_spelling (p rp q rq : string) :
  In (p, rp) TYPE_MAPPINGS -> In (q, rq) TYPE_MAPPINGS ->
  contains (lit rq) (spelling p) = false.
Proof.
  intros Hp Hq. destruct (contains (lit rq) (spelling p)) eqn:E; [|reflexivity].
  pose proof spellings_hold_no_alias as Hs. rewrite Forall_forall in Hs.
  specialize (Hs _ Hp). cbn [fst] in Hs.
  pose proof replacements_are_aliases as Ha. rewrite Forall_forall in Ha.
  apply in_sorted_mappings in Hq. destruct (Ha _ Hq) as [Hpre _]. cbn [snd] in Hpre.
  rewrite (contains_trans _ _ _ Hpre E) in Hs. discriminate.
Qed.

(** Applying a mapping brings no spelling into the line, and takes its
    own spelling out. *)
Lemma apply_mapping_keeps_out (cur : str) (q rq p rp : string) :
  In (q, rq) TYPE_MAPPINGS -> In (p, rp) TYPE_MAPPINGS ->
  contains (lit "std::") cur = false ->
  stands false (spelling p) (fst (apply_mapping (cur, 0) (q, rq))) ->
  stands false (spelling p) cur /\ spelling p <> spelling q.
Proof.
  intros Hq Hp Hstd. unfold apply_mapping.
  destruct (Re.is_some (Re.search q cur)) eqn:Es.
  - rewrite Hstd.
    assert (fst (if str_eqb cur (Re.sub q (lit rq) cur)
                 then (Re.sub q (lit rq) cur, 0)
                 else (Re.sub q (lit rq) cur, 1))
            = Re.sub q (lit rq) cur) as ->
      by now destruct (str_eqb cur _).
    pose proof aliases_are_words as Hw. rewrite Forall_forall in Hw.
    destruct (Hw _ Hq) as [Hne Hword]. cbn [snd] in Hne, Hword.
    destruct (type_pattern_word _ _ Hq) as [_ [_ He]].
    apply (replaced_keeps (lit rq) (spelling p) Hne Hword
             (alias_not_in_spelling p rp q rq Hp Hq) (spelling q) He false).
    now apply (sub_replaced q rq).
  - cbn [fst]. intros H. split; [exact H|]. intros E. rewrite E in H.
    apply (search_stands q rq cur Hq) in H. congruence.
Qed.

Lemma fold_mapping_keeps_out (ms : list (string * string)) (cur : str)
  (c : nat) (p rp : string) :
  (forall m, In m ms -> In m TYPE_MAPPINGS) ->
  In (p, rp) TYPE_MAPPINGS ->
  contains (lit "std::") cur = false ->
  stands false (spelling p) (fst (fold_left apply_mapping ms (cur, c))) ->
  stands false (spelling p) cur /\
  forall m, In m ms -> spelling p <> spelling (fst m).
Proof.
  intros Hms Hp. revert cur c.
  induction ms as [|[q rq] ms IH]; intros cur c Hstd H.
  - split; [exact H | intros m []].
  - cbn [fold_left] in H. rewrite apply_mapping_count in H.
    assert (In (q, rq) TYPE_MAPPINGS) as Hq by (apply Hms; now left).
    assert (std_safe (lit rq) = true) as Hsafe.
    { pose proof replacements_are_std_safe as Ha. rewrite Forall_forall in Ha.
      apply in_sorted_mappings in Hq. exact (Ha _ Hq). }
    apply IH in H.
    + destruct H as [H Hrest].
      destruct (apply_mapping_keeps_out cur q rq p rp Hq Hp Hstd H) as [H1 H2].
      split; [exact H1|]. intros m [<-|Hm]; [exact H2 | now apply Hrest].
    + intros m Hm. apply Hms. now right.
    + now apply (apply_mapping_no_std cur (q, rq)).
Qed.

Lemma whole_word_at_stands (w s : str) (start : nat) :
  whole_word_at w s start -> stands false w s.
Proof.
  intros [Hs [Hlen [Hb Ha]]].
  assert (start <= List.length s) as Hle by lia.
  pose proof (ends_word_firstn s start Hle) as Hea.
  pose proof (firstn_length_le s Hle) as Hla.
  assert (s = firstn start s ++ w ++ skipn (start + List.length w) s) as E.
  { rewrite <- (firstn_skipn start s) at 1. f_equal.
    rewrite <- (firstn_skipn (List.length w) (skipn start s)) at 1. f_equal.
    - unfold slice in Hs.
      replace (start + List.length w - start) with (List.length w) in Hs by lia.
      exact Hs.
    - rewrite skipn_skipn. f_equal. lia. }
  remember (firstn start s) as a eqn:Da.
  remember (skipn (start + List.length w) s) as b eqn:Db.
  clear Da Db. exists a, b. split; [exact E|]. split.
  - now rewrite left_ok_false, Hea, Hb.
  - rewrite E, app_assoc in Ha.
    replace (start + List.length w) with (List.length (a ++ w)) in Ha
      by (rewrite length_app; lia).
    now rewrite word_at_app in Ha.
Qed.

Lemma new_line_has_no_spelling (line : str) (pattern replacement : string) :
  should_skip_line line = false ->
  In (pattern, replacement) TYPE_MAPPINGS ->
  ~ stands false (spelling pattern) (new_line_of line).
Proof.
  intros Hskip Hmap Hs. unfold new_line_of, replace_line in Hs.
  rewrite Hskip in Hs.
  apply (fold_mapping_keeps_out sorted_mappings line 0 pattern replacement)
    in Hs.
  - destruct Hs as [_ Hs].
    apply (Hs (pattern, replacement)); [|reflexivity].
    now apply in_sorted_mappings.
  - intros m Hm. now apply in_sorted_mappings.
  - exact Hmap.
  - now apply not_skipped_no_std.
Qed.

(** X14.  The rewrite is complete.  On a line that is not skipped, no key
    of [TYPE_MAPPINGS] matches the rewritten line any more: none of the
    primitive spellings is left on it as a whole word.  So a line of the new
    content on which a key still matches is a line that was skipped and
    copied as it was. *)
Theorem rewrite_leaves_no_spelling (pattern replacement : string)
  (Hmap : In (pattern, replacement) TYPE_MAPPINGS) :
  (forall line,
     should_skip_line line = false ->
     Re.search pattern (new_line_of line) = None /\
     forall start, ~ whole_word_at (spelling pattern) (new_line_of line) start)
  /\
  (forall content line',
     In line' (split_lines (fst (replace_types content))) ->
     Re.search pattern line' <> None ->
     should_skip_line line' = true /\ In line' (split_lines content)).
Proof.
  assert (Hline : forall line, should_skip_line line = false ->
                    Re.search pattern (new_line_of line) = None).
  { intros line Hskip.
    destruct (Re.search pattern (new_line_of line)) as [m|] eqn:E;
      [|reflexivity].
    exfalso. apply (new_line_has_no_spelling line pattern replacement Hskip Hmap).
    apply (search_stands pattern replacement _ Hmap). now rewrite E. }
  split.
  - intros line Hskip. split; [now apply Hline|].
    intros start Hw. apply whole_word_at_stands in Hw.
    now apply (new_line_has_no_spelling line pattern replacement Hskip Hmap).
  - intros content line' Hin Hs. rewrite replace_types_eq in Hin.
    cbn [fst] in Hin. rewrite split_new_content in Hin.
    apply in_map_iff in Hin. destruct Hin as [line [<- Hin]].
    destruct (should_skip_line line) eqn:Eskip.
    + assert (new_line_of line = line) as ->.
      { unfold new_line_of, replace_line. now rewrite Eskip. }
      now split.
    + exfalso. apply Hs. now apply Hline.
Qed.

Lemma rewrite_leaves_no_spelling_witness :
  Re.search "\bint\b"
    (new_line_of (lit "int total(signed int a, unsigned int b);")) = None.
Proof.
  assert (In ("\bint\b", "cforge_int_t") TYPE_MAPPINGS) as Hmap
    by (left; reflexivity).
  assert (should_skip_line (lit "int total(signed int a, unsigned int b);")
          = false) as Hskip by (vm_compute; reflexivity).
  exact (proj1 (proj1 (rewrite_leaves_no_spelling _ _ Hmap) _ Hskip)).
Defined.

(** *** When the rewrite does nothing *)

Lemma line_untouched_iff (line : str) :
  changes_of line = 0 <->
  should_skip_line line = true
  \/ forall pattern replacement,
       In (pattern, replacement) TYPE_MAPPINGS -> Re.search pattern line = None.
Proof.
  unfold changes_of, replace_line.
  destruct (should_skip_line line) eqn:Eskip; [cbn [snd]; tauto|].
  split.
  - intros Hz. right. intros pattern replacement Hmap.
    destruct (Re.search pattern line) as [m|] eqn:E; [|reflexivity].
    exfalso.
    assert (0 < snd (fold_left apply_mapping sorted_mappings (line, 0)));
      [|lia].
    apply (fold_mapping_alters pattern replacement).
    + now apply in_sorted_mappings.
    + pose proof replacements_are_aliases as Hall. rewrite Forall_forall in Hall.
      apply in_sorted_mappings in Hmap. exact (proj1 (Hall _ Hmap)).
    + now rewrite E.
    + now apply not_skipped_no_std.
    + now apply not_skipped_no_alias.
  - intros [F|Hnone]; [discriminate|].
    rewrite fold_no_search; [reflexivity|].
    intros [pattern replacement] Hm. apply in_sorted_mappings in Hm.
    cbn [fst]. now rewrite (Hnone _ _ Hm).
Qed.

(** X15.  The rewrite returns a content as it is exactly when there is
    nothing to replace: every line is skipped or matched by no key of
    [TYPE_MAPPINGS]. *)
Theorem unchanged_iff_nothing_to_replace (content : str) :
  fst (replace_types content) = content <->
  forall line,
    In line (split_lines content) ->
    should_skip_line line = true
    \/ forall pattern replacement,
         In (pattern, replacement) TYPE_MAPPINGS ->
         Re.search pattern line = None.
Proof.
  split.
  - intros H line Hin. apply line_untouched_iff.
    apply Contents.zero_when_unchanged in H.
    rewrite replace_types_eq in H. cbn [snd] in H.
    rewrite Contents.list_sum_zero in H. apply H. now apply in_map.
  - intros H. apply Contents.unchanged_when_zero.
    rewrite replace_types_eq. cbn [snd]. apply Contents.list_sum_zero.
    intros x Hx. apply in_map_iff in Hx. destruct Hx as [line [<- Hin]].
    apply line_untouched_iff. now apply H.
Qed.

End Completeness.

(** ** The analysis report *)

Module Report.
Import RefactorTypes.
Local Open Scope string_scope.
Local Open Scope nat_scope.
Local Open Scope list_scope.

Lemma sorted_app_l {A : Type} (R : A -> A -> Prop) (l1 l2 : list A) :
  StronglySorted R (l1 ++ l2) -> StronglySorted R l1.
Proof.
  induction l1 as [|x l1 IH]; cbn [app]; intros H; [constructor|].
  inversion H as [|? ? Hs Hall]; subst. constructor; [now apply IH|].
  apply Forall_forall. intros y Hy.
  apply (proj1 (Forall_forall _ _) Hall). apply in_or_app. now left.
Qed.

Lemma sorted_app_across {A : Type} (R : A -> A -> Prop) (l1 l2 : list A) :
  StronglySorted R (l1 ++ l2) ->
  forall x y, In x l1 -> In y l2 -> R x y.
Proof.
  induction l1 as [|a l1 IH]; cbn [app]; intros H x y Hx Hy; [destruct Hx|].
  inversion H as [|? ? Hs Hall]; subst. destruct Hx as [<-|Hx].
  - apply (proj1 (Forall_forall _ _) Hall). apply in_or_app. now right.
  - now apply IH.
Qed.

Lemma tally_of_app (results : list (string * analysis))
  (item : string * analysis) :
  tally_of (results ++ [item]) = tally_step (tally_of results) item.
Proof. unfold tally_of. now rewrite fold_left_app. Qed.

Lemma tally_step_consistent (t : tally) (item : string * analysis) :
  consistent t -> consistent (tally_step t item).
Proof.
  intros (Hb & Hd & Hn & Hall). destruct item as [filepath a].
  destruct a as [e|name bt ds ns]; cbn [tally_step]; [now repeat split|].
  destruct ((0 <? List.length bt) || (0 <? List.length ds)
            || (0 <? List.length ns)) eqn:E.
  - unfold consistent.
    cbn [total_bare_types total_declarations total_namespace
         files_with_issues].
    rewrite !map_app, !list_sum_app. cbn [map list_sum fold_right bare_count
      declarations_count namespace_count]. rewrite Hb, Hd, Hn.
    split; [lia|]. split; [lia|]. split; [lia|].
    apply Forall_app. split; [assumption|]. constructor; [|constructor].
    cbn [bare_count declarations_count namespace_count details
         bare_types_of]. split; [reflexivity|].
    apply orb_true_iff in E. destruct E as [E|E];
      [apply orb_true_iff in E; destruct E as [E|E]|];
      apply Nat.ltb_lt in E; lia.
  - apply orb_false_iff in E. destruct E as [E En].
    apply orb_false_iff in E. destruct E as [Eb Ed].
    apply Nat.ltb_ge in Eb, Ed, En.
    unfold consistent.
    cbn [total_bare_types total_declarations total_namespace
         files_with_issues].
    split; [lia|]. split; [lia|]. split; [lia|]. assumption.
Qed.

Lemma tally_of_consistent (results : list (string * analysis)) :
  consistent (tally_of results).
Proof.
  induction results as [|item results IH] using rev_ind.
  - unfold consistent. cbn. repeat split; constructor.
  - rewrite tally_of_app. now apply tally_step_consistent.
Qed.

Lemma entries_come_from_results (results : list (string * analysis))
  (f : issue_entry) :
  In f (files_with_issues (tally_of results)) ->
  In (path f, details f) results.
Proof.
  induction results as [|item results IH] using rev_ind; [intros []|].
  rewrite tally_of_app. destruct item as [filepath a].
  destruct a as [e|name bt ds ns]; cbn [tally_step].
  - intros H. apply in_or_app. left. now apply IH.
  - cbn [files_with_issues].
    destruct ((0 <? List.length bt) || (0 <? List.length ds)
              || (0 <? List.length ns)).
    + intros H. apply in_app_or in H. apply in_or_app.
      destruct H as [H|[<-|[]]]; [left; now apply IH|].
      right. now left.
    + intros H. apply in_or_app. left. now apply IH.
Qed.

Lemma entries_bounded (results : list (string * analysis)) :
  List.length (files_with_issues (tally_of results)) <= List.length results.
Proof.
  induction results as [|item results IH] using rev_ind; [cbn; lia|].
  rewrite tally_of_app, length_app. cbn [List.length].
  destruct item as [filepath a].
  destruct a as [e|name bt ds ns]; cbn [tally_step]; [lia|].
  cbn [files_with_issues].
  destruct ((0 <? List.length bt) || (0 <? List.length ds)
            || (0 <? List.length ns)); [|lia].
  rewrite length_app. cbn [List.length]. lia.
Qed.

Lemma file_block_length (f : issue_entry) :
  List.length (file_block f) <= 7.
Proof.
  unfold file_block. destruct (0 <? bare_count f); [|cbn; lia].
  cbn [List.length]. rewrite length_app, length_map, length_firstn.
  destruct (5 <? List.length (bare_types_of (details f))); cbn [List.length];
    unfold occurrence, str in *; lia.
Qed.

Lemma flat_map_length_bound {A B : Type} (f : A -> list B) (k : nat)
  (l : list A) :
  (forall x, List.length (f x) <= k) ->
  List.length (flat_map f l) <= List.length l * k.
Proof.
  intros H. induction l as [|x l IH]; cbn [flat_map List.length]; [lia|].
  rewrite length_app. specialize (H x). lia.
Qed.

(** X16.  The listing of the report shows at most twenty files, in
    non-increasing order of their number of bare types, all taken from the
    files with issues; a file with issues is left out only when twenty files
    with at least as many bare types are shown.  The whole report is at most
    152 printed texts. *)
Theorem report_lists_the_top_files (results : list (string * analysis)) :
  List.length (top_files (tally_of results)) <= 20
  /\ StronglySorted (desc bare_count) (top_files (tally_of results))
  /\ (forall f, In f (top_files (tally_of results)) ->
        In f (files_with_issues (tally_of results)))
  /\ (forall g,
        In g (files_with_issues (tally_of results)) ->
        ~ In g (top_files (tally_of results)) ->
        List.length (top_files (tally_of results)) = 20
        /\ forall f, In f (top_files (tally_of results)) ->
             bare_count g <= bare_count f)
  /\ List.length (report_texts results) <= 152.
Proof.
  set (t := tally_of results).
  set (sorted := sorted_desc bare_count (files_with_issues t)).
  assert (Hsplit : sorted = top_files t ++ skipn 20 sorted)
    by (unfold top_files; fold sorted; now rewrite firstn_skipn).
  assert (Hsorted : StronglySorted (desc bare_count)
                      (top_files t ++ skipn 20 sorted))
    by (rewrite <- Hsplit; apply SortedFacts.sorted_desc_sorted).
  assert (Hlen : List.length (top_files t) <= 20)
    by (unfold top_files; rewrite length_firstn; lia).
  split; [exact Hlen|]. split; [exact (sorted_app_l _ _ _ Hsorted)|].
  split; [|split].
  - intros f Hf.
    apply (Permutation_in _ (SortedFacts.sorted_desc_perm bare_count _)).
    fold sorted. rewrite Hsplit. apply in_or_app. now left.
  - intros g Hg Hout.
    apply (Permutation_in _
             (Permutation_sym (SortedFacts.sorted_desc_perm bare_count _)))
      in Hg.
    fold sorted in Hg. rewrite Hsplit in Hg. apply in_app_or in Hg.
    destruct Hg as [Hg|Hg]; [contradiction|]. split.
    + unfold top_files. fold sorted. rewrite length_firstn.
      destruct (Nat.le_gt_cases (List.length sorted) 20) as [Hs|Hs]; [|lia].
      rewrite skipn_all2 in Hg by exact Hs. destruct Hg.
    + intros f Hf. exact (sorted_app_across _ _ _ Hsorted f g Hf Hg).
  - unfold report_texts. cbv zeta. fold t. rewrite length_app.
    cbn [List.length].
    pose proof (flat_map_length_bound file_block 7 (top_files t)
                  file_block_length). unfold str in *. lia.
Qed.

(** X17.  The totals of the summary are the sums over the files with
    issues: a file without issue adds nothing, a failed analysis is not
    counted.  Each entry comes from a result, has at least one issue, and
    its number of bare types is the length of the list the listing reads;
    there are no more entries than results. *)
Theorem summary_agrees_with_the_entries (results : list (string * analysis)) :
  total_bare_types (tally_of results)
  = list_sum (map bare_count (files_with_issues (tally_of results)))
  /\ total_declarations (tally_of results)
     = list_sum (map declarations_count (files_with_issues (tally_of results)))
  /\ total_namespace (tally_of results)
     = list_sum (map namespace_count (files_with_issues (tally_of results)))
  /\ (forall f, In f (files_with_issues (tally_of results)) ->
        In (path f, details f) results
        /\ bare_count f = List.length (bare_types_of (details f))
        /\ 0 < bare_count f + declarations_count f + namespace_count f)
  /\ List.length (files_with_issues (tally_of results))
     <= List.length results.
Proof.
  destruct (tally_of_consistent results) as (Hb & Hd & Hn & Hall).
  repeat split; try assumption.
  - now apply entries_come_from_results.
  - now apply (proj1 (Forall_forall _ _) Hall f).
  - now apply (proj1 (Forall_forall _ _) Hall f).
  - apply entries_bounded.
Qed.

(** X18.  What one analysis adds to the tally.  A [.h] header and a file
    that cannot be read add nothing at all; any file adds at most one
    namespace issue; a content that the rewrite produced adds no bare type,
    whatever the suffix of its file. *)
Theorem what_an_analysis_adds (t : tally) (key : string) (name : str) :
  (forall content,
     tally_step t (key, analyze_file name ".h" (Text content)) = t)
  /\ (forall suffix cause,
        tally_step t (key, analyze_file name suffix (Unreadable cause)) = t)
  /\ (forall suffix read,
        total_namespace (tally_step t (key, analyze_file name suffix read))
        <= total_namespace t + 1)
  /\ (forall suffix content,
        total_bare_types
          (tally_step t
             (key, analyze_file name suffix
                     (Text (fst (replace_types content)))))
        = total_bare_types t).
Proof.
  split; [|split; [|split]].
  - intros content. unfold analyze_file, find_missing_namespace.
    change (mem ".h" [".cpp"; ".c"]) with false.
    change (mem ".h" [".cpp"; ".hpp"]) with false. cbv zeta.
    destruct (negb _); destruct t; cbn [tally_step List.length orb Nat.ltb
      Nat.leb total_bare_types total_declarations total_namespace
      files_with_issues]; now rewrite !Nat.add_0_r.
  - reflexivity.
  - intros suffix [content|cause]; cbn [analyze_file tally_step]; [|lia].
    cbn [total_namespace].
    assert (List.length (find_missing_namespace content suffix) <= 1);
      [|lia].
    unfold find_missing_namespace.
    destruct (negb _); [|cbn; lia]. destruct (mem suffix _); [|cbn; lia].
    destruct (_ || _); cbn; lia.
  - intros suffix content. cbn [analyze_file tally_step total_bare_types].
    assert (find_bare_types (fst (replace_types content)) = []) as ->.
    { unfold find_bare_types. rewrite RewriteFacts.replace_types_eq.
      cbn [fst]. rewrite RewriteFacts.split_new_content.
      apply ReFacts.flat_map_nil_all. intros [n l] Hin.
      apply DeclarationScanner.in_enumerate in Hin.
      destruct Hin as [_ Hin]. apply nth_error_In in Hin.
      apply in_map_iff in Hin. destruct Hin as [line [<- _]].
      apply Occurrences.rewritten_line_no_occurrence. }
    destruct (mem suffix [".cpp"; ".c"]); cbn [List.length]; lia.
Qed.

End Report.

(** ** The order of the mappings: longest pattern first *)

Module LongestFirst.
Import PyStrFacts ReFacts ClassifierFacts SortedFacts RewriteFacts MatchFacts.
Import Occurrences StdGuard Completeness RefactorTypes.
Local Open Scope string_scope.
Local Open Scope nat_scope.
Local Open Scope list_scope.

(** *** The order of a sorted list *)

Lemma sorted_before {A : Type} (key : A -> nat) (l : list A) (a b : A) :
  StronglySorted (desc key) l -> In a l -> In b l -> key b < key a ->
  applied_before a b l.
Proof.
  intros Hs Ha Hb Hlt. apply in_split in Hb. destruct Hb as [l1 [l3 ->]].
  apply in_app_or in Ha. destruct Ha as [Ha|[Ha|Ha]].
  - apply in_split in Ha. destruct Ha as [x [y ->]].
    exists x, y, l3. now rewrite <- app_assoc.
  - subst. lia.
  - exfalso.
    assert (desc key b a) as Hd.
    { apply (Report.sorted_app_across (desc key) (l1 ++ [b]) l3);
        [now rewrite <- app_assoc | apply in_or_app; right; now left | exact Ha]. }
    unfold desc in Hd. lia.
Qed.

Lemma filter_split {A : Type} (f : A -> bool) (l x y : list A) (a : A) :
  filter f l = x ++ a :: y ->
  exists l1 l2, l = l1 ++ a :: l2 /\ filter f l1 = x /\ filter f l2 = y.
Proof.
  revert x. induction l as [|c l IH]; intros x H; cbn [filter] in H.
  - now destruct x.
  - destruct (f c) eqn:E.
    + destruct x as [|d x]; cbn [app] in H; injection H as Hc H.
      * subst c. exists [], l. repeat split. exact H.
      * subst d. destruct (IH x H) as [l1 [l2 [-> [H1 H2]]]].
        exists (c :: l1), l2. cbn [filter app]. rewrite E, H1. now repeat split.
    + destruct (IH x H) as [l1 [l2 [-> [H1 H2]]]].
      exists (c :: l1), l2. cbn [filter app]. rewrite E. now repeat split.
Qed.

Lemma stable_before {A : Type} (key : A -> nat) (l : list A) (a b : A) :
  applied_before a b l -> key a = key b ->
  applied_before a b (sorted_desc key l).
Proof.
  intros [l1 [l2 [l3 ->]]] Hk.
  pose proof (sorted_desc_stable key (key a) (l1 ++ a :: l2 ++ b :: l3)) as H.
  unfold with_key in H at 2. rewrite filter_app in H. cbn [filter] in H.
  rewrite Nat.eqb_refl, filter_app in H. cbn [filter] in H.
  rewrite <- Hk, Nat.eqb_refl in H. unfold with_key in H.
  apply filter_split in H. destruct H as [x [y [E [_ Hy]]]].
  apply filter_split in Hy. destruct Hy as [y1 [y2 [-> _]]].
  exists x, y1, y2. exact E.
Qed.


(** *** [replaced] is a function of the text *)

Lemma app_same_length {A : Type} (a a2 x y : list A) :
  a ++ x = a2 ++ y -> List.length a = List.length a2 -> a = a2 /\ x = y.
Proof.
  revert a2. induction a as [|c a IH]; intros [|d a2] E Hl;
    try discriminate Hl.
  - now split.
  - cbn [app] in E. injection E as -> E. cbn [List.length] in Hl.
    destruct (IH a2 E) as [-> ->]; [lia | now split].
Qed.

Section Word.
Variables w r : str.
Hypothesis w_starts : starts_word w = true.
Hypothesis w_ends : ends_word w = true.

Lemma word_nonempty : w <> [].
Proof. intros E. rewrite E in w_starts. discriminate. Qed.

Lemma replaced_functional (prev : bool) (t n1 n2 : str) :
  replaced w r prev t n1 -> replaced w r prev t n2 -> n1 = n2.
Proof.
  intros H1. revert n2.
  induction H1 as [prev t Hnone | prev a t' n' Hla Hst Hmin Hrep IH];
    intros n2 H2.
  - inversion H2 as [? ? Hnone2 | ? a2 t2 n2' Hla2 Hst2 Hmin2 Hrep2];
      subst; [reflexivity|].
    exfalso. apply Hnone. exists a2, t2. now repeat split.
  - inversion H2 as [? ? Hnone2 | ? a2 t2 n2' Hla2 Hst2 Hmin2 Hrep2 Ep Et];
      subst.
    + exfalso. apply Hnone2. exists a, t'. now repeat split.
    + assert (List.length a = List.length a2) as Hlen.
      { apply Nat.le_antisymm.
        - now apply (Hmin a2 t2).
        - now apply (Hmin2 a t'). }
      destruct (app_same_length a a2 _ _ (eq_sym Et) Hlen) as [<- E2].
      apply app_inv_head in E2. subst t2. f_equal. f_equal. now apply IH.
Qed.

(** A text that does not begin with a word character is rewritten alike
    after a word character and at the start of a line. *)
Lemma replaced_after_word (t n : str) :
  starts_word t = false -> replaced w r false t n -> replaced w r true t n.
Proof.
  intros Hst H.
  inversion H as [? ? Hnone | ? a t' n' Hla Hst' Hmin Hrep]; subst.
  - apply replaced_none. intros [a [b [E [Hl Hr]]]]. apply Hnone.
    exists a, b. split; [exact E|]. split; [|exact Hr].
    destruct a; [discriminate Hl | exact Hl].
  - apply replaced_one.
    + destruct a as [|c a]; [|exact Hla]. cbn [app] in Hst.
      rewrite starts_word_app, w_starts in Hst by exact word_nonempty.
      discriminate.
    + exact Hst'.
    + intros a2 b2 E Hl Hr. apply (Hmin a2 b2 E); [|exact Hr].
      destruct a2; [discriminate Hl | exact Hl].
    + exact Hrep.
Qed.

Lemma left_ok_tail (prev : bool) (a t : str) :
  left_ok prev (a ++ w ++ t) = true -> t <> [] /\ left_ok true t = true.
Proof.
  intros H. destruct t as [|c t].
  - rewrite app_nil_r, left_ok_app, w_ends in H by exact word_nonempty.
    discriminate.
  - split; [discriminate|]. rewrite app_assoc, left_ok_app in H by discriminate.
    exact H.
Qed.

Lemma left_ok_true (t : str) :
  left_ok true t = true <-> t <> [] /\ ends_word t = false.
Proof.
  destruct t as [|c t]; cbn [left_ok negb].
  - split; [discriminate | intros [H _]; congruence].
  - split.
    + intros H. split; [discriminate|]. now destruct (ends_word (c :: t)).
    + intros [_ ->]. reflexivity.
Qed.

(** The rewrite keeps the end of a text that does not end with a word
    character, and the start of one that does not begin with one. *)
Lemma replaced_left_ok (prev : bool) (t n : str) :
  r <> [] ->
  replaced w r prev t n -> left_ok prev t = true -> left_ok prev n = true.
Proof.
  intros Hr. induction 1 as [prev t Hnone | prev a t' n' Hla Hst Hmin Hrep IH].
  - trivial.
  - intros H. apply left_ok_tail in H. destruct H as [_ H].
    apply IH in H. apply left_ok_true in H. destruct H as [Hne He].
    rewrite app_assoc, left_ok_app by exact Hne. now rewrite He.
Qed.

Lemma replaced_starts (prev : bool) (t n : str) :
  replaced w r prev t n -> starts_word t = false -> starts_word n = false.
Proof.
  intros H Hst.
  inversion H as [? ? Hnone | ? a t' n' Hla Hst' Hmin Hrep]; subst;
    [exact Hst|].
  destruct a as [|c a]; [|exact Hst]. cbn [app] in Hst.
  rewrite starts_word_app, w_starts in Hst by exact word_nonempty.
  discriminate.
Qed.

End Word.


(** *** Rewriting around a word that no match can touch *)

Section Around.
Variables w r mid : str.
Hypothesis w_starts : starts_word w = true.
Hypothesis w_ends : ends_word w = true.
Hypothesis mid_nonempty : mid <> [].
Hypothesis mid_word : Forall (fun c => is_word c = true) mid.
Hypothesis mid_not_in : contains mid w = false.

Lemma after_mid (prev : bool) (p l : str) :
  left_ok prev (p ++ mid ++ l) = left_ok true l.
Proof.
  rewrite app_assoc. apply left_ok_after.
  - intros F. apply app_eq_nil in F. tauto.
  - now apply word_ends.
Qed.

(** The text before an inert word and the text after it are rewritten
    each on its own. *)
Lemma replaced_around (prev : bool) (p p' t t' : str) :
  replaced w r prev p p' -> left_ok prev p = true ->
  replaced w r true t t' ->
  replaced w r prev (p ++ mid ++ t) (p' ++ mid ++ t').
Proof.
  intros Hp. revert t t'.
  induction Hp as [prev p Hnone | prev a p1 n1 Hla Hst Hmin Hrep IH];
    intros t t' Hleft Ht.
  - inversion Ht as [? ? Hnone2 | ? a t1 n1 Hla Hst Hmin Hrep]; subst.
    + apply replaced_none. intros [a2 [b2 [E [Hl Hr]]]].
      destruct (seam mid w mid_nonempty mid_word mid_not_in prev p t' a2 b2
                  E Hl Hr) as [[l' [Hne [Ea Hs]]]|[l [Ea [En Hll]]]].
      * apply Hnone. exists a2, l'. now repeat split.
      * apply Hnone2. exists l, b2. now repeat split.
    + replace (p ++ mid ++ a ++ w ++ t1) with ((p ++ mid ++ a) ++ w ++ t1)
        by now rewrite <- !app_assoc.
      replace (p ++ mid ++ a ++ r ++ n1) with ((p ++ mid ++ a) ++ r ++ n1)
        by now rewrite <- !app_assoc.
      apply replaced_one.
      * now rewrite after_mid.
      * exact Hst.
      * intros a2 b2 E Hl Hr. rewrite <- !app_assoc in E.
        destruct (seam mid w mid_nonempty mid_word mid_not_in prev p
                    (a ++ w ++ t1) a2 b2 E Hl Hr)
          as [[l' [Hne [Ea Hs]]]|[l [Ea [En Hll]]]].
        -- exfalso. apply Hnone. exists a2, l'. now repeat split.
        -- rewrite Ea, !length_app.
           pose proof (Hmin l b2 En Hll Hr). lia.
      * exact Hrep.
  - destruct (left_ok_tail w w_starts w_ends prev a p1 Hleft) as [Hne Hl1].
    rewrite <- !app_assoc.
    apply replaced_one.
    + exact Hla.
    + now rewrite starts_word_app.
    + intros a2 b2 E Hl Hr.
      replace (a ++ w ++ p1 ++ mid ++ t) with ((a ++ w ++ p1) ++ mid ++ t) in E
        by now rewrite <- !app_assoc.
      destruct (seam mid w mid_nonempty mid_word mid_not_in prev
                  (a ++ w ++ p1) t a2 b2 E Hl Hr)
        as [[l' [Hne' [Ea Hs]]]|[l [Ea [En Hll]]]].
      * now apply (Hmin a2 l').
      * rewrite Ea, !length_app. lia.
    + now apply IH.
Qed.

End Around.


(** *** Rewriting around an occurrence of the word itself *)

Section AtWord.
Variables w r : str.
Hypothesis w_starts : starts_word w = true.
Hypothesis w_ends : ends_word w = true.
(** No proper end of [w] is a start of [w]. *)
Hypothesis w_no_border :
  forall l l2 l3 : str, w = l ++ l2 -> w = l2 ++ l3 -> l = [] \/ l2 = [].

(** An occurrence that begins before [p] ends in [p]. *)
Lemma occurrence_before (p t a2 b2 : str) :
  p ++ w ++ t = a2 ++ w ++ b2 -> List.length a2 < List.length p ->
  exists l2, p = a2 ++ w ++ l2 /\ b2 = l2 ++ w ++ t.
Proof.
  intros E Hlt. apply app_eq_app in E.
  destruct E as [l [[Ep E]|[Ea E]]];
    [|rewrite Ea, length_app in Hlt; lia].
  assert (l <> []) as Hl.
  { intros F. rewrite F, app_nil_r in Ep. rewrite Ep in Hlt. lia. }
  symmetry in E. apply app_eq_app in E.
  destruct E as [l2 [[El Eb]|[Ew E]]].
  - exists l2. now rewrite Ep, El.
  - destruct l2 as [|c l2].
    + rewrite app_nil_r in Ew. cbn [app] in E. exists [].
      rewrite app_nil_r. cbn [app]. now rewrite Ep, <- Ew, <- E.
    + exfalso. apply app_eq_app in E.
      destruct E as [l3 [[E1 E2]|[E1 E2]]].
      * destruct (w_no_border l (c :: l2) l3 Ew E1); [tauto | discriminate].
      * apply (f_equal (@List.length ascii)) in Ew, E1.
        rewrite !length_app in *. cbn [List.length] in *.
        destruct l; [congruence|]. cbn [List.length] in *. lia.
Qed.

Lemma replaced_at_word (prev : bool) (p p' t t' : str) :
  replaced w r prev p p' -> left_ok prev p = true ->
  starts_word t = false -> replaced w r true t t' ->
  replaced w r prev (p ++ w ++ t) (p' ++ r ++ t').
Proof.
  intros Hp. revert t t'.
  induction Hp as [prev p Hnone | prev a p1 n1 Hla Hst Hmin Hrep IH];
    intros t t' Hleft Hstt Ht.
  - apply replaced_one; [exact Hleft | exact Hstt | | exact Ht].
    intros a2 b2 E Hl Hr.
    destruct (Nat.le_gt_cases (List.length p) (List.length a2)) as [H|H];
      [exact H|].
    exfalso. destruct (occurrence_before p t a2 b2 E H) as [l2 [Ep Eb]].
    apply Hnone. exists a2, l2. split; [exact Ep|]. split; [exact Hl|].
    destruct l2 as [|c l2]; [|now rewrite Eb in Hr].
    cbn [app] in Eb. rewrite Eb, starts_word_app, w_starts in Hr;
      [discriminate | exact (word_nonempty w w_starts)].
  - destruct (left_ok_tail w w_starts w_ends prev a p1 Hleft) as [Hne Hl1].
    rewrite <- !app_assoc.
    apply replaced_one.
    + exact Hla.
    + now rewrite starts_word_app.
    + intros a2 b2 E Hl Hr.
      destruct (Nat.le_gt_cases (List.length a) (List.length a2)) as [H|H];
        [exact H|].
      replace (a ++ w ++ p1 ++ w ++ t) with ((a ++ w ++ p1) ++ w ++ t) in E
        by now rewrite <- !app_assoc.
      destruct (occurrence_before (a ++ w ++ p1) t a2 b2 E) as [l2 [Ep Eb]].
      { rewrite length_app. lia. }
      apply (Hmin a2 l2 Ep Hl).
      destruct l2 as [|c l2]; [|now rewrite Eb in Hr].
      cbn [app] in Eb. rewrite Eb, starts_word_app, w_starts in Hr;
        [discriminate | exact (word_nonempty w w_starts)].
    + now apply IH.
Qed.

End AtWord.

(** *** Rewriting after the text [ x;] *)

Section AfterName.
Variables w r : str.
Hypothesis w_starts : starts_word w = true.
Hypothesis w_not_x : startswith (lit "x") w = false.

(** No occurrence of [w] begins in [ x;]. *)
Lemma occurrence_after_name (prev : bool) (t a2 b2 : str) :
  lit " x;" ++ t = a2 ++ w ++ b2 -> left_ok prev a2 = true ->
  exists l, a2 = lit " x;" ++ l /\ t = l ++ w ++ b2 /\ left_ok false l = true.
Proof.
  intros E Hl. destruct (starts_word_first w w_starts) as [c [w1 [Ew Hc]]].
  rewrite Ew in E, w_not_x.
  destruct a2 as [|c0 [|c1 [|c2 l]]]; cbn in E.
  - exfalso. injection E as E _. subst c. discriminate.
  - exfalso. injection E as _ E _. subst c. cbn in w_not_x.
    discriminate.
  - exfalso. injection E as _ E _. subst c1. discriminate.
  - injection E as <- <- <- E. exists l. split; [reflexivity|].
    split; [now rewrite Ew|].
    destruct l as [|d l]; [reflexivity|].
    change (left_ok prev ((lit " x;") ++ d :: l) = true) in Hl.
    now rewrite left_ok_app in Hl by discriminate.
Qed.

Lemma replaced_after_name (prev : bool) (t t' : str) :
  replaced w r false t t' ->
  replaced w r prev (lit " x;" ++ t) (lit " x;" ++ t').
Proof.
  intros Ht. inversion Ht as [? ? Hnone | ? a t1 n1 Hla Hst Hmin Hrep]; subst.
  - apply replaced_none. intros [a2 [b2 [E [Hl Hr]]]].
    destruct (occurrence_after_name prev t' a2 b2 E Hl) as [l [_ [Et Hll]]].
    apply Hnone. exists l, b2. now repeat split.
  - rewrite (app_assoc _ a (w ++ t1)), (app_assoc _ a (r ++ n1)).
    apply replaced_one.
    + destruct a as [|c a]; [reflexivity|].
      rewrite left_ok_app by discriminate. exact Hla.
    + exact Hst.
    + intros a2 b2 E Hl Hr. rewrite <- app_assoc in E.
      destruct (occurrence_after_name prev _ a2 b2 E Hl) as [l [Ea [Et Hll]]].
      rewrite Ea, !length_app. pose proof (Hmin l b2 Et Hll Hr). lia.
    + exact Hrep.
Qed.

End AfterName.


(** *** [re.sub] with a key of [TYPE_MAPPINGS] *)

Lemma sub_is_replaced (pattern replacement : string) (s n : str) :
  In (pattern, replacement) TYPE_MAPPINGS ->
  replaced (spelling pattern) (lit replacement) false s n ->
  Re.sub pattern (lit replacement) s = n.
Proof.
  intros H Hr.
  exact (replaced_functional _ _ _ _ _ _ (sub_replaced _ _ s H) Hr).
Qed.

Lemma step_is_sub (cur : str) (c : nat) (pattern replacement : string) :
  contains (lit "std::") cur = false ->
  fst (apply_mapping (cur, c) (pattern, replacement))
  = Re.sub pattern (lit replacement) cur.
Proof.
  intros Hstd. unfold apply_mapping.
  destruct (Re.is_some (Re.search pattern cur)) eqn:E.
  - rewrite Hstd. now destruct (str_eqb cur _).
  - cbn [fst]. unfold Re.sub. now rewrite finditer_none by exact E.
Qed.

Lemma fold_from_zero (ms : list (string * string)) (cur : str) (c : nat) :
  fst (fold_left apply_mapping ms (cur, c))
  = fst (fold_left apply_mapping ms (cur, 0)).
Proof.
  replace c with (c + 0) by lia. now rewrite fold_mapping_shift.
Qed.

Lemma fold_step (pattern replacement : string) (ms : list (string * string))
  (cur : str) (c : nat) :
  contains (lit "std::") cur = false ->
  fst (fold_left apply_mapping ((pattern, replacement) :: ms) (cur, c))
  = fst (fold_left apply_mapping ms (Re.sub pattern (lit replacement) cur, 0)).
Proof.
  intros Hstd. cbn [fold_left].
  rewrite <- (step_is_sub cur c pattern replacement Hstd).
  destruct (apply_mapping (cur, c) (pattern, replacement)) as [n c'].
  cbn [fst]. apply fold_from_zero.
Qed.

Lemma sub_no_std (pattern replacement : string) (cur : str) :
  In (pattern, replacement) TYPE_MAPPINGS ->
  contains (lit "std::") cur = false ->
  contains (lit "std::") (Re.sub pattern (lit replacement) cur) = false.
Proof.
  intros H Hstd. rewrite <- (step_is_sub cur 0 pattern replacement Hstd).
  apply apply_mapping_no_std; [|exact Hstd].
  pose proof replacements_are_std_safe as Ha. rewrite Forall_forall in Ha.
  apply in_sorted_mappings in H. exact (Ha _ H).
Qed.

Lemma no_std_parts (a s b : str) :
  contains (lit "std::") (a ++ s ++ b) = false ->
  contains (lit "std::") s = false.
Proof.
  intros H. destruct (contains (lit "std::") s) eqn:E; [|reflexivity].
  now rewrite (contains_app _ a s b E) in H.
Qed.

Lemma not_skipped_parts (a s b : str) :
  should_skip_line (a ++ s ++ b) = false -> should_skip_line s = false.
Proof.
  intros H. destruct (should_skip_line s) eqn:E; [|reflexivity].
  assert (should_skip_line (a ++ s ++ b) = true); [|congruence].
  apply should_skip_line_iff. apply should_skip_line_iff in E.
  destruct E as [[m [Hm Hc]]|[c [Hs Hc]]].
  - left. exists m. split; [exact Hm|]. now apply contains_app.
  - right. exists c. split; [exact Hs|]. now apply contains_app.
Qed.

Lemma spellings_do_not_start_with_x :
  Forall (fun m => startswith (lit "x") (spelling (fst m)) = false)
         TYPE_MAPPINGS.
Proof. repeat constructor. Qed.

Lemma no_border_check (w : str) :
  forallb (fun k => negb (str_eqb (firstn k w)
                                  (skipn (List.length w - k) w)))
          (seq 1 (List.length w - 1)) = true ->
  forall l l2 l3 : str, w = l ++ l2 -> w = l2 ++ l3 -> l = [] \/ l2 = [].
Proof.
  intros Hc l l2 l3 E1 E2.
  destruct l as [|c l]; [now left|]. destruct l2 as [|d l2]; [now right|].
  exfalso. rewrite forallb_forall in Hc.
  specialize (Hc (List.length (d :: l2))).
  assert (List.length w = List.length (c :: l) + List.length (d :: l2)) as Hl
    by (rewrite E1 at 1; apply length_app).
  assert (firstn (List.length (d :: l2)) w = d :: l2) as Hf.
  { rewrite E2 at 1. rewrite firstn_app, Nat.sub_diag, firstn_all.
    cbn [firstn]. apply app_nil_r. }
  assert (skipn (List.length w - List.length (d :: l2)) w = d :: l2) as Hs.
  { replace (List.length w - List.length (d :: l2))
      with (List.length (c :: l)) by lia.
    rewrite E1 at 1. rewrite skipn_app, Nat.sub_diag, skipn_all.
    reflexivity. }
  rewrite Hf, Hs, str_eqb_refl in Hc. cbn [negb] in Hc.
  assert (false = true); [|discriminate]. apply Hc. apply in_seq.
  cbn [List.length] in *. lia.
Qed.

Lemma sub_around (q rq pm rm : string) (p t : str) :
  In (q, rq) TYPE_MAPPINGS -> In (pm, rm) TYPE_MAPPINGS ->
  left_ok false p = true -> starts_word t = false ->
  Re.sub q (lit rq) (p ++ lit rm ++ t)
  = Re.sub q (lit rq) p ++ lit rm ++ Re.sub q (lit rq) t.
Proof.
  intros Hq Hm Hl Hs. apply sub_is_replaced; [exact Hq|].
  destruct (type_pattern_word _ _ Hq) as [_ [Hws Hwe]].
  pose proof aliases_are_words as Hw. rewrite Forall_forall in Hw.
  destruct (Hw _ Hm) as [Hne Hword]. cbn [snd] in Hne, Hword.
  apply replaced_around; try assumption.
  - exact (alias_not_in_spelling q rq pm rm Hq Hm).
  - now apply sub_replaced.
  - apply replaced_after_word; [exact Hws | exact Hs | now apply sub_replaced].
Qed.

Lemma sub_after_name (q rq : string) (t : str) :
  In (q, rq) TYPE_MAPPINGS ->
  Re.sub q (lit rq) (lit " x;" ++ t) = lit " x;" ++ Re.sub q (lit rq) t.
Proof.
  intros Hq. apply sub_is_replaced; [exact Hq|].
  destruct (type_pattern_word _ _ Hq) as [_ [Hws Hwe]].
  pose proof spellings_do_not_start_with_x as Hx. rewrite Forall_forall in Hx.
  apply replaced_after_name; [exact Hws | exact (Hx _ Hq) |].
  now apply sub_replaced.
Qed.

Lemma sub_keeps_left_ok (q rq : string) (p : str) :
  In (q, rq) TYPE_MAPPINGS ->
  left_ok false p = true -> left_ok false (Re.sub q (lit rq) p) = true.
Proof.
  intros Hq. destruct (type_pattern_word _ _ Hq) as [_ [Hws Hwe]].
  pose proof aliases_are_words as Hw. rewrite Forall_forall in Hw.
  destruct (Hw _ Hq) as [Hne _]. cbn [snd] in Hne.
  apply (replaced_left_ok (spelling q) (lit rq) Hws Hwe false p _ Hne).
  now apply sub_replaced.
Qed.

Lemma sub_keeps_start (q rq : string) (t : str) :
  In (q, rq) TYPE_MAPPINGS ->
  starts_word t = false -> starts_word (Re.sub q (lit rq) t) = false.
Proof.
  intros Hq. destruct (type_pattern_word _ _ Hq) as [_ [Hws Hwe]].
  apply (replaced_starts (spelling q) (lit rq) Hws false t).
  now apply sub_replaced.
Qed.


(** *** The loop over the mappings, around an alias and after [ x;] *)

Lemma fold_around (pm rm : string) (ms : list (string * string)) :
  (forall m, In m ms -> In m TYPE_MAPPINGS) ->
  In (pm, rm) TYPE_MAPPINGS ->
  forall (p t : str) (c : nat),
    contains (lit "std::") (p ++ lit rm ++ t) = false ->
    left_ok false p = true -> starts_word t = false ->
    fst (fold_left apply_mapping ms (p ++ lit rm ++ t, c))
    = fst (fold_left apply_mapping ms (p, 0)) ++ lit rm
      ++ fst (fold_left apply_mapping ms (t, 0)).
Proof.
  intros Hms Hm. induction ms as [|[q rq] ms IH]; intros p t c Hstd Hl Hs;
    [reflexivity|].
  assert (In (q, rq) TYPE_MAPPINGS) as Hq by (apply Hms; now left).
  pose proof (no_std_parts [] p (lit rm ++ t) Hstd) as Hp.
  assert (contains (lit "std::") t = false) as Ht.
  { apply (no_std_parts (p ++ lit rm) t []).
    now rewrite app_nil_r, <- app_assoc. }
  rewrite !fold_step by assumption.
  rewrite (sub_around q rq pm rm p t Hq Hm Hl Hs).
  apply IH.
  - intros m Hin. apply Hms. now right.
  - rewrite <- (sub_around q rq pm rm p t Hq Hm Hl Hs).
    now apply sub_no_std.
  - now apply sub_keeps_left_ok.
  - now apply sub_keeps_start.
Qed.

Lemma fold_after_name (ms : list (string * string)) :
  (forall m, In m ms -> In m TYPE_MAPPINGS) ->
  forall (t : str) (c : nat),
    contains (lit "std::") (lit " x;" ++ t) = false ->
    fst (fold_left apply_mapping ms (lit " x;" ++ t, c))
    = lit " x;" ++ fst (fold_left apply_mapping ms (t, 0)).
Proof.
  intros Hms. induction ms as [|[q rq] ms IH]; intros t c Hstd;
    [reflexivity|].
  assert (In (q, rq) TYPE_MAPPINGS) as Hq by (apply Hms; now left).
  assert (contains (lit "std::") t = false) as Ht.
  { apply (no_std_parts (lit " x;") t []). now rewrite app_nil_r. }
  rewrite !fold_step by assumption.
  rewrite (sub_after_name q rq t Hq). apply IH.
  - intros m Hin. apply Hms. now right.
  - rewrite <- (sub_after_name q rq t Hq). now apply sub_no_std.
Qed.

Lemma longest_is_first :
  exists ms,
    sorted_mappings = ("\bunsigned long long\b", "cforge_ulong_t") :: ms.
Proof. eexists. vm_compute. reflexivity. Qed.

Lemma ulong_mapping :
  In ("\bunsigned long long\b", "cforge_ulong_t") TYPE_MAPPINGS.
Proof. unfold TYPE_MAPPINGS. cbn [In]. tauto. Qed.

Lemma sub_at_ulong (p t : str) :
  left_ok false p = true -> starts_word t = false ->
  Re.sub "\bunsigned long long\b" (lit "cforge_ulong_t")
    (p ++ lit "unsigned long long" ++ t)
  = Re.sub "\bunsigned long long\b" (lit "cforge_ulong_t") p
    ++ lit "cforge_ulong_t"
    ++ Re.sub "\bunsigned long long\b" (lit "cforge_ulong_t") t.
Proof.
  intros Hl Hs. pose proof ulong_mapping as Hm.
  apply sub_is_replaced; [exact Hm|].
  destruct (type_pattern_word _ _ Hm) as [_ [Hws Hwe]].
  change (lit "unsigned long long") with (spelling "\bunsigned long long\b").
  apply replaced_at_word; try assumption.
  - apply no_border_check. vm_compute. reflexivity.
  - now apply sub_replaced.
  - apply replaced_after_word; [exact Hws | exact Hs | now apply sub_replaced].
Qed.

(** Where [unsigned long long] stands as a whole word on a line that is not
    skipped, the new line has [cforge_ulong_t] in its place, between the
    new line of what stands before and the new line of what follows. *)
Lemma compound_in_place (before_text rest : str) :
  should_skip_line (before_text ++ lit "unsigned long long" ++ rest) = false ->
  ends_word before_text = false -> starts_word rest = false ->
  new_line_of (before_text ++ lit "unsigned long long" ++ rest)
  = new_line_of before_text ++ lit "cforge_ulong_t" ++ new_line_of rest.
Proof.
  intros Hskip He Hs.
  assert (left_ok false before_text = true) as Hl
    by (rewrite left_ok_false; now rewrite He).
  pose proof (not_skipped_parts [] before_text _ Hskip) as Hskip1.
  assert (should_skip_line rest = false) as Hskip2.
  { apply (not_skipped_parts (before_text ++ lit "unsigned long long") rest []).
    now rewrite app_nil_r, <- app_assoc. }
  pose proof (not_skipped_no_std _ Hskip) as Hstd.
  pose proof (not_skipped_no_std _ Hskip1) as Hstd1.
  pose proof (not_skipped_no_std _ Hskip2) as Hstd2.
  pose proof ulong_mapping as Hm.
  unfold new_line_of, replace_line. rewrite Hskip, Hskip1, Hskip2.
  destruct longest_is_first as [ms Ems].
  assert (forall m, In m ms -> In m TYPE_MAPPINGS) as Hms.
  { intros m Hin. apply in_sorted_mappings. rewrite Ems. now right. }
  rewrite Ems, !fold_step by assumption.
  rewrite (sub_at_ulong before_text rest Hl Hs).
  apply (fold_around _ _ ms Hms Hm).
  - rewrite <- (sub_at_ulong before_text rest Hl Hs). now apply sub_no_std.
  - now apply sub_keeps_left_ok.
  - now apply sub_keeps_start.
Qed.

Lemma new_line_after_name (t : str) :
  should_skip_line (lit " x;" ++ t) = false ->
  new_line_of (lit " x;" ++ t) = lit " x;" ++ new_line_of t.
Proof.
  intros Hskip.
  assert (should_skip_line t = false) as Hskip2.
  { apply (not_skipped_parts (lit " x;") t []). now rewrite app_nil_r. }
  unfold new_line_of, replace_line. rewrite Hskip, Hskip2.
  apply fold_after_name.
  - intros m. apply in_sorted_mappings.
  - now apply not_skipped_no_std.
Qed.

Lemma declaration_in_place (before_text after_text : str) :
  should_skip_line (before_text ++ lit "unsigned long long x;" ++ after_text)
  = false ->
  ends_word before_text = false ->
  new_line_of (before_text ++ lit "unsigned long long x;" ++ after_text)
  = new_line_of before_text ++ lit "cforge_ulong_t x;"
    ++ new_line_of after_text.
Proof.
  intros Hskip He.
  change (lit "unsigned long long x;")
    with (lit "unsigned long long" ++ lit " x;") in *.
  change (lit "cforge_ulong_t x;") with (lit "cforge_ulong_t" ++ lit " x;").
  rewrite <- !app_assoc in *.
  rewrite compound_in_place; [|exact Hskip | exact He | reflexivity].
  rewrite new_line_after_name; [reflexivity|].
  apply (not_skipped_parts (before_text ++ lit "unsigned long long")
           (lit " x;" ++ after_text) []).
  now rewrite app_nil_r, <- !app_assoc.
Qed.


(** The new line of a line that is not skipped is what [re.sub] makes of
    it with each mapping in turn, in the order of [sorted_mappings]. *)
Lemma fold_is_subs (ms : list (string * string)) :
  (forall m, In m ms -> In m TYPE_MAPPINGS) ->
  forall (cur : str) (c : nat),
    contains (lit "std::") cur = false ->
    fst (fold_left apply_mapping ms (cur, c))
    = fold_left (fun s m => Re.sub (fst m) (lit (snd m)) s) ms cur.
Proof.
  intros Hms. induction ms as [|[q rq] ms IH]; intros cur c Hstd;
    [reflexivity|].
  assert (In (q, rq) TYPE_MAPPINGS) as Hq by (apply Hms; now left).
  rewrite fold_step by exact Hstd. cbn [fold_left fst snd]. apply IH.
  - intros m Hin. apply Hms. now right.
  - now apply sub_no_std.
Qed.

(** C4, as amended.  The mappings are applied sorted by the length of the
    pattern text, longest first, items of equal length in the order of
    [TYPE_MAPPINGS]: the engine runs through [sorted_mappings], so that a
    longer pattern is applied before every shorter one, and the new line is
    what [re.sub] makes of the line with each mapping in that order.
    Consequently, on a line that is not skipped, a text
    [unsigned long long x;] that no word character precedes becomes
    [cforge_ulong_t x;], between the new line of what stands before it and
    the new line of what follows it; no shorter pattern has touched it.
    With the mappings in the order of [TYPE_MAPPINGS], [unsigned int x;]
    would become [unsigned cforge_int_t x;]: it becomes [cforge_uint_t x;]. *)
Theorem longest_pattern_first :
  (Permutation sorted_mappings TYPE_MAPPINGS /\
   StronglySorted (desc pattern_len) sorted_mappings /\
   (forall k, with_key pattern_len k sorted_mappings
              = with_key pattern_len k TYPE_MAPPINGS) /\
   hd_error sorted_mappings
   = Some ("\bunsigned long long\b", "cforge_ulong_t")) /\
  (forall m1 m2,
     In m1 TYPE_MAPPINGS -> In m2 TYPE_MAPPINGS ->
     pattern_len m2 < pattern_len m1 \/
     (pattern_len m2 = pattern_len m1 /\ applied_before m1 m2 TYPE_MAPPINGS) ->
     applied_before m1 m2 sorted_mappings) /\
  (forall line changes,
     should_skip_line line = false ->
     replace_line line changes
     = fold_left apply_mapping sorted_mappings (line, changes) /\
     new_line_of line
     = fold_left (fun s m => Re.sub (fst m) (lit (snd m)) s)
                 sorted_mappings line) /\
  (forall before_text after_text,
     should_skip_line
       (before_text ++ lit "unsigned long long x;" ++ after_text) = false ->
     ends_word before_text = false ->
     new_line_of (before_text ++ lit "unsigned long long x;" ++ after_text)
     = new_line_of before_text ++ lit "cforge_ulong_t x;"
       ++ new_line_of after_text) /\
  (forall changes,
     replace_line (lit "unsigned long long x;") changes
     = (lit "cforge_ulong_t x;", changes + 1) /\
     replace_line (lit "unsigned int x;") changes
     = (lit "cforge_uint_t x;", changes + 1) /\
     fst (fold_left apply_mapping TYPE_MAPPINGS (lit "unsigned int x;", changes))
     = lit "unsigned cforge_int_t x;") /\
  replace_types (lit "unsigned long long x;") = (lit "cforge_ulong_t x;", 1).
Proof.
  split; [|split; [|split; [|split; [|split]]]];
    [| | | | |vm_compute; reflexivity].
  - split; [apply sorted_desc_perm|].
    split; [apply sorted_desc_sorted|].
    split; [intros k; apply sorted_desc_stable | reflexivity].
  - intros m1 m2 H1 H2 [Hlt|[Heq Hb]].
    + apply (sorted_before pattern_len); try (now apply in_sorted_mappings);
        [apply sorted_desc_sorted | exact Hlt].
    + apply stable_before; [exact Hb | now symmetry].
  - intros line changes Hskip. split.
    + unfold replace_line. now rewrite Hskip.
    + unfold new_line_of, replace_line. rewrite Hskip. apply fold_is_subs.
      * intros m. apply in_sorted_mappings.
      * now apply not_skipped_no_std.
  - exact declaration_in_place.
  - intros changes. split; [|split].
    + rewrite replace_line_shift.
      assert (replace_line (lit "unsigned long long x;") 0
              = (lit "cforge_ulong_t x;", 1)) as ->
        by (vm_compute; reflexivity).
      reflexivity.
    + rewrite replace_line_shift.
      assert (replace_line (lit "unsigned int x;") 0
              = (lit "cforge_uint_t x;", 1)) as ->
        by (vm_compute; reflexivity).
      reflexivity.
    + rewrite fold_from_zero. vm_compute. reflexivity.
Qed.

Lemma longest_pattern_first_witness :
  let before_text := lit "static const " in
  let after_text := lit " unsigned long long y; int z;" in
  should_skip_line
    (before_text ++ lit "unsigned long long x;" ++ after_text) = false /\
  ends_word before_text = false /\
  new_line_of (lit "static const unsigned long long x; unsigned long long y; int z;")
  = lit "static const cforge_ulong_t x; cforge_ulong_t y; cforge_int_t z;".
Proof.
  cbv zeta.
  assert (should_skip_line
            (lit "static const " ++ lit "unsigned long long x;"
             ++ lit " unsigned long long y; int z;") = false) as Hskip
    by (vm_compute; reflexivity).
  assert (ends_word (lit "static const ") = false) as He by reflexivity.
  split; [exact Hskip|]. split; [exact He|].
  pose proof (proj1 (proj2 (proj2 (proj2 longest_pattern_first)))
                (lit "static const ") (lit " unsigned long long y; int z;")
                Hskip He) as H.
  change (lit "static const unsigned long long x; unsigned long long y; int z;")
    with (lit "static const " ++ lit "unsigned long long x;"
          ++ lit " unsigned long long y; int z;").
  rewrite H. vm_compute. reflexivity.
Defined.

(** The claim as it was stated fails on a line that is skipped, and where a
    word character stands before the text: [typedef unsigned long long x;]
    is copied as it is, and in [my_unsigned long long x;] the pattern of
    [long long] is the one that matches. *)
Lemma marked_or_joined_text_is_not_compounded :
  let text := lit "unsigned long long x;" in
  let marked := lit "typedef unsigned long long x;" in
  let joined := lit "my_unsigned long long x;" in
  (contains text marked = true /\
   should_skip_line marked = true /\
   replace_line marked 0 = (marked, 0) /\
   contains (lit "cforge_ulong_t") (new_line_of marked) = false) /\
  (contains text joined = true /\
   should_skip_line joined = false /\
   Re.search "\bunsigned long long\b" joined = None /\
   replace_line joined 0 = (lit "my_unsigned cforge_long_t x;", 1) /\
   contains (lit "cforge_ulong_t") (new_line_of joined) = false) /\
  ~ (forall line,
       contains text line = true ->
       contains (lit "cforge_ulong_t") (new_line_of line) = true).
Proof.
  cbv zeta. split; [|split].
  - vm_compute. repeat split.
  - vm_compute. repeat split.
  - intros H.
    specialize (H (lit "typedef unsigned long long x;") eq_refl).
    vm_compute in H. discriminate.
Qed.

End LongestFirst.
